(** * Tab Shepherd: the tab-routing engine of [background.js]

    A shallow embedding of the service worker's decision functions
    (pattern matching, group resolution, the window-binding table, the startup
    rebinder and the batch sorter) and of the options page's import/export,
    followed by the properties proved about them.

    The browser is modelled by a [World]: the live windows, the live tabs, the
    [chrome.storage.local] record holding the binding table, and the module's
    in-memory mirror.  Asynchronous functions are embedded as sequential
    state-passing functions: one call runs to completion without another
    listener being interleaved, so a window stays live, and bound, when its
    last tab leaves it.  A read of the storage returns a copy of the table.
    Window and tab identifiers are natural numbers, and the keys of the table
    are their decimal spellings, which [parseInt] reads back. *)

From Stdlib Require Import ZArith NArith Lia.
From Stdlib Require Import Strings.String Strings.Ascii.
From stdpp Require Import gmap strings list fin_maps sorting pretty.

Open Scope N_scope.

(** ** JavaScript primitives *)

(** Outcome of evaluating a block that may throw. *)
Inductive Completion (A : Type) : Type :=
  | Normal (a : A)
  | Throw (message : string).
Arguments Normal {A} a.
Arguments Throw {A} message.

(** Truthiness of a string ([!s] is [negb (truthy_string s)]). *)
Definition truthy_string (s : string) : bool := negb (bool_decide (s = "")).

(** Truthiness of a possibly absent string ([undefined], [null] and the empty
    string are falsy). *)
Definition truthy_text (text : option string) : bool :=
  match text with
  | None => false
  | Some s => truthy_string s
  end.

(** Truthiness of a number that holds a window identifier. *)
Definition truthy_id (n : N) : bool := negb (bool_decide (n = 0)).

(** What [String.prototype.toLowerCase] does to a string of the ASCII range:
    the letters [A]..[Z] move to [a]..[z], every other character is kept. *)
Definition lower_ascii (c : ascii) : ascii :=
  let n := nat_of_ascii c in
  if (Nat.leb 65 n && Nat.leb n 90)%bool then ascii_of_nat (n + 32) else c.

Fixpoint ascii_toLowerCase (s : string) : string :=
  match s with
  | EmptyString => EmptyString
  | String c r => String (lower_ascii c) (ascii_toLowerCase r)
  end.

(** Every character of the string is of the ASCII range. *)
Fixpoint is_ascii (s : string) : bool :=
  match s with
  | EmptyString => true
  | String c r => (nat_of_ascii c <? 128)%nat && is_ascii r
  end.

(** [s.startsWith(p)] *)
Fixpoint startsWith (s p : string) {struct p} : bool :=
  match p, s with
  | EmptyString, _ => true
  | String c p', String d s' => bool_decide (c = d) && startsWith s' p'
  | String _ _, EmptyString => false
  end.

(** [s.includes(p)] *)
Fixpoint includes (s p : string) : bool :=
  startsWith s p ||
  match s with
  | EmptyString => false
  | String _ s' => includes s' p
  end.

(** [Array.prototype.sort(cmp)]: the sort is stable, and for a consistent
    comparator its result is the stable ordering of the input, computed here
    by insertion.  An element goes in front of the first element it does not
    compare greater than. *)
Fixpoint sort_insert {A} (cmp : A → A → Z) (x : A) (l : list A) : list A :=
  match l with
  | [] => [x]
  | y :: r => if (cmp x y <=? 0)%Z then x :: y :: r else y :: sort_insert cmp x r
  end.

Fixpoint Array_sort {A} (cmp : A → A → Z) (l : list A) : list A :=
  match l with
  | [] => []
  | x :: r => sort_insert cmp x (Array_sort cmp r)
  end.

(** The order a comparator induces: [x] may stand before [y]. *)
Definition precedes {A} (cmp : A → A → Z) (x y : A) : Prop := (cmp x y ≤ 0)%Z.

(** ** Data model *)

(** A group of the configuration.  [mode] is the stored string; only the value
    ["simple"] selects substring matching. *)
Record Group := {
  name : string;
  patterns : list string;
  priority : Z;
  mode : string
}.

Record Config := {
  enabled : bool;
  groups : list Group;
  catchAllWindowId : option N
}.

Record Tab := {
  tab_id : N;
  tab_windowId : N;
  tab_url : option string;
  tab_title : option string
}.

Inductive WindowType := normal | popup | panel | app | devtools.

Record Window := {
  win_id : N;
  win_type : WindowType
}.

Global Instance Group_eq_dec : EqDecision Group.
Proof. solve_decision. Defined.
Global Instance Tab_eq_dec : EqDecision Tab.
Proof. solve_decision. Defined.
Global Instance WindowType_eq_dec : EqDecision WindowType.
Proof. solve_decision. Defined.

(** Program points of [sortAllTabs] that the pass reaches, in order.
    [Processing] is the start of the body of the loop over the sorted groups,
    [Candidate] a push onto [tabsToMove], [Attempt] the start of the body of
    the loop over [tabsToMove], and [Moved] a [chrome.tabs.move] that
    returned. *)
Inductive Event :=
  | Processing (groupName : string)
  | Candidate (groupName : string) (tabId : N)
  | Attempt (groupName : string) (tabId : N)
  | Moved (groupName : string) (tabId : N) (targetWindowId : N).


Definition moved_tabs (es : list Event) : list N :=
  omap (λ e, match e with Moved _ t _ => Some t | _ => None end) es.



(** The binding table: the object [{ windowId: groupName }]. *)
Abbreviation Bindings := (gmap N string).

Record World := {
  windows : list Window;
  tabs : list Tab;
  (** [chrome.storage.local], key [windowBindings] *)
  stored_windowBindings : Bindings;
  (** the module-level variable [windowBindings] *)
  windowBindings : Bindings;
  trace : list Event
}.

Definition set_tabs (ts : list Tab) (w : World) : World :=
  {| windows := windows w; tabs := ts;
     stored_windowBindings := stored_windowBindings w;
     windowBindings := windowBindings w; trace := trace w |}.

Definition emit (es : list Event) (w : World) : World :=
  {| windows := windows w; tabs := tabs w;
     stored_windowBindings := stored_windowBindings w;
     windowBindings := windowBindings w; trace := trace w ++ es |}.

Definition key_le (x y : N * string) : Prop := x.1 ≤ y.1.

Global Instance key_le_dec : RelDecision key_le.
Proof. intros x y. unfold key_le. apply _. Defined.

(** [Object.entries(bindings)]: integer keys are enumerated in ascending
    order. *)
Definition Object_entries (bindings : Bindings) : list (N * string) :=
  merge_sort key_le (map_to_list bindings).


(** ** Browser interface *)

(** [chrome.windows.getAll({ populate: true })] *)
Definition windows_getAll (w : World) : list (Window * list Tab) :=
  (λ win, (win, filter (λ t, tab_windowId t = win_id win) (tabs w))) <$> windows w.

(** [chrome.windows.get(windowId)]; [None] when the call rejects. *)
Definition windows_get (windowId : N) (w : World) : option Window :=
  List.find (λ win, bool_decide (win_id win = windowId)) (windows w).

(** [chrome.tabs.get(tabId)]; [None] when the call rejects. *)
Definition tabs_get (tabId : N) (w : World) : option Tab :=
  List.find (λ t, bool_decide (tab_id t = tabId)) (tabs w).

Definition with_windowId (windowId : N) (t : Tab) : Tab :=
  {| tab_id := tab_id t; tab_windowId := windowId;
     tab_url := tab_url t; tab_title := tab_title t |}.

(** [chrome.tabs.move(tabId, { windowId, index: -1 })]: the tab becomes the
    last tab of the target window. *)
Definition tabs_move (tabId windowId : N) (w : World) : Completion World :=
  match tabs_get tabId w, windows_get windowId w with
  | Some t, Some _ =>
      Normal (set_tabs (filter (λ t', tab_id t' ≠ tabId) (tabs w)
                        ++ [with_windowId windowId t]) w)
  | None, _ => Throw "No tab with id"
  | Some _, None => Throw "No window with id"
  end.

(** ** Storage helpers *)

Definition getWindowBindings (w : World) : Bindings := stored_windowBindings w.

Definition saveWindowBindings (bindings : Bindings) (w : World) : World :=
  {| windows := windows w; tabs := tabs w;
     stored_windowBindings := bindings;
     windowBindings := bindings; trace := trace w |}.

(** The loop of [bindWindow] and of the [bindWindowToGroup] handler: every
    entry of another window for [groupName] is deleted.  [windowId] is [None]
    when the request carries [null] or no window, which no parsed key
    equals. *)
Definition evict_step (windowId : option N) (groupName : string)
    (bindings : Bindings) (entry : N * string) : Bindings :=
  let '(wid, gname) := entry in
  if bool_decide (gname = groupName) && negb (bool_decide (Some wid = windowId))
  then delete wid bindings else bindings.

Definition evict (windowId : option N) (groupName : string) (bindings : Bindings)
  : Bindings :=
  foldl (evict_step windowId groupName) bindings (Object_entries bindings).

Definition bindWindow (windowId : N) (groupName : string) (w : World) : World :=
  let bindings := getWindowBindings w in
  let bindings := evict (Some windowId) groupName bindings in
  let bindings := <[windowId := groupName]> bindings in
  saveWindowBindings bindings w.

Definition unbindWindow (windowId : N) (w : World) : World :=
  let bindings := getWindowBindings w in
  saveWindowBindings (delete windowId bindings) w.

(** The [bindWindowToGroup] case of the message listener. *)
Definition bindWindowToGroup (windowId : option N) (groupName : string) (w : World)
  : World :=
  let currentBindings := getWindowBindings w in
  let currentBindings := evict windowId groupName currentBindings in
  let currentBindings :=
    match windowId with
    | Some wid => if truthy_id wid then <[wid := groupName]> currentBindings
                  else currentBindings
    | None => currentBindings
    end in
  saveWindowBindings currentBindings w.

(** ** The host

    The regular-expression engine, the collation and the case mapping of the
    host are taken as given: [RegExp_i pattern] is [new RegExp(pattern, 'i')],
    [None] when the constructor throws a [SyntaxError]; [RegExp_test regex
    text] is [regex.test(text)]; [localeCompare a b] is [a.localeCompare(b)];
    [toLowerCase s] is [s.toLowerCase()], which lowers every cased letter, and
    of which only what it does to a string of the ASCII range is fixed
    here. *)
Class Host := {
  Regex : Type;
  RegExp_i : string → option Regex;
  RegExp_test : Regex → string → bool;
  localeCompare : string → string → Z;
  toLowerCase : string → string;
  toLowerCase_ascii : ∀ s, is_ascii s = true → toLowerCase s = ascii_toLowerCase s
}.

Section Engine.
Context {host : Host}.

(** ** Pattern matching *)

(** The [try] block of [matchesPattern]. *)
Definition matchesPattern_try (text pattern : string) (isSimpleMode : bool)
  : Completion bool :=
  if isSimpleMode then
    Normal (includes (toLowerCase text) (toLowerCase pattern))
  else
    match RegExp_i pattern with
    | Some regex => Normal (RegExp_test regex text)
    | None => Throw "SyntaxError: Invalid regular expression"
    end.

Definition matchesPattern (text : option string) (pattern : string)
    (isSimpleMode : bool) : bool :=
  match text with
  | None => false
  | Some s =>
      if negb (truthy_string s) || negb (truthy_string pattern) then false
      else
        match matchesPattern_try s pattern isSimpleMode with
        | Normal b => b
        | Throw e => false
        end
  end.

Definition isSimple (group : Group) : bool := bool_decide (mode group = "simple").

Definition tabMatchesGroup (url title : option string) (group : Group) : bool :=
  existsb (λ pattern,
             matchesPattern url pattern (isSimple group)
             || matchesPattern title pattern (isSimple group))
          (patterns group).

Inductive MatchType := title_match | url_match.

Record MatchInfo := {
  mi_group : Group;
  matchType : MatchType
}.

Definition getMatchInfo (url title : option string) (group : Group)
  : option MatchInfo :=
  if existsb (λ pattern, matchesPattern title pattern (isSimple group))
             (patterns group)
  then Some {| mi_group := group; matchType := title_match |}
  else if existsb (λ pattern, matchesPattern url pattern (isSimple group))
                  (patterns group)
  then Some {| mi_group := group; matchType := url_match |}
  else None.

(** The comparator handed to [matches.sort]. *)
Definition compareMatches (a b : MatchInfo) : Z :=
  match matchType a, matchType b with
  | title_match, url_match => (-1)%Z
  | url_match, title_match => 1%Z
  | _, _ => localeCompare (name (mi_group a)) (name (mi_group b))
  end.

Definition findMatchingGroup (config : Config) (url title : option string)
  : option Group :=
  if negb (enabled config) then None
  else
    let matches := omap (getMatchInfo url title) (groups config) in
    if bool_decide (length matches = 0%nat) then None
    else mi_group <$> head (Array_sort compareMatches matches).

(** ** Window management *)

(** The loop of [findWindowForGroup] over the entries read at its start;
    [bindings] is the function's local copy of the table. *)
Fixpoint findWindowForGroup_loop (groupName : string) (entries : list (N * string))
    (bindings : Bindings) (w : World) : option N * World :=
  match entries with
  | [] => (None, w)
  | (windowId, boundGroup) :: rest =>
      if bool_decide (boundGroup = groupName) then
        match windows_get windowId w with
        | Some _ => (Some windowId, w)
        | None =>
            let bindings := delete windowId bindings in
            findWindowForGroup_loop groupName rest bindings
              (saveWindowBindings bindings w)
        end
      else findWindowForGroup_loop groupName rest bindings w
  end.

Definition findWindowForGroup (groupName : string) (w : World) : option N * World :=
  let bindings := getWindowBindings w in
  findWindowForGroup_loop groupName (Object_entries bindings) bindings w.

(** ** Auto-rebind on startup *)




(** ** Sort all tabs *)

Definition isInternalUrl (url : option string) : bool :=
  negb (truthy_text url)
  || from_option (λ u, startsWith u "chrome://"
                       || startsWith u "chrome-extension://") false url.

(** The test, inside the two collecting loops of [sortAllTabs], that decides
    whether a tab of [window] is pushed onto [tabsToMove]. *)
Definition isCandidate (config : Config) (group : Group) (bindings : Bindings)
    (window : Window) (tab : Tab) : bool :=
  if isInternalUrl (tab_url tab) then false
  else if negb (tabMatchesGroup (tab_url tab) (tab_title tab) group) then false
  else
    match bindings !! win_id window with
    | None => true
    | Some currentWindowGroup =>
        if bool_decide (currentWindowGroup = name group) then false
        else if truthy_string currentWindowGroup then
          match List.find (λ g, bool_decide (name g = currentWindowGroup))
                          (groups config) with
          | Some currentGroupConfig =>
              negb (priority currentGroupConfig <? priority group)%Z
          | None => true
          end
        else true
    end.

Definition collectTabsToMove (config : Config) (group : Group)
    (wins : list (Window * list Tab)) (bindings : Bindings) : list (Tab * N) :=
  flat_map (λ '(window, wtabs),
              if bool_decide (win_type window = normal) then
                (λ tab, (tab, win_id window))
                  <$> List.filter (isCandidate config group bindings window) wtabs
              else [])
           wins.

Record SortState := {
  st_world : World;
  movedCount : nat;
  st_errors : list string
}.

Definition show_title (title : option string) : string :=
  from_option id "undefined" title.

Definition dquote : string := String (ascii_of_nat 34) EmptyString.

(** The body of the loop over [tabsToMove]. *)
Definition moveCandidate (group : Group) (st : SortState) (item : Tab * N)
  : SortState :=
  let tab := item.1 in
  let w := emit [Attempt (name group) (tab_id tab)] (st_world st) in
  let '(targetWindowId, w) := findWindowForGroup (name group) w in
  match tabs_get (tab_id tab) w with
  | None =>
      {| st_world := w; movedCount := movedCount st; st_errors := st_errors st |}
  | Some currentTab =>
      match targetWindowId with
      | Some target =>
          if truthy_id target
             && negb (bool_decide (target = tab_windowId currentTab)) then
            match tabs_move (tab_id tab) target w with
            | Normal w' =>
                {| st_world := emit [Moved (name group) (tab_id tab) target] w';
                   movedCount := S (movedCount st);
                   st_errors := st_errors st |}
            | Throw message =>
                {| st_world := w; movedCount := movedCount st;
                   st_errors := st_errors st ++
                     ["Failed to move tab " +:+ dquote
                      +:+ show_title (tab_title tab) +:+ dquote
                      +:+ ": " +:+ message] |}
            end
          else
            {| st_world := w; movedCount := movedCount st;
               st_errors := st_errors st |}
      | None =>
          {| st_world := w; movedCount := movedCount st;
             st_errors := st_errors st |}
      end
  end.

(** The body of the loop over [sortedGroups]. *)
Definition processGroup (config : Config) (st : SortState) (group : Group)
  : SortState :=
  let w := emit [Processing (name group)] (st_world st) in
  let wins := windows_getAll w in
  let bindings := getWindowBindings w in
  let '(targetWindowId, w) := findWindowForGroup (name group) w in
  let tabsToMove := collectTabsToMove config group wins bindings in
  let w := emit ((λ item, Candidate (name group) (tab_id item.1)) <$> tabsToMove) w in
  foldl (moveCandidate group)
        {| st_world := w; movedCount := movedCount st; st_errors := st_errors st |}
        tabsToMove.

Definition sortedGroups (config : Config) : list Group :=
  Array_sort (λ a b, (priority a - priority b)%Z) (groups config).

Definition sortAllTabs (config : Config) (w : World) : SortState :=
  if negb (enabled config) || bool_decide (length (groups config) = 0%nat) then
    {| st_world := w; movedCount := 0; st_errors := [] |}
  else
    foldl (processGroup config)
          {| st_world := w; movedCount := 0; st_errors := [] |}
          (sortedGroups config).

(** ** Vocabulary of the properties *)

(** The same group under another numeric priority. *)
Definition with_priority (f : Group → Z) (g : Group) : Group :=
  {| name := name g; patterns := patterns g; priority := f g; mode := mode g |}.

Definition reprioritise (f : Group → Z) (config : Config) : Config :=
  {| enabled := enabled config; groups := with_priority f <$> groups config;
     catchAllWindowId := catchAllWindowId config |}.

Definition retag (f : Group → Z) (m : MatchInfo) : MatchInfo :=
  {| mi_group := with_priority f (mi_group m); matchType := matchType m |}.

(** Resolution by configured priority, the order [sortAllTabs] follows: the
    first group, in ascending priority, that the tab matches by URL or
    title. *)
Definition resolveByPriority (config : Config) (url title : option string)
  : option Group :=
  head (List.filter (tabMatchesGroup url title) (sortedGroups config)).

(** Some pattern of [group] matches [text], in the mode of the group: the
    group matches by title when [text] is the title of the tab, by URL when
    it is its URL. *)
Definition matched_by (text : option string) (group : Group) : Prop :=
  ∃ pattern, pattern ∈ patterns group
             ∧ matchesPattern text pattern (isSimple group) = true.

(** The invariants of the group list: names are distinct and not empty,
    priorities are distinct. *)
Definition valid_groups (config : Config) : Prop :=
  NoDup (name <$> groups config)
  ∧ (∀ g, g ∈ groups config → name g ≠ "")
  ∧ NoDup (priority <$> groups config).

(** Every tab that resolves to a group sits in the window bound to it. *)
Definition settled (resolve : option string → option string → option Group)
    (w : World) : Prop :=
  ∀ window wtabs tab g,
    (window, wtabs) ∈ windows_getAll w → tab ∈ wtabs →
    resolve (tab_url tab) (tab_title tab) = Some g →
    getWindowBindings w !! win_id window = Some (name g).

Definition set_world (w : World) (st : SortState) : SortState :=
  {| st_world := w; movedCount := movedCount st; st_errors := st_errors st |}.

(** The state [st] of a pass that started in [st0] over the world [w0] and has
    moved nothing so far: windows and tabs are as in [w0], the table is that
    of [w0] less some entries of windows that are not live, the counters are
    as in [st0]. *)
Definition quiet_from (w0 : World) (st0 st : SortState) : Prop :=
  windows (st_world st) = windows w0 ∧
  tabs (st_world st) = tabs w0 ∧
  (∀ k, stored_windowBindings (st_world st) !! k = stored_windowBindings w0 !! k
        ∨ (stored_windowBindings (st_world st) !! k = None
           ∧ windows_get k w0 = None)) ∧
  movedCount st = movedCount st0 ∧
  st_errors st = st_errors st0 ∧
  ∃ es, trace (st_world st) = trace (st_world st0) ++ es ∧ moved_tabs es = [].

(** The tab [T] still sits where it sat in [w0], in a window bound to
    [groupName], and no other tab carries its identifier. *)
Definition keeps_tab (w0 : World) (T : Tab) (groupName : string) (w : World)
  : Prop :=
  windows w = windows w0 ∧
  T ∈ tabs w ∧
  (∀ t, t ∈ tabs w → tab_id t = tab_id T → t = T) ∧
  stored_windowBindings w !! tab_windowId T = Some groupName.

(** From [w] to [w'] the trace grew by events that all satisfy [P]. *)
Definition extends_with (P : Event → Prop) (w w' : World) : Prop :=
  ∃ es, trace w' = trace w ++ es ∧ Forall P es.

(** An event that is not a move of the tab [tabId]. *)
Definition not_move_of (tabId : N) (e : Event) : Prop :=
  match e with
  | Moved _ t _ => t ≠ tabId
  | _ => True
  end.

(** An event that is not a move of the tab [tabId] made for the group
    [groupName]. *)
Definition not_taken_by (groupName : string) (tabId : N) (e : Event) : Prop :=
  match e with
  | Moved g t _ => g = groupName → t ≠ tabId
  | _ => True
  end.

(** The tab [tabId] sits in a live window bound to a group whose priority
    number is at most [p], and no other tab carries its identifier. *)
Definition owned_within (config : Config) (w0 : World) (tabId : N) (p : Z)
    (w : World) : Prop :=
  windows w = windows w0 ∧
  ∃ T owner,
    T ∈ tabs w ∧ tab_id T = tabId ∧
    (∀ t, t ∈ tabs w → tab_id t = tabId → t = T) ∧
    is_Some (windows_get (tab_windowId T) w0) ∧
    owner ∈ groups config ∧
    stored_windowBindings w !! tab_windowId T = Some (name owner) ∧
    (priority owner ≤ p)%Z.

End Engine.

(** ** Rebinding: vocabulary *)



(** ** Options page: import and export ([options.js]) *)

(** The values [JSON.parse] produces. *)
#[local] Unset Elimination Schemes.
Inductive JSON :=
  | JNull
  | JBool (b : bool)
  | JNumber (z : Z)
  | JString (s : string)
  | JArray (items : list JSON)
  | JObject (fields : list (string * JSON)).
#[local] Set Elimination Schemes.

(** Property access [value.key]; [None] is [undefined]. *)
Definition get_field (key : string) (value : JSON) : option JSON :=
  match value with
  | JObject fields => snd <$> List.find (λ kv, bool_decide (kv.1 = key)) fields
  | _ => None
  end.

Definition truthy_json (value : option JSON) : bool :=
  match value with
  | None | Some JNull => false
  | Some (JBool b) => b
  | Some (JNumber z) => negb (bool_decide (z = 0%Z))
  | Some (JString s) => truthy_string s
  | Some (JArray _) | Some (JObject _) => true
  end.

(** [value === false] *)
Definition is_false (value : option JSON) : bool :=
  match value with
  | Some (JBool false) => true
  | _ => false
  end.

(** [Array.isArray(value)] *)
Definition isArray (value : option JSON) : bool :=
  match value with
  | Some (JArray _) => true
  | _ => false
  end.

(** [a || b] *)
Definition js_or (a : option JSON) (b : JSON) : JSON :=
  if truthy_json a then default JNull a else b.

(** [a ?? b] *)
Definition js_nullish (a : option JSON) (b : JSON) : JSON :=
  match a with
  | None | Some JNull => b
  | Some v => v
  end.

(** The object the options page keeps in [currentConfig], as
    [JSON.stringify] writes it and [JSON.parse] reads it back. *)
Definition Group_toJSON (g : Group) : JSON :=
  JObject [("name", JString (name g));
           ("patterns", JArray (JString <$> patterns g));
           ("mode", JString (mode g));
           ("priority", JNumber (priority g))].

Definition Config_toJSON (config : Config) : JSON :=
  JObject [("enabled", JBool (enabled config));
           ("groups", JArray (Group_toJSON <$> groups config));
           ("catchAllWindowId",
            from_option (λ n, JNumber (Z.of_N n)) JNull (catchAllWindowId config))].

(** [exportConfig]: the content of the downloaded file, read as JSON. *)
Definition exportConfig (currentConfig : Config) : JSON :=
  Config_toJSON currentConfig.

(** The object built for one imported group, at index [i]. *)
Definition importGroup (i : nat) (g : JSON) : JSON :=
  JObject [("name", default JNull (get_field "name" g));
           ("patterns", default JNull (get_field "patterns" g));
           ("mode", js_or (get_field "mode" g) (JString "simple"));
           ("priority", js_nullish (get_field "priority" g) (JNumber (Z.of_nat i)))].

(** The body of [importConfig], from the parsed content of the file to the new
    value of [currentConfig]; a [Throw] is reported as a failed import and
    leaves [currentConfig] as it was.  [build] makes the object of one
    group. *)
Definition importConfig_with (build : nat → JSON → JSON) (imported : JSON)
  : Completion JSON :=
  match get_field "groups" imported with
  | Some (JArray importedGroups) =>
      if forallb (λ group, truthy_json (get_field "name" group)
                           && isArray (get_field "patterns" group))
                 importedGroups
      then
        Normal (JObject
          [("enabled",
            JBool (negb (is_false (get_field "enabled" imported))));
           ("groups", JArray (imap build importedGroups));
           ("catchAllWindowId", js_or (get_field "catchAllWindowId" imported) JNull)])
      else Throw "Invalid config: group missing name or patterns"
  | _ => Throw "Invalid config: missing groups array"
  end.

Definition importConfig (imported : JSON) : Completion JSON :=
  importConfig_with importGroup imported.

(** Reading a group list back from the stored object. *)
Definition string_ofJSON (value : JSON) : option string :=
  match value with
  | JString s => Some s
  | _ => None
  end.

Definition Group_ofJSON (value : JSON) : option Group :=
  match get_field "name" value, get_field "patterns" value,
        get_field "mode" value, get_field "priority" value with
  | Some (JString n), Some (JArray ps), Some (JString m), Some (JNumber p) =>
      (λ ps', {| name := n; patterns := ps'; priority := p; mode := m |})
        <$> mapM string_ofJSON ps
  | _, _, _, _ => None
  end.

Definition groups_ofJSON (value : JSON) : option (list Group) :=
  match get_field "groups" value with
  | Some (JArray gs) => mapM Group_ofJSON gs
  | _ => None
  end.

(** A configuration the options page can hold: every group has a name and a
    mode. *)
Definition exportable (config : Config) : Prop :=
  ∀ g, g ∈ groups config → name g ≠ "" ∧ mode g ≠ "".

(** ** A sample host

    Patterns are read literally and without regard to case, the pattern
    ["("] does not compile, strings are collated by code unit, and only the
    letters [A]..[Z] have a lower case.  It is used to run the model on
    concrete inputs. *)
Fixpoint codeunit_compare (a b : string) : Z :=
  match a, b with
  | EmptyString, EmptyString => 0
  | EmptyString, String _ _ => -1
  | String _ _, EmptyString => 1
  | String c a', String d b' =>
      if (nat_of_ascii c <? nat_of_ascii d)%nat then -1
      else if (nat_of_ascii d <? nat_of_ascii c)%nat then 1
      else codeunit_compare a' b'
  end%Z.

Definition sample_host : Host := {|
  Regex := string;
  RegExp_i := λ pattern, if bool_decide (pattern = "(") then None
                         else Some (ascii_toLowerCase pattern);
  RegExp_test := λ regex text, includes (ascii_toLowerCase text) regex;
  localeCompare := codeunit_compare;
  toLowerCase := ascii_toLowerCase;
  toLowerCase_ascii := λ s _, eq_refl
|}.

Definition simple_group (n : string) (ps : list string) (p : Z) : Group :=
  {| name := n; patterns := ps; priority := p; mode := "simple" |}.

Definition normal_window (i : N) : Window := {| win_id := i; win_type := normal |}.

Definition tab_at (i windowId : N) (url title : string) : Tab :=
  {| tab_id := i; tab_windowId := windowId;
     tab_url := Some url; tab_title := Some title |}.

Definition world_of (ws : list Window) (ts : list Tab) (bindings : Bindings) : World :=
  {| windows := ws; tabs := ts; stored_windowBindings := bindings;
     windowBindings := bindings; trace := [] |}.

(** ** Sample inputs *)

Definition config_of (gs : list Group) : Config :=
  {| enabled := true; groups := gs; catchAllWindowId := None |}.

(** Group X of priority 0 bound to window 100, group Y of priority 1 unbound,
    one tab that matches both and sits in window 100. *)
Definition group_X : Group := simple_group "X" ["foo"] 0.
Definition group_Y : Group := simple_group "Y" ["example"] 1.
Definition tab_foo : Tab := tab_at 1 100 "http://foo.example" "Foo".
Definition ownership_config : Config := config_of [group_X; group_Y].
Definition ownership_world : World :=
  world_of [normal_window 100] [tab_foo] {[ 100 := "X" ]}.

(** Three groups that all match one tab; the tab sits in the window of the
    second. *)
Definition group_Dev : Group := simple_group "Dev" ["localhost"] 0.
Definition group_3004 : Group := simple_group "3004" ["3004"] 1.
Definition group_App : Group := simple_group "App" ["app"] 2.
Definition tab_app : Tab := tab_at 1 200 "http://localhost:3004/app" "Dev App".
Definition three_groups_config : Config :=
  config_of [group_Dev; group_3004; group_App].
Definition three_groups_world : World :=
  world_of [normal_window 100; normal_window 200] [tab_app]
           (<[100 := "Dev"]> {[ 200 := "3004" ]}).

(** Two groups with the same pattern; the tab sits in the window of the one
    that is first by name and second by priority. *)
Definition group_A : Group := simple_group "A" ["foo"] 1.
Definition group_B : Group := simple_group "B" ["foo"] 0.
Definition tab_in_A : Tab := tab_at 1 100 "http://foo.example" "Foo".
Definition by_name_config : Config := config_of [group_A; group_B].
Definition by_name_world : World :=
  world_of [normal_window 100; normal_window 200] [tab_in_A]
           (<[100 := "A"]> {[ 200 := "B" ]}).

(** The group ["A"], of priority 0, matches the URL of [tab_in_A] only; the
    group ["B"], of priority 1, matches its title. *)
Definition group_by_url : Group := simple_group "A" ["example"] 0.
Definition group_by_title : Group := simple_group "B" ["foo"] 1.
Definition title_first_config : Config := config_of [group_by_url; group_by_title].

(** Two windows bound to two groups, each tab in the window of its group. *)
Definition group_3003 : Group := simple_group "3003" ["localhost:3003"] 0.
Definition group_3004' : Group := simple_group "3004" ["localhost:3004"] 1.
Definition sorted_config : Config := config_of [group_3003; group_3004'].
Definition sorted_world : World :=
  world_of [normal_window 100; normal_window 200]
           [tab_at 1 100 "http://localhost:3003/app" "App 3003";
            tab_at 2 200 "http://localhost:3004/app" "App 3004"]
           (<[100 := "3003"]> {[ 200 := "3004" ]}).

(** A binding to the window 999, which is not live. *)
Definition stale_world : World :=
  world_of [normal_window 100]
           [tab_at 1 100 "http://localhost:3003/app" "App"]
           {[ 999 := "3003" ]}.


(** ** The older copy of the service worker and of the options page

    The repository also carries an earlier version of [background.js] and of
    [options.js].  Two of its functions differ from the ones above in a way
    that matters below. *)
Module Legacy.

(** [bindWindow] without the eviction loop. *)
Definition bindWindow (windowId : N) (groupName : string) (w : World) : World :=
  let bindings := getWindowBindings w in
  saveWindowBindings (<[windowId := groupName]> bindings) w.

(** [importConfig] copying [name], [patterns] and [priority] only. *)
Definition importGroup (i : nat) (g : JSON) : JSON :=
  JObject [("name", default JNull (get_field "name" g));
           ("patterns", default JNull (get_field "patterns" g));
           ("priority", js_nullish (get_field "priority" g) (JNumber (Z.of_nat i)))].

Definition importConfig (imported : JSON) : Completion JSON :=
  importConfig_with importGroup imported.

End Legacy.

(** ** More JavaScript primitives *)

(** White space of the ASCII range: tab, line feed, vertical tab, form feed,
    carriage return and space. *)
Definition is_space (c : ascii) : bool :=
  let n := nat_of_ascii c in
  (Nat.leb 9 n && Nat.leb n 13) || Nat.eqb n 32.

Fixpoint trimStart (s : string) : string :=
  match s with
  | EmptyString => EmptyString
  | String c r => if is_space c then trimStart r else s
  end.

Fixpoint trimEnd (s : string) : string :=
  match s with
  | EmptyString => EmptyString
  | String c r =>
      let r' := trimEnd r in
      if is_space c && bool_decide (r' = EmptyString) then EmptyString
      else String c r'
  end.

(** [s.trim()] *)
Definition trim (s : string) : string := trimEnd (trimStart s).

Definition newline : ascii := ascii_of_nat 10.

(** [s.split('\n')]: never empty, the empty string gives one empty line. *)
Fixpoint split_lines (s : string) : list string :=
  match s with
  | EmptyString => [EmptyString]
  | String c r =>
      if bool_decide (c = newline) then EmptyString :: split_lines r
      else
        match split_lines r with
        | line :: lines => String c line :: lines
        | [] => [String c EmptyString]
        end
  end.


(** [Math.max(-1, ...values)] *)
Definition Math_max (values : list Z) : Z := foldr Z.max (-1)%Z values.

(** [value || null] on a string read from the table. *)
Definition or_null (value : option string) : option string :=
  match value with
  | Some s => if truthy_string s then Some s else None
  | None => None
  end.

(** [title || fallback] *)
Definition or_text (value : option string) (fallback : string) : string :=
  match value with
  | Some s => if truthy_string s then s else fallback
  | None => fallback
  end.

(** ** The stored configuration *)

Definition DEFAULT_CONFIG : Config :=
  {| enabled := true; groups := []; catchAllWindowId := None |}.

(** [getConfig]; [stored] is the value of the key [config] in
    [chrome.storage.sync], [None] when the key is absent. *)
Definition getConfig (stored : option Config) : Config :=
  default DEFAULT_CONFIG stored.

(** ** Moving one tab *)

(** [moveTabToWindow].  Which window has the focus is not part of the
    [World]; [chrome.windows.update] rejects for a window that is not live. *)
Definition moveTabToWindow (tabId windowId : N) (w : World) : bool * World :=
  match tabs_move tabId windowId w with
  | Normal w' =>
      match windows_get windowId w' with
      | Some _ => (true, w')
      | None => (false, w')
      end
  | Throw e => (false, w)
  end.

(** What [chrome.tabs.onUpdated] reports as changed. *)
Record ChangeInfo := {
  change_url : option string;
  change_title : option string
}.

(** One record of the answer to [getAllTabs]. *)
Record TabInfo := {
  info_id : N;
  info_url : string;
  info_title : string;
  info_windowId : N;
  info_windowGroup : option string
}.

(** One record of the answer to [testPatterns].  The field [matches] is kept
    by its truthiness, which is all the options page reads. *)
Record TestedTab := {
  tested_id : N;
  tested_url : string;
  tested_title : string;
  tested_windowId : N;
  tested_windowGroup : option string;
  tested_matches : bool
}.

Definition without_matches (t : TestedTab) : TabInfo :=
  {| info_id := tested_id t; info_url := tested_url t;
     info_title := tested_title t; info_windowId := tested_windowId t;
     info_windowGroup := tested_windowGroup t |}.

(** The URL of a tab behind the guard [!tab.url], where it is a string. *)
Definition url_of (tab : Tab) : string := default "" (tab_url tab).

(** The tabs the [getAllTabs] and [testPatterns] cases walk through: those of
    the normal windows whose URL is not internal. *)
Definition listedTabs {B} (item : Window → Tab → B) (wins : list (Window * list Tab))
  : list B :=
  flat_map (λ '(win, wtabs),
              if bool_decide (win_type win = normal) then
                item win <$> List.filter (λ tab, negb (isInternalUrl (tab_url tab))) wtabs
              else [])
           wins.

(** The [getAllTabs] case of the message listener. *)
Definition getAllTabs (w : World) : list TabInfo :=
  let previewWindows := windows_getAll w in
  let previewBindings := getWindowBindings w in
  listedTabs (λ win tab,
                {| info_id := tab_id tab; info_url := url_of tab;
                   info_title := or_text (tab_title tab) "(no title)";
                   info_windowId := win_id win;
                   info_windowGroup := or_null (previewBindings !! win_id win) |})
             previewWindows.

(** The palette of the [labelWindow] case and the colour it gives a new tab
    group: the first colour no tab group uses, the first colour when all are
    in use. *)
Definition TAB_GROUP_COLORS : list string :=
  ["blue"; "red"; "yellow"; "green"; "pink"; "purple"; "cyan"; "orange"; "grey"].

Definition availableColor (usedColors : list string) : string :=
  match List.find (λ c, negb (bool_decide (c ∈ usedColors))) TAB_GROUP_COLORS with
  | Some c => if truthy_string c then c else default "" (head TAB_GROUP_COLORS)
  | None => default "" (head TAB_GROUP_COLORS)
  end.

Section Router.
Context {host : Host}.

(** ** Tab event handlers *)

Definition handleTabNavigation (config : Config) (tabId : N)
    (url title : option string) (currentWindowId : N) (w : World) : World :=
  if negb (enabled config) then w
  else if isInternalUrl url then w
  else
    let matchingGroup := findMatchingGroup config url title in
    let bindings := getWindowBindings w in
    let currentWindowGroup := bindings !! currentWindowId in
    match matchingGroup with
    | Some matchingGroup =>
        if bool_decide (currentWindowGroup = Some (name matchingGroup)) then w
        else
          let '(targetWindowId, w) := findWindowForGroup (name matchingGroup) w in
          match targetWindowId with
          | Some target =>
              if truthy_id target && negb (bool_decide (target = currentWindowId))
              then (moveTabToWindow tabId target w).2
              else w
          | None => w
          end
    | None =>
        match catchAllWindowId config with
        | Some catchAll =>
            if truthy_id catchAll then
              if bool_decide (currentWindowId = catchAll) then w
              else
                match windows_get catchAll w with
                | Some _ => (moveTabToWindow tabId catchAll w).2
                | None => w
                end
            else w
        | None => w
        end
    end.

(** The listener of [chrome.tabs.onUpdated]. *)
Definition onUpdated (config : Config) (tabId : N) (changeInfo : ChangeInfo)
    (tab : Tab) (w : World) : World :=
  if truthy_text (change_url changeInfo) || truthy_text (change_title changeInfo)
  then handleTabNavigation config tabId (tab_url tab) (tab_title tab)
                           (tab_windowId tab) w
  else w.

(** The listener of [chrome.tabs.onCreated]. *)
Definition onCreated (config : Config) (tab : Tab) (pendingUrl : option string)
    (w : World) : World :=
  if truthy_text pendingUrl
     && negb (from_option (λ u, startsWith u "chrome://") false pendingUrl)
  then handleTabNavigation config (tab_id tab) pendingUrl (tab_title tab)
                           (tab_windowId tab) w
  else w.

(** ** Testing patterns against the open tabs *)

(** The [try] block of the loop over the patterns: the value assigned to
    [matches], by its truthiness. *)
Definition testPattern_try (isSimpleMode : bool) (tab : Tab) (pattern : string)
  : Completion bool :=
  if isSimpleMode then
    let lowerPattern := toLowerCase pattern in
    Normal ((truthy_text (tab_url tab)
             && includes (toLowerCase (url_of tab)) lowerPattern)
            || (truthy_text (tab_title tab)
                && includes (toLowerCase (default "" (tab_title tab))) lowerPattern))
  else
    match RegExp_i pattern with
    | Some regex =>
        Normal (RegExp_test regex (url_of tab)
                || RegExp_test regex (or_text (tab_title tab) ""))
    | None => Throw "SyntaxError: Invalid regular expression"
    end.

(** The loop over the patterns; [matches] is the variable of that name. *)
Fixpoint testPatterns_loop (isSimpleMode : bool) (tab : Tab) (patterns : list string)
    (matches : bool) : bool :=
  match patterns with
  | [] => matches
  | pattern :: rest =>
      if negb (truthy_string (trim pattern)) then
        testPatterns_loop isSimpleMode tab rest matches
      else
        match testPattern_try isSimpleMode tab pattern with
        | Normal matches =>
            if matches then matches
            else testPatterns_loop isSimpleMode tab rest matches
        | Throw e => testPatterns_loop isSimpleMode tab rest matches
        end
  end.

(** The [testPatterns] case of the message listener; [patterns] and
    [simpleMode] are the fields of the message, [None] when absent. *)
Definition testPatterns (patterns : option (list string)) (simpleMode : option bool)
    (w : World) : list TestedTab :=
  let testWindows := windows_getAll w in
  let testBindings := getWindowBindings w in
  let patterns := default [] patterns in
  let isSimpleMode := default false simpleMode in
  listedTabs (λ win tab,
                {| tested_id := tab_id tab; tested_url := url_of tab;
                   tested_title := or_text (tab_title tab) "(no title)";
                   tested_windowId := win_id win;
                   tested_windowGroup := or_null (testBindings !! win_id win);
                   tested_matches :=
                     testPatterns_loop isSimpleMode tab patterns false |})
             testWindows.

(** ** Vocabulary of the further properties of a pass *)

(** A move of the pass is justified when its target is a live window, other
    than 0, that the table of [w] binds to the group the move was made for,
    and the tab moved is a tab of [w] with a URL that is not internal which
    matches a group of that name. *)
Definition justified (config : Config) (w : World) (e : Event) : Prop :=
  match e with
  | Moved groupName tabId target =>
      target ≠ 0 ∧
      stored_windowBindings w !! target = Some groupName ∧
      is_Some (windows_get target w) ∧
      ∃ group T,
        group ∈ groups config ∧ name group = groupName ∧
        T ∈ tabs w ∧ tab_id T = tabId ∧
        isInternalUrl (tab_url T) = false ∧
        tabMatchesGroup (tab_url T) (tab_title T) group = true
  | _ => True
  end.


End Router.

(** The listener of [chrome.windows.onRemoved]. *)
Definition onRemoved (windowId : N) (w : World) : World := unbindWindow windowId w.

(** ** Vocabulary of the further properties *)

(** What a move leaves of a tab: its identifier, URL and title. *)
Definition tab_content (t : Tab) : N * option string * option string :=
  (tab_id t, tab_url t, tab_title t).

(** [w'] differs from [w] at most by table entries of windows that are not
    live, which it has lost. *)
Definition only_stale_dropped (w w' : World) : Prop :=
  ∀ k, stored_windowBindings w' !! k = stored_windowBindings w !! k
       ∨ (stored_windowBindings w' !! k = None ∧ windows_get k w = None).

(** The state [st] of a pass over [w0] that started in [st0]: the windows are
    those of [w0], the table has lost at most entries of windows that are
    gone, every tab is a tab of [w0] in some window, no error was recorded,
    and the counter grew by the number of moves on the trace, which are all
    justified. *)
Definition pass_from {host : Host} (config : Config) (w0 : World) (st0 st : SortState)
  : Prop :=
  windows (st_world st) = windows w0 ∧
  only_stale_dropped w0 (st_world st) ∧
  (∀ T', T' ∈ tabs (st_world st) → ∃ T, T ∈ tabs w0 ∧ tab_content T' = tab_content T) ∧
  (NoDup (tab_id <$> tabs w0) →
   tab_content <$> tabs (st_world st) ≡ₚ tab_content <$> tabs w0) ∧
  st_errors st = st_errors st0 ∧
  ∃ es, trace (st_world st) = trace (st_world st0) ++ es ∧
        movedCount st = (movedCount st0 + length (moved_tabs es))%nat ∧
        Forall (justified config w0) es.

(** No window carries the identifier 0, which the code reads as "no
    window"; the browser numbers windows from 1. *)
Definition positive_ids (w : World) : Prop :=
  ∀ window, window ∈ windows w → win_id window ≠ 0.

(** No window is bound to the group [groupName]. *)
Definition unbound (groupName : string) (w : World) : Prop :=
  ∀ k, getWindowBindings w !! k ≠ Some groupName.

(** No tab of a normal window of [w] would be collected for [group]. *)
Definition no_candidate {host : Host} (config : Config) (group : Group) (w : World)
  : Prop :=
  ∀ window tab,
    window ∈ windows w → tab ∈ tabs w → tab_windowId tab = win_id window →
    win_type window = normal →
    isCandidate config group (getWindowBindings w) window tab = false.

(** A pass over [w] has nothing to do for [group]. *)
Definition served {host : Host} (config : Config) (group : Group) (w : World) : Prop :=
  unbound (name group) w ∨ no_candidate config group w.

(** ** Further sample inputs *)

(** A tab that matches the groups A and B and sits in the window of B. *)
Definition tab_in_B : Tab := tab_at 1 200 "http://foo.example" "Foo".
Definition routed_world : World :=
  world_of [normal_window 100; normal_window 200] [tab_in_B]
           (<[100 := "A"]> {[ 200 := "B" ]}).

(** A catch-all window, and a tab that matches no group. *)
Definition catch_all_config : Config :=
  {| enabled := true; groups := [group_X]; catchAllWindowId := Some 200 |}.
Definition tab_other : Tab := tab_at 7 100 "http://bar.example" "Bar".
Definition catch_all_world : World :=
  world_of [normal_window 100; normal_window 200] [tab_other] {[ 100 := "X" ]}.

(** ** The options page: groups ([options.js])

    The page keeps the configuration in [currentConfig] and sends it to the
    service worker after each change.  What it draws is not modelled; the
    status line is, by the last message shown.  The three inputs of the group
    dialog are part of the state, since [saveModal] reads them. *)

Record Template := {
  template_name : string;
  template_icon : string;
  template_patterns : list string;
  template_mode : string
}.

Definition TEMPLATES : list (string * Template) :=
  [("development",
    {| template_name := "Development"; template_icon := "&#x1F4BB;";
       template_patterns := ["localhost"; "127.0.0.1"]; template_mode := "simple" |});
   ("github",
    {| template_name := "GitHub"; template_icon := "&#x1F419;";
       template_patterns := ["github.com"]; template_mode := "simple" |});
   ("google",
    {| template_name := "Google Workspace"; template_icon := "&#x1F4DD;";
       template_patterns := ["docs.google.com"; "sheets.google.com";
                             "drive.google.com"; "mail.google.com"];
       template_mode := "simple" |});
   ("productivity",
    {| template_name := "Productivity"; template_icon := "&#x1F4CB;";
       template_patterns := ["notion.so"; "linear.app"; "slack.com"; "figma.com"];
       template_mode := "simple" |});
   ("social",
    {| template_name := "Social"; template_icon := "&#x1F310;";
       template_patterns := ["twitter.com"; "x.com"; "linkedin.com"; "reddit.com"];
       template_mode := "simple" |});
   ("entertainment",
    {| template_name := "Entertainment"; template_icon := "&#x1F3AC;";
       template_patterns := ["youtube.com"; "netflix.com"; "spotify.com"];
       template_mode := "simple" |})].

(** [TEMPLATES[id]], for the identifiers the page writes in its check boxes
    and list items; [None] is [undefined]. *)
Definition TEMPLATES_get (id : string) : option Template :=
  snd <$> List.find (λ kv, bool_decide (kv.1 = id)) TEMPLATES.

Record Page := {
  currentConfig : Config;
  (** the property [catchAllGroupName] of [currentConfig]; [None] when it is
      absent or null *)
  catchAllGroupName : option string;
  editingGroupIndex : option nat;
  (** the values of [groupNameInput], [groupPatternsInput], [matchModeInput] *)
  groupNameInput : string;
  groupPatternsInput : string;
  matchModeInput : string;
  (** the last message given to [showStatus], and its type *)
  status : option (string * string);
  (** what [saveConfig] has sent to the service worker, oldest first *)
  saved : list (Config * option string)
}.

Definition set_config (config : Config) (page : Page) : Page :=
  {| currentConfig := config; catchAllGroupName := catchAllGroupName page;
     editingGroupIndex := editingGroupIndex page;
     groupNameInput := groupNameInput page;
     groupPatternsInput := groupPatternsInput page;
     matchModeInput := matchModeInput page;
     status := status page; saved := saved page |}.

Definition set_groups (gs : list Group) (page : Page) : Page :=
  set_config {| enabled := enabled (currentConfig page); groups := gs;
                catchAllWindowId := catchAllWindowId (currentConfig page) |} page.

Definition set_catchAllGroupName (value : option string) (page : Page) : Page :=
  {| currentConfig := currentConfig page; catchAllGroupName := value;
     editingGroupIndex := editingGroupIndex page;
     groupNameInput := groupNameInput page;
     groupPatternsInput := groupPatternsInput page;
     matchModeInput := matchModeInput page;
     status := status page; saved := saved page |}.

Definition set_editingGroupIndex (value : option nat) (page : Page) : Page :=
  {| currentConfig := currentConfig page;
     catchAllGroupName := catchAllGroupName page;
     editingGroupIndex := value;
     groupNameInput := groupNameInput page;
     groupPatternsInput := groupPatternsInput page;
     matchModeInput := matchModeInput page;
     status := status page; saved := saved page |}.

Definition set_inputs (nameValue patternsValue modeValue : string) (page : Page)
  : Page :=
  {| currentConfig := currentConfig page;
     catchAllGroupName := catchAllGroupName page;
     editingGroupIndex := editingGroupIndex page;
     groupNameInput := nameValue;
     groupPatternsInput := patternsValue;
     matchModeInput := modeValue;
     status := status page; saved := saved page |}.

Definition showStatus (message type : string) (page : Page) : Page :=
  {| currentConfig := currentConfig page;
     catchAllGroupName := catchAllGroupName page;
     editingGroupIndex := editingGroupIndex page;
     groupNameInput := groupNameInput page;
     groupPatternsInput := groupPatternsInput page;
     matchModeInput := matchModeInput page;
     status := Some (message, type); saved := saved page |}.

(** [saveConfig] of the options page. *)
Definition Page_saveConfig (page : Page) : Page :=
  {| currentConfig := currentConfig page;
     catchAllGroupName := catchAllGroupName page;
     editingGroupIndex := editingGroupIndex page;
     groupNameInput := groupNameInput page;
     groupPatternsInput := groupPatternsInput page;
     matchModeInput := matchModeInput page;
     status := status page;
     saved := saved page ++ [(currentConfig page, catchAllGroupName page)] |}.

Definition set_priority (p : Z) (g : Group) : Group :=
  {| name := name g; patterns := patterns g; priority := p; mode := mode g |}.

(** [mode || 'simple'] *)
Definition mode_or_simple (m : string) : string :=
  if truthy_string m then m else "simple".

(** *** Templates *)

(** The body of the loop of [addTemplates]; [added] counts the groups
    pushed. *)
Definition addTemplate {host : Host} (st : Page * nat) (id : string) : Page * nat :=
  let '(page, added) := st in
  match TEMPLATES_get id with
  | None => st
  | Some template =>
      let gs := groups (currentConfig page) in
      if existsb (λ g, bool_decide (toLowerCase (name g)
                                    = toLowerCase (template_name template))) gs
      then st
      else
        let maxPriority := Math_max (priority <$> gs) in
        (set_groups (gs ++ [{| name := template_name template;
                               patterns := template_patterns template;
                               mode := mode_or_simple (template_mode template);
                               priority := maxPriority + 1 |}]) page,
         S added)
  end.

Definition addTemplates {host : Host} (templateIds : list string) (page : Page)
  : Page :=
  let '(page, added) := foldl addTemplate (page, 0%nat) templateIds in
  if (0 <? added)%nat then
    let page := Page_saveConfig page in
    showStatus ("Added " +:+ pretty added +:+ " group"
                +:+ (if (1 <? added)%nat then "s" else "")) "success" page
  else page.

(** *** Priorities *)

(** [[...groups].sort((a, b) => a.priority - b.priority)].  The sorted array
    holds the very objects of [groups]; an object is named here by its index
    in [groups], which it is paired with. *)
Definition sortedByPriority (gs : list Group) : list (nat * Group) :=
  Array_sort (λ a b : nat * Group, (priority a.2 - priority b.2)%Z)
             (imap (λ k g, (k, g)) gs).

(** [sorted.forEach((g, i) => g.priority = i)]: the assignment through
    [sorted] changes the group at the index the object has in [groups]. *)
Definition renumber (gs : list Group) : list Group :=
  foldl (λ gs' '(i, (k, _)), alter (set_priority (Z.of_nat i)) k gs')
        gs (imap (λ i kg, (i, kg)) (sortedByPriority gs)).

(** A row of the table of groups: which row it is, and its [data-name]. *)
Record Row := {
  row_index : nat;
  dataset_name : string
}.

(** [handleDrop], with [this] the row dropped on. *)
Definition handleDrop (draggedRow this : Row) (page : Page) : Page :=
  if bool_decide (row_index draggedRow = row_index this) then page
  else
    let gs := groups (currentConfig page) in
    match list_find (λ g, name g = dataset_name draggedRow) gs,
          list_find (λ g, name g = dataset_name this) gs with
    | Some (d, draggedGroup), Some (t, targetGroup) =>
        let temp := priority draggedGroup in
        let gs := alter (set_priority (priority targetGroup)) d gs in
        let gs := alter (set_priority temp) t gs in
        let gs := renumber gs in
        showStatus "Priority updated" "success"
                   (Page_saveConfig (set_groups gs page))
    | _, _ => page
    end.

(** [deleteGroup]; [confirmed] is the answer to the [confirm] dialog. *)
Definition deleteGroup (confirmed : bool) (groupName : string) (page : Page) : Page :=
  if negb confirmed then page
  else
    let gs := List.filter (λ g, negb (bool_decide (name g = groupName)))
                          (groups (currentConfig page)) in
    let page := set_groups gs page in
    let page :=
      if bool_decide (catchAllGroupName page = Some groupName)
      then set_catchAllGroupName None page else page in
    let page := set_groups (renumber (groups (currentConfig page))) page in
    showStatus "Group deleted" "success" (Page_saveConfig page).

(** *** The group dialog *)

(** [new RegExp(pattern)], without flags, as [saveModal] calls it: whether
    the constructor returns. *)
Class PageHost := {
  RegExp_compiles : string → bool
}.

(** The patterns read from the text area. *)
Definition parsePatterns (value : string) : list string :=
  List.filter (λ p, (0 <? String.length p)%nat) (trim <$> split_lines value).

Definition openAddModal (page : Page) : Page :=
  set_inputs "" "" "simple" (set_editingGroupIndex None page).


Definition closeModal (page : Page) : Page := set_editingGroupIndex None page.

(** The end of [saveModal], after the change of [currentConfig]. *)
Definition saveModal_finish (page : Page) : Page :=
  let page := Page_saveConfig page in
  let page := closeModal page in
  showStatus (match editingGroupIndex page with
              | Some _ => "Group updated"
              | None => "Group added"
              end) "success" page.

Definition saveModal {pageHost : PageHost} (page : Page) : Page :=
  let name' := trim (groupNameInput page) in
  let patterns' := parsePatterns (groupPatternsInput page) in
  let mode' := matchModeInput page in
  if negb (truthy_string name') then
    showStatus "Please enter a group name" "error" page
  else if bool_decide (length patterns' = 0%nat) then
    showStatus "Please enter at least one pattern" "error" page
  else
    match (if bool_decide (mode' = "regex")
           then List.find (λ pattern, negb (RegExp_compiles pattern)) patterns'
           else None) with
    | Some pattern => showStatus ("Invalid regex: " +:+ pattern) "error" page
    | None =>
        let gs := groups (currentConfig page) in
        match editingGroupIndex page with
        | Some i =>
            match gs !! i with
            | Some old =>
                let oldName := name old in
                let page :=
                  set_groups
                    (alter (λ g, {| name := name'; patterns := patterns';
                                    mode := mode'; priority := priority g |}) i gs)
                    page in
                let page :=
                  if bool_decide (catchAllGroupName page = Some oldName)
                  then set_catchAllGroupName (Some name') page else page in
                saveModal_finish page
            | None => page
            end
        | None =>
            if existsb (λ g, bool_decide (name g = name')) gs then
              showStatus "A group with this name already exists" "error" page
            else
              let maxPriority := Math_max (priority <$> gs) in
              saveModal_finish
                (set_groups (gs ++ [{| name := name'; patterns := patterns';
                                       mode := mode';
                                       priority := maxPriority + 1 |}]) page)
        end
    end.

(** The groups as the page holds them after its initial load:
    [{ ...g, mode: g.mode || 'simple' }]. *)
Definition loadGroups (gs : list Group) : list Group :=
  (λ g, {| name := name g; patterns := patterns g; priority := priority g;
           mode := mode_or_simple (mode g) |}) <$> gs.


(** ** Vocabulary of the properties of the page *)



(** The priorities of [gs] are the numbers from 0 to the number of groups
    less one, in some order: what [renumber] leaves. *)
Definition numbered (gs : list Group) : Prop :=
  priority <$> gs ≡ₚ Z.of_nat <$> seq 0 (length gs).

(** What the page never changes of a group when it renumbers. *)
Definition group_content (g : Group) : string * list string * string :=
  (name g, patterns g, mode g).

(** A group of the page has the name of the template [id], up to case, when
    there is such a template. *)
Definition covers {host : Host} (page : Page) (id : string) : Prop :=
  ∀ template, TEMPLATES_get id = Some template →
    existsb (λ g, bool_decide (toLowerCase (name g)
                               = toLowerCase (template_name template)))
            (groups (currentConfig page)) = true.

(** What the loop of [addTemplates] has done to the page [page0] after some
    identifiers: it has pushed groups, each made of a template, none under
    the name of a group of [page0] or of another pushed group, up to case,
    and has kept the list of groups valid. *)
Definition templates_added {host : Host} (ids : list string) (page0 : Page)
    (st : Page * nat) : Prop :=
  enabled (currentConfig st.1) = enabled (currentConfig page0) ∧
  catchAllWindowId (currentConfig st.1) = catchAllWindowId (currentConfig page0) ∧
  (∃ news,
     groups (currentConfig st.1) = groups (currentConfig page0) ++ news ∧
     Forall (λ g, ∃ id template,
                    id ∈ ids ∧ TEMPLATES_get id = Some template ∧
                    name g = template_name template ∧
                    patterns g = template_patterns template ∧
                    mode g = "simple") news ∧
     (∀ g g0, g ∈ news → g0 ∈ groups (currentConfig page0) →
              toLowerCase (name g0) ≠ toLowerCase (name g)) ∧
     NoDup ((λ g, toLowerCase (name g)) <$> news)) ∧
  (valid_groups (currentConfig page0) → valid_groups (currentConfig st.1)).


Definition page_of (config : Config) : Page :=
  {| currentConfig := config; catchAllGroupName := None;
     editingGroupIndex := None;
     groupNameInput := ""; groupPatternsInput := ""; matchModeInput := "simple";
     status := None; saved := [] |}.

(** A page whose only group has the name of the template [development] in
    lower case. *)
Definition lower_case_page : Page :=
  page_of (config_of [simple_group "development" ["dev.example"] 0]).

(** * Properties *)

Ltac by_cases_on_list H :=
  repeat (apply elem_of_cons in H as [H|H]); [..|by apply elem_of_nil in H].

(** ** Lists and strings *)

Lemma NoDup_fmap_elem_inj {A B} (f : A → B) (l : list A) x y :
  NoDup (f <$> l) → x ∈ l → y ∈ l → f x = f y → x = y.
Proof.
  induction l as [|a l IH]; intros Hnd Hx Hy Hf.
  - by apply elem_of_nil in Hx.
  - rewrite fmap_cons in Hnd. apply NoDup_cons in Hnd as [Ha Hnd].
    apply elem_of_cons in Hx as [->|Hx]; apply elem_of_cons in Hy as [->|Hy].
    + done.
    + exfalso. apply Ha. rewrite Hf. by apply list_elem_of_fmap_2.
    + exfalso. apply Ha. rewrite <- Hf. by apply list_elem_of_fmap_2.
    + by apply IH.
Qed.


Lemma head_filter_sorted {A} (R : A → A → Prop) (f : A → bool) l o :
  StronglySorted R l → head (List.filter f l) = Some o →
  o ∈ l ∧ f o = true ∧ ∀ x, x ∈ l → f x = true → o = x ∨ R o x.
Proof.
  induction 1 as [|a l Hl IH Ha]; simpl; [done|].
  destruct (f a) eqn:Hfa; simpl.
  - intros [= <-]. split; [by left|]. split; [done|].
    intros x Hx _. apply elem_of_cons in Hx as [->|Hx]; [by left|].
    right. by eapply Forall_forall in Ha.
  - intros Hhead. destruct (IH Hhead) as (Hin & Hfo & Hleast).
    split; [by right|]. split; [done|].
    intros x Hx Hfx. apply elem_of_cons in Hx as [->|Hx]; [congruence|].
    by apply Hleast.
Qed.

Lemma StronglySorted_weaken {A} (R R' : A → A → Prop) l :
  (∀ x y, R x y → R' x y) → StronglySorted R l → StronglySorted R' l.
Proof.
  intros HR. induction 1 as [|x l Hl IH Hx]; constructor; [done|].
  eapply Forall_impl; [exact Hx|]. intros y. apply HR.
Qed.

Lemma imap_id_on {A} (f : nat → A → A) (l : list A) :
  (∀ i x, x ∈ l → f i x = x) → imap f l = l.
Proof.
  revert f. induction l as [|a l IH]; intros f Hf; [done|].
  simpl. rewrite Hf by (by left). f_equal.
  apply IH. intros i x Hx. apply Hf. by right.
Qed.

Lemma startsWith_spec (s p : string) :
  startsWith s p = true ↔ ∃ b, s = p +:+ b.
Proof.
  revert s. induction p as [|c p IH]; intros s; simpl.
  - split; [|done]. intros _. by exists s.
  - destruct s as [|d s]; simpl.
    + split; [done|]. by intros [b Hb].
    + rewrite andb_true_iff, bool_decide_eq_true, IH. split.
      * intros [-> [b ->]]. by exists b.
      * intros [b [= -> ->]]. split; [done|]. by exists b.
Qed.

Lemma includes_spec (s p : string) :
  includes s p = true ↔ ∃ a b, s = a +:+ p +:+ b.
Proof.
  induction s as [|c s IH].
  - simpl. rewrite orb_false_r, startsWith_spec. split.
    + intros [b ->]. by exists "", b.
    + intros [a [b Hab]]. destruct a; simpl in Hab; [by exists b|done].
  - cbn [includes]. rewrite orb_true_iff, startsWith_spec, IH. split.
    + intros [[b ->]|[a [b ->]]].
      * by exists "", b.
      * by exists (String c a), b.
    + intros [a [b Hab]]. destruct a as [|d a]; simpl in Hab.
      * left. by exists b.
      * right. injection Hab as -> ->. by exists a, b.
Qed.

(** *** Array.prototype.sort *)

Section ArraySort.
Context {A : Type} (cmp : A → A → Z).

Lemma sort_insert_Permutation x l : sort_insert cmp x l ≡ₚ x :: l.
Proof.
  induction l as [|y l IH]; simpl; [done|].
  case_match; [done|]. by rewrite IH, Permutation_swap.
Qed.

Lemma Array_sort_Permutation l : Array_sort cmp l ≡ₚ l.
Proof.
  induction l as [|x l IH]; simpl; [done|].
  by rewrite sort_insert_Permutation, IH.
Qed.

Lemma Array_sort_length l : length (Array_sort cmp l) = length l.
Proof. by rewrite Array_sort_Permutation. Qed.

Hypothesis cmp_total : ∀ x y, precedes cmp x y ∨ precedes cmp y x.
Hypothesis cmp_trans : ∀ x y z, precedes cmp x y → precedes cmp y z → precedes cmp x z.

Lemma sort_insert_sorted x l :
  StronglySorted (precedes cmp) l → StronglySorted (precedes cmp) (sort_insert cmp x l).
Proof.
  induction 1 as [|y l Hl IH Hy]; simpl.
  - repeat constructor.
  - destruct (Z.leb_spec (cmp x y) 0) as [Hxy|Hxy].
    + constructor; [by constructor|].
      constructor; [done|].
      eapply Forall_impl; [exact Hy|]. intros z Hz. by eapply cmp_trans.
    + constructor; [done|].
      rewrite sort_insert_Permutation. constructor; [|done].
      destruct (cmp_total x y) as [H|H]; [unfold precedes in H; lia|done].
Qed.

Lemma Array_sort_sorted l : StronglySorted (precedes cmp) (Array_sort cmp l).
Proof.
  induction l as [|x l IH]; simpl; [constructor|]. by apply sort_insert_sorted.
Qed.

Lemma Array_sort_head_least l m :
  head (Array_sort cmp l) = Some m → m ∈ l ∧ ∀ x, x ∈ l → precedes cmp m x.
Proof.
  intros Hm. pose proof (Array_sort_sorted l) as Hs.
  pose proof (Array_sort_Permutation l) as Hp.
  destruct (Array_sort cmp l) as [|m' s]; [done|]. injection Hm as ->.
  split.
  - rewrite <- Hp. by left.
  - intros x Hx. rewrite <- Hp in Hx.
    apply StronglySorted_inv in Hs as [_ Hall].
    apply elem_of_cons in Hx as [->|Hx].
    + destruct (cmp_total m m); done.
    + by eapply Forall_forall in Hall.
Qed.

End ArraySort.

Lemma sort_insert_fmap {A B} (f : A → B) (cmp : A → A → Z) (cmp' : B → B → Z) x l :
  (∀ a b, cmp' (f a) (f b) = cmp a b) →
  sort_insert cmp' (f x) (f <$> l) = f <$> sort_insert cmp x l.
Proof.
  intros Hc. induction l as [|y l IH]; simpl; [done|].
  rewrite Hc. case_match; [done|]. rewrite fmap_cons. f_equal. exact IH.
Qed.

Lemma Array_sort_fmap {A B} (f : A → B) (cmp : A → A → Z) (cmp' : B → B → Z) l :
  (∀ a b, cmp' (f a) (f b) = cmp a b) →
  Array_sort cmp' (f <$> l) = f <$> Array_sort cmp l.
Proof.
  intros Hc. induction l as [|x l IH]; [done|].
  rewrite fmap_cons. cbn [Array_sort]. rewrite IH. by apply sort_insert_fmap.
Qed.

(** *** The sample host *)

Lemma codeunit_compare_total a b :
  (codeunit_compare a b ≤ 0 ∨ codeunit_compare b a ≤ 0)%Z.
Proof.
  revert b. induction a as [|c a IH]; intros [|d b]; simpl; try lia.
  destruct (Nat.ltb_spec (nat_of_ascii c) (nat_of_ascii d)); [lia|].
  destruct (Nat.ltb_spec (nat_of_ascii d) (nat_of_ascii c)); [lia|].
  apply IH.
Qed.

Lemma codeunit_compare_trans a b c :
  (codeunit_compare a b ≤ 0 → codeunit_compare b c ≤ 0 → codeunit_compare a c ≤ 0)%Z.
Proof.
  revert b c. induction a as [|x a IH]; intros [|y b] [|z c]; simpl; try lia.
  destruct (Nat.ltb_spec (nat_of_ascii x) (nat_of_ascii y));
    destruct (Nat.ltb_spec (nat_of_ascii y) (nat_of_ascii x));
    destruct (Nat.ltb_spec (nat_of_ascii y) (nat_of_ascii z));
    destruct (Nat.ltb_spec (nat_of_ascii z) (nat_of_ascii y));
    destruct (Nat.ltb_spec (nat_of_ascii x) (nat_of_ascii z));
    destruct (Nat.ltb_spec (nat_of_ascii z) (nat_of_ascii x));
    try lia.
  apply IH.
Qed.

(** ** The binding table *)

Lemma elem_of_Object_entries (bindings : gmap N string) k v :
  (k, v) ∈ Object_entries bindings ↔ bindings !! k = Some v.
Proof.
  unfold Object_entries. rewrite merge_sort_Permutation.
  apply elem_of_map_to_list.
Qed.


Lemma evict_fold_None windowId groupName l (bs : gmap N string) k :
  bs !! k = None → foldl (evict_step windowId groupName) bs l !! k = None.
Proof.
  revert bs. induction l as [|[wid gname] l IH]; intros bs Hk; simpl; [done|].
  apply IH. case_match; [|done].
  destruct (decide (wid = k)) as [->|Hne].
  - apply lookup_delete_eq.
  - by rewrite lookup_delete_ne.
Qed.

Lemma evict_fold_hit windowId groupName l (bs : gmap N string) k :
  (k, groupName) ∈ l → Some k ≠ windowId →
  foldl (evict_step windowId groupName) bs l !! k = None.
Proof.
  revert bs. induction l as [|[wid gname] l IH]; intros bs Hin Hne; simpl.
  - by apply elem_of_nil in Hin.
  - apply elem_of_cons in Hin as [Heq|Hin]; [|by apply IH].
    injection Heq as <- <-. apply evict_fold_None.
    rewrite bool_decide_eq_true_2 by done.
    rewrite bool_decide_eq_false_2 by done. simpl.
    apply lookup_delete_eq.
Qed.

Lemma evict_fold_miss windowId groupName l (bs : gmap N string) k :
  ((k, groupName) ∈ l → Some k = windowId) →
  foldl (evict_step windowId groupName) bs l !! k = bs !! k.
Proof.
  revert bs. induction l as [|[wid gname] l IH]; intros bs Hmiss; simpl; [done|].
  rewrite IH by (intros ?; apply Hmiss; by right).
  destruct (bool_decide (gname = groupName)) eqn:Hg; simpl; [|done].
  destruct (bool_decide (Some wid = windowId)) eqn:Hw; simpl; [done|].
  apply bool_decide_eq_true in Hg as ->.
  apply bool_decide_eq_false in Hw.
  destruct (decide (wid = k)) as [->|Hne].
  - exfalso. apply Hw, Hmiss. by left.
  - by rewrite lookup_delete_ne.
Qed.

Lemma evict_lookup_evicted windowId groupName (bindings : gmap N string) k :
  bindings !! k = Some groupName → Some k ≠ windowId →
  evict windowId groupName bindings !! k = None.
Proof.
  intros Hk Hne. unfold evict.
  apply evict_fold_hit; [|done]. by apply elem_of_Object_entries.
Qed.

Lemma evict_lookup_kept windowId groupName (bindings : gmap N string) k :
  bindings !! k ≠ Some groupName ∨ Some k = windowId →
  evict windowId groupName bindings !! k = bindings !! k.
Proof.
  intros Hk. unfold evict. apply evict_fold_miss.
  intros Hin%elem_of_Object_entries. by destruct Hk.
Qed.

(** C1. For every binding table, window [windowId] and group name
    [groupName]: after [bindWindow windowId groupName] the stored table maps
    [windowId] to [groupName], and no other window maps to [groupName]. *)
Theorem bindWindow_one_window_per_group (w : World) (windowId : N) (groupName : string) :
  let bindings := getWindowBindings (bindWindow windowId groupName w) in
  bindings !! windowId = Some groupName ∧
  ∀ other : N, other ≠ windowId → bindings !! other ≠ Some groupName.
Proof.
  simpl. unfold getWindowBindings, bindWindow; simpl. split.
  - apply lookup_insert_eq.
  - intros other Hne. rewrite lookup_insert_ne by done.
    destruct (decide (stored_windowBindings w !! other = Some groupName)) as [Hg|Hg].
    + rewrite evict_lookup_evicted; [done|done|congruence].
    + rewrite evict_lookup_kept; [done|by left].
Qed.

(** The older [bindWindow] does not evict: binding the window 200 to ["3003"]
    keeps the entry of the window 100. *)
Lemma Legacy_bindWindow_keeps_both :
  Object_entries
    (getWindowBindings (Legacy.bindWindow 200 "3003"
                          (world_of [] [] {[ 100 := "3003" ]})))
  = [(100, "3003"); (200, "3003")].
Proof. by vm_compute. Qed.

(** C10. A [bindWindowToGroup] request with a null or absent window unbinds the
    group: in the resulting table no window maps to [groupName], and the
    entries of every other group are exactly those of the table before. *)
Theorem bindWindowToGroup_null_unbinds_group (w : World) (groupName : string) :
  let before := getWindowBindings w in
  let after := getWindowBindings (bindWindowToGroup None groupName w) in
  (∀ wid : N, after !! wid ≠ Some groupName) ∧
  (∀ (wid : N) (g : string), g ≠ groupName →
     after !! wid = Some g ↔ before !! wid = Some g).
Proof.
  simpl. unfold getWindowBindings, bindWindowToGroup; simpl. split.
  - intros wid.
    destruct (decide (stored_windowBindings w !! wid = Some groupName)) as [Hg|Hg].
    + by rewrite evict_lookup_evicted.
    + rewrite evict_lookup_kept; [done|by left].
  - intros wid g Hne.
    destruct (decide (stored_windowBindings w !! wid = Some groupName)) as [Hg|Hg].
    + rewrite evict_lookup_evicted by done. rewrite Hg. split; [done|congruence].
    + rewrite evict_lookup_kept; [done|by left].
Qed.

(** *** findWindowForGroup *)

Lemma findWindowForGroup_loop_spec groupName entries (bindings : gmap N string) w :
  stored_windowBindings w = bindings →
  let r := findWindowForGroup_loop groupName entries bindings w in
  windows r.2 = windows w ∧ tabs r.2 = tabs w ∧ trace r.2 = trace w ∧
  (∀ k, stored_windowBindings r.2 !! k = bindings !! k ∨
        (stored_windowBindings r.2 !! k = None ∧ (k, groupName) ∈ entries
         ∧ windows_get k w = None)) ∧
  (∀ k, r.1 = Some k → (k, groupName) ∈ entries ∧ is_Some (windows_get k w)) ∧
  (r.1 = None → ∀ k, (k, groupName) ∈ entries →
                     windows_get k w = None ∧ stored_windowBindings r.2 !! k = None).
Proof.
  revert bindings w.
  induction entries as [|[wid g] entries IH]; intros bindings w Hst;
    cbn [findWindowForGroup_loop fst snd].
  - split_and!; try done.
    + intros k. left. by rewrite Hst.
    + intros _ k Hin. by apply elem_of_nil in Hin.
  - destruct (bool_decide (g = groupName)) eqn:Hg.
    + apply bool_decide_eq_true in Hg as ->.
      destruct (windows_get wid w) as [win|] eqn:Hwin; cbn [fst snd].
      * split_and!; try done.
        -- intros k. left. by rewrite Hst.
        -- intros k [= <-]. split; [by left|by rewrite Hwin].
      * match goal with
        | |- context [findWindowForGroup_loop _ _ ?b ?w'] =>
            specialize (IH b w' eq_refl)
        end.
        cbv zeta in IH. destruct IH as (Hw & Ht & Htr & Hk & Hsome & Hnone).
        split_and!; try done.
        -- intros k. destruct (Hk k) as [Heq|(Hn & Hin & Hex)].
           ++ destruct (decide (wid = k)) as [->|Hne].
              ** right. rewrite Heq, lookup_delete_eq.
                 split; [done|]. split; [by left|done].
              ** left. by rewrite Heq, lookup_delete_ne.
           ++ right. split; [done|]. split; [by right|done].
        -- intros k Hr. destruct (Hsome k Hr) as [Hin Hex]. split; [by right|done].
        -- intros Hr k Hin. apply elem_of_cons in Hin as [Heq|Hin].
           ++ injection Heq as ->. split; [done|].
              destruct (Hk wid) as [Heq|(Hn & _)]; [|done].
              by rewrite Heq, lookup_delete_eq.
           ++ by apply Hnone.
    + apply bool_decide_eq_false in Hg.
      specialize (IH bindings w Hst). simpl in IH.
      destruct IH as (Hw & Ht & Htr & Hk & Hsome & Hnone).
      split_and!; try done.
      * intros k. destruct (Hk k) as [Heq|(Hn & Hin & Hg')]; [by left|].
        right. split; [done|]. split; [by right|done].
      * intros k Hr. destruct (Hsome k Hr) as [Hin Hex]. split; [by right|done].
      * intros Hr k Hin. apply elem_of_cons in Hin as [Heq|Hin].
        -- injection Heq as -> ->. done.
        -- by apply Hnone.
Qed.

Lemma findWindowForGroup_spec groupName w :
  let r := findWindowForGroup groupName w in
  windows r.2 = windows w ∧ tabs r.2 = tabs w ∧ trace r.2 = trace w ∧
  (∀ k, stored_windowBindings r.2 !! k = stored_windowBindings w !! k ∨
        (stored_windowBindings r.2 !! k = None
         ∧ stored_windowBindings w !! k = Some groupName
         ∧ windows_get k w = None)) ∧
  (∀ k, r.1 = Some k →
        stored_windowBindings w !! k = Some groupName ∧ is_Some (windows_get k w)) ∧
  (r.1 = None → ∀ k, stored_windowBindings w !! k = Some groupName →
                     windows_get k w = None ∧ stored_windowBindings r.2 !! k = None).
Proof.
  unfold findWindowForGroup, getWindowBindings.
  pose proof (findWindowForGroup_loop_spec groupName
    (Object_entries (stored_windowBindings w)) (stored_windowBindings w) w eq_refl) as H.
  simpl in H. destruct H as (Hw & Ht & Htr & Hk & Hsome & Hnone). simpl.
  split; [done|]. split; [done|]. split; [done|]. split; [|split].
  - intros k. destruct (Hk k) as [?|(? & Hin%elem_of_Object_entries & ?)]; auto.
  - intros k Hr. destruct (Hsome k Hr) as [Hin%elem_of_Object_entries ?]. done.
  - intros Hr k Hin%elem_of_Object_entries. by apply Hnone.
Qed.

Lemma findWindowForGroup_frame groupName w target w' :
  findWindowForGroup groupName w = (target, w') →
  windows w' = windows w ∧ tabs w' = tabs w ∧ trace w' = trace w ∧
  (∀ k, stored_windowBindings w' !! k = stored_windowBindings w !! k ∨
        (stored_windowBindings w' !! k = None ∧ windows_get k w = None)).
Proof.
  intros E. destruct (findWindowForGroup_spec groupName w) as (Hw & Ht & Htr & Hk & _).
  rewrite E in *. simpl in *. split_and!; try done.
  intros k. destruct (Hk k) as [?|(? & _ & ?)]; auto.
Qed.

(** C6. When the table maps the window [stale] to [groupName] and no window
    that maps to [groupName] is live, [findWindowForGroup groupName] returns
    null and the stored table no longer has the stale entry (nor any entry for
    [groupName]); the entries of the other groups are untouched. *)
Theorem findWindowForGroup_removes_stale (w : World) (groupName : string) (stale : N) :
  getWindowBindings w !! stale = Some groupName →
  (∀ wid : N, getWindowBindings w !! wid = Some groupName → windows_get wid w = None) →
  let r := findWindowForGroup groupName w in
  r.1 = None ∧
  getWindowBindings r.2 !! stale = None ∧
  (∀ wid : N, getWindowBindings r.2 !! wid ≠ Some groupName) ∧
  (∀ (wid : N) (g : string), g ≠ groupName →
     getWindowBindings r.2 !! wid = Some g ↔ getWindowBindings w !! wid = Some g).
Proof.
  unfold getWindowBindings. intros Hstale Hall.
  destruct (findWindowForGroup_spec groupName w) as (_ & _ & _ & Hk & Hsome & Hnone).
  simpl.
  assert ((findWindowForGroup groupName w).1 = None) as Hr.
  { destruct (findWindowForGroup groupName w).1 as [k|] eqn:E; [|done].
    destruct (Hsome k eq_refl) as [Hb [win Hex]].
    rewrite (Hall k Hb) in Hex. done. }
  split; [done|]. split; [|split].
  - by apply (Hnone Hr stale).
  - intros wid Hg. destruct (Hk wid) as [Heq|(Hn & _)]; [|congruence].
    rewrite Heq in Hg. destruct (Hnone Hr wid Hg) as [_ Hn]. congruence.
  - intros wid g Hne. destruct (Hk wid) as [Heq|(Hn & Hg & _)].
    + by rewrite Heq.
    + rewrite Hn, Hg. split; [done|congruence].
Qed.

(** A table whose only entry names the window 999, which is not live. *)
Lemma findWindowForGroup_removes_stale_witness :
  (findWindowForGroup "3003" stale_world).1 = None ∧
  getWindowBindings (findWindowForGroup "3003" stale_world).2 !! 999 = None.
Proof.
  destruct (findWindowForGroup_removes_stale stale_world "3003" 999)
    as (Hnull & Hgone & _).
  - by vm_compute.
  - intros wid Hwid. unfold stale_world, getWindowBindings in Hwid. simpl in Hwid.
    apply lookup_singleton_Some in Hwid as [<- _]. by vm_compute.
  - done.
Defined.

(** ** Pattern matching *)

Section PatternProperties.
Context {host : Host}.

Lemma matchesPattern_falsy_text pattern isSimpleMode :
  matchesPattern None pattern isSimpleMode = false ∧
  matchesPattern (Some "") pattern isSimpleMode = false.
Proof. done. Qed.

Lemma matchesPattern_empty_pattern text isSimpleMode :
  matchesPattern text "" isSimpleMode = false.
Proof.
  destruct text as [s|]; [|done]. unfold matchesPattern.
  by rewrite orb_true_r.
Qed.

Lemma matchesPattern_invalid_regex text pattern :
  RegExp_i pattern = None →
  matchesPattern text pattern false = false.
Proof.
  intros Hbad. destruct text as [s|]; [|done]. unfold matchesPattern, matchesPattern_try.
  rewrite Hbad. by case_match.
Qed.

Lemma matchesPattern_simple text pattern :
  text ≠ "" → pattern ≠ "" →
  matchesPattern (Some text) pattern true = true ↔
  ∃ a b, toLowerCase text = a +:+ toLowerCase pattern +:+ b.
Proof.
  intros Ht Hp. unfold matchesPattern, matchesPattern_try, truthy_string.
  rewrite !bool_decide_eq_false_2 by done. simpl.
  apply includes_spec.
Qed.

(** C4. [matchesPattern] returns [false] for an absent or empty text, for an
    empty pattern and, in regex mode, for a pattern whose compilation throws
    (the [try] block throws, the function catches and returns [false]); in
    simple mode a non-empty text matches a non-empty pattern exactly when the
    lowercased pattern occurs inside the lowercased text. *)
Theorem matchesPattern_contract :
  (∀ pattern isSimpleMode,
     matchesPattern None pattern isSimpleMode = false ∧
     matchesPattern (Some "") pattern isSimpleMode = false) ∧
  (∀ text isSimpleMode,
     matchesPattern text "" isSimpleMode = false) ∧
  (∀ text pattern,
     RegExp_i pattern = None →
     (∀ s, ∃ e, matchesPattern_try s pattern false = Throw e) ∧
     matchesPattern text pattern false = false) ∧
  (∀ text pattern,
     text ≠ "" → pattern ≠ "" →
     matchesPattern (Some text) pattern true = true ↔
     ∃ a b, toLowerCase text = a +:+ toLowerCase pattern +:+ b).
Proof.
  split_and!.
  - apply matchesPattern_falsy_text.
  - apply matchesPattern_empty_pattern.
  - intros text pattern Hbad. split.
    + intros s. unfold matchesPattern_try. rewrite Hbad. eauto.
    + by apply matchesPattern_invalid_regex.
  - apply matchesPattern_simple.
Qed.

End PatternProperties.

(** On the sample host: a pattern that does not compile, and the title of the
    rebinding scenario against the pattern ["3003"]. *)
Lemma matchesPattern_contract_witness :
  @RegExp_i sample_host "(" = None ∧
  @matchesPattern sample_host (Some "http://localhost:3003/app") "(" false = false ∧
  @matchesPattern sample_host (Some "Feature branch - 3003") "3003" true = true.
Proof.
  destruct (@matchesPattern_contract sample_host) as (_ & _ & Hbad & Hsimple).
  split; [done|]. split.
  - by apply Hbad.
  - apply Hsimple; [done|done|]. by exists "feature branch - ", "".
Defined.

(** ** Group resolution *)

Section ResolverProperties.
Context {host : Host}.

Lemma getMatchInfo_group url title g m :
  getMatchInfo url title g = Some m → mi_group m = g.
Proof.
  unfold getMatchInfo. intros H.
  repeat case_match; by simplify_eq.
Qed.

Lemma matched_by_existsb text g :
  existsb (λ pattern, matchesPattern text pattern (isSimple g)) (patterns g) = true
  ↔ matched_by text g.
Proof.
  unfold matched_by. rewrite existsb_exists.
  split; intros (pattern & Hin & Hm); exists pattern; by rewrite list_elem_of_In in *.
Qed.

(** The kind of match [getMatchInfo] reports, read off the patterns: a title
    match when a pattern matches the title, a URL match when none does and a
    pattern matches the URL, and no match otherwise. *)
Lemma getMatchInfo_kind url title g :
  (matchType <$> getMatchInfo url title g = Some title_match ↔ matched_by title g) ∧
  (matchType <$> getMatchInfo url title g = Some url_match
   ↔ ¬ matched_by title g ∧ matched_by url g) ∧
  (getMatchInfo url title g = None ↔ ¬ matched_by title g ∧ ¬ matched_by url g).
Proof.
  rewrite <- !matched_by_existsb. unfold getMatchInfo.
  destruct (existsb (λ pattern, matchesPattern title pattern _) _);
    destruct (existsb (λ pattern, matchesPattern url pattern _) _);
    simpl; intuition congruence.
Qed.

Lemma getMatchInfo_with_priority f url title g :
  getMatchInfo url title (with_priority f g) = retag f <$> getMatchInfo url title g.
Proof.
  unfold getMatchInfo. simpl.
  change (isSimple (with_priority f g)) with (isSimple g).
  by repeat case_match.
Qed.

Lemma matches_with_priority f url title (gs : list Group) :
  omap (getMatchInfo url title) (with_priority f <$> gs) =
  retag f <$> omap (getMatchInfo url title) gs.
Proof.
  induction gs as [|g gs IH]; [done|].
  rewrite fmap_cons. cbn [omap list_omap].
  change (list_omap ?f ?l) with (omap f l).
  rewrite getMatchInfo_with_priority, IH.
  by destruct (getMatchInfo url title g).
Qed.

Lemma compareMatches_retag f a b :
  compareMatches (retag f a) (retag f b) = compareMatches a b.
Proof. done. Qed.

Lemma findMatchingGroup_ignores_priority f config url title :
  findMatchingGroup (reprioritise f config) url title =
  with_priority f <$> findMatchingGroup config url title.
Proof.
  unfold findMatchingGroup. simpl.
  destruct (enabled config); simpl; [|done].
  rewrite matches_with_priority, length_fmap.
  case_bool_decide; [done|].
  rewrite (Array_sort_fmap (retag f) compareMatches compareMatches)
    by apply compareMatches_retag.
  by destruct (Array_sort compareMatches _).
Qed.

Lemma findMatchingGroup_None config url title :
  findMatchingGroup config url title = None ↔
  enabled config = false ∨
  ∀ g, g ∈ groups config → getMatchInfo url title g = None.
Proof.
  unfold findMatchingGroup.
  destruct (enabled config); simpl; [|by split; [left|]].
  set (matches := omap _ _).
  assert (matches = [] ↔ ∀ g, g ∈ groups config → getMatchInfo url title g = None) as Hnil.
  { split.
    - intros Hm g Hg. destruct (getMatchInfo url title g) as [m|] eqn:E; [|done].
      assert (m ∈ matches) as Hin by (apply list_elem_of_omap; eauto).
      rewrite Hm in Hin. by apply elem_of_nil in Hin.
    - intros Hall. destruct matches as [|m ms] eqn:E; [done|].
      assert (m ∈ matches) as Hin by (rewrite E; left).
      apply list_elem_of_omap in Hin as (g & Hg & Hm).
      rewrite (Hall g Hg) in Hm. done. }
  case_bool_decide as Hlen.
  - split; [|done]. intros _. right. apply Hnil. by apply length_zero_iff_nil.
  - split.
    + intros Hhead. exfalso. apply Hlen.
      apply fmap_None, head_None in Hhead.
      by rewrite <- (Array_sort_length compareMatches), Hhead.
    + intros [?|Hall]; [done|]. exfalso. apply Hlen.
      apply Hnil in Hall. by rewrite Hall.
Qed.

Hypothesis localeCompare_total :
  ∀ a b, (localeCompare a b ≤ 0 ∨ localeCompare b a ≤ 0)%Z.
Hypothesis localeCompare_trans :
  ∀ a b c, (localeCompare a b ≤ 0 → localeCompare b c ≤ 0 → localeCompare a c ≤ 0)%Z.

Lemma compareMatches_total a b :
  precedes compareMatches a b ∨ precedes compareMatches b a.
Proof.
  unfold precedes, compareMatches.
  destruct (matchType a), (matchType b); try apply localeCompare_total; lia.
Qed.

Lemma compareMatches_trans a b c :
  precedes compareMatches a b → precedes compareMatches b c →
  precedes compareMatches a c.
Proof.
  unfold precedes, compareMatches.
  destruct (matchType a), (matchType b), (matchType c);
    try apply localeCompare_trans; lia.
Qed.

Lemma findMatchingGroup_top config url title g :
  findMatchingGroup config url title = Some g →
  g ∈ groups config ∧
  ∃ kind, matchType <$> getMatchInfo url title g = Some kind ∧
    ∀ g' kind', g' ∈ groups config →
      matchType <$> getMatchInfo url title g' = Some kind' →
      (kind' = title_match → kind = title_match) ∧
      (kind' = kind → (localeCompare (name g) (name g') ≤ 0)%Z).
Proof.
  unfold findMatchingGroup.
  destruct (enabled config); simpl; [|done].
  case_bool_decide; [done|].
  intros Hhead. apply fmap_Some in Hhead as (m & Hhead & ->).
  apply (Array_sort_head_least _ compareMatches_total compareMatches_trans)
    in Hhead as [Hin Hleast].
  apply list_elem_of_omap in Hin as (g & Hg & Hm).
  rewrite (getMatchInfo_group _ _ _ _ Hm).
  split; [done|]. exists (matchType m). split; [by rewrite Hm|].
  intros g' kind' Hg' Hk'.
  apply fmap_Some in Hk' as (m' & Hm' & ->).
  assert (precedes compareMatches m m') as Hle.
  { apply Hleast, list_elem_of_omap. eauto. }
  unfold precedes, compareMatches in Hle.
  rewrite (getMatchInfo_group _ _ _ _ Hm), (getMatchInfo_group _ _ _ _ Hm') in Hle.
  split.
  - intros Ht. rewrite Ht in Hle. destruct (matchType m); [done|lia].
  - intros Hk. rewrite Hk in Hle. by destruct (matchType m).
Qed.

End ResolverProperties.

Section ResolverOrder.
Context {host : Host}.

(** C3. For a collation that is a total preorder, [findMatchingGroup] returns
    null exactly when the configuration is disabled or no pattern of any
    group matches the title or the URL.  Otherwise it returns a group [g] of
    the configuration that matches by title or by URL, and that no group
    outranks: when some group matches by title, so does [g], and its name
    collates first among the groups that match by title; when no group
    matches by title, its name collates first among the groups that match by
    URL.  The result does not depend on the numeric priorities. *)
Theorem findMatchingGroup_title_priority (config : Config) (url title : option string) :
  (∀ a b, (localeCompare a b ≤ 0 ∨ localeCompare b a ≤ 0)%Z) →
  (∀ a b c, (localeCompare a b ≤ 0 → localeCompare b c ≤ 0 → localeCompare a c ≤ 0)%Z) →
  (findMatchingGroup config url title = None ↔
     enabled config = false ∨
     ∀ g, g ∈ groups config → ¬ matched_by title g ∧ ¬ matched_by url g) ∧
  (∀ g, findMatchingGroup config url title = Some g →
     enabled config = true ∧ g ∈ groups config ∧
     (matched_by title g ∨ matched_by url g) ∧
     ∀ g', g' ∈ groups config →
       (matched_by title g' →
        matched_by title g ∧ (localeCompare (name g) (name g') ≤ 0)%Z) ∧
       (matched_by url g' →
        matched_by title g ∨ (localeCompare (name g) (name g') ≤ 0)%Z)) ∧
  (∀ f : Group → Z,
     findMatchingGroup (reprioritise f config) url title =
     with_priority f <$> findMatchingGroup config url title).
Proof.
  intros Htotal Htrans. split_and!.
  - rewrite findMatchingGroup_None. split; (intros [?|Hall]; [by left|right]);
      intros g Hg; by apply (getMatchInfo_kind url title g), Hall.
  - intros g Hsome.
    assert (enabled config = true) as Hon.
    { unfold findMatchingGroup in Hsome. by destruct (enabled config). }
    destruct (findMatchingGroup_top Htotal Htrans config url title g Hsome)
      as (Hg & kind & Hkind & Hleast).
    destruct (getMatchInfo_kind url title g) as (Ht & Hu & _).
    split; [done|]. split; [done|]. split.
    { destruct kind; [left; by apply Ht|right; by apply Hu]. }
    intros g' Hg'.
    destruct (getMatchInfo_kind url title g') as (Ht' & Hu' & _).
    split.
    + intros Hm'. apply Ht' in Hm'.
      destruct (Hleast g' title_match Hg' Hm') as [Hup Hname].
      rewrite (Hup eq_refl) in *. split; [by apply Ht|by apply Hname].
    + intros Hm'. destruct kind; [left; by apply Ht|right].
      destruct (matchType <$> getMatchInfo url title g') as [[]|] eqn:Hk'.
      * by destruct (Hleast g' title_match Hg' Hk') as [Hup _]; specialize (Hup eq_refl).
      * by destruct (Hleast g' url_match Hg' Hk') as [_ Hname]; apply Hname.
      * exfalso. apply fmap_None in Hk'.
        apply (getMatchInfo_kind url title g') in Hk' as [_ Hno]. done.
  - intros f. apply findMatchingGroup_ignores_priority.
Qed.

End ResolverOrder.

(** On the sample host, whose collation is a total preorder: the group ["A"]
    matches the URL only and the group ["B"] matches the title, so that
    ["B"] is returned, though ["A"] collates first and has the lower priority
    number. *)
Lemma findMatchingGroup_title_priority_witness :
  (name <$> @findMatchingGroup sample_host title_first_config
              (tab_url tab_in_A) (tab_title tab_in_A)) = Some "B" ∧
  @matched_by sample_host (tab_title tab_in_A) group_by_title ∧
  @matched_by sample_host (tab_url tab_in_A) group_by_url ∧
  ¬ @matched_by sample_host (tab_title tab_in_A) group_by_url ∧
  (@localeCompare sample_host "A" "B" ≤ 0)%Z.
Proof.
  split; [by vm_compute|].
  destruct (@findMatchingGroup_title_priority sample_host title_first_config
              (tab_url tab_in_A) (tab_title tab_in_A)
              codeunit_compare_total codeunit_compare_trans) as (_ & Htop & _).
  destruct (Htop group_by_title) as (_ & _ & _ & Hleast); [by vm_compute|].
  assert (@matched_by sample_host (tab_url tab_in_A) group_by_url) as Hurl.
  { exists "example". split; [by left|by vm_compute]. }
  destruct (Hleast group_by_url) as [_ [Htitle|Hname]%(λ H, H Hurl)];
    [compute_done| |by vm_compute in Hname].
  split; [done|]. split; [done|]. split; [|by vm_compute].
  intros (pattern & Hin & Hm). by_cases_on_list Hin. subst pattern.
  by vm_compute in Hm.
Defined.

(** ** The batch sorter *)

(** *** The browser interface *)

Lemma windows_get_ext k w w' :
  windows w' = windows w → windows_get k w' = windows_get k w.
Proof. unfold windows_get. by intros ->. Qed.

Lemma tabs_get_ext k w w' :
  tabs w' = tabs w → tabs_get k w' = tabs_get k w.
Proof. unfold tabs_get. by intros ->. Qed.

Lemma windows_getAll_ext w w' :
  windows w' = windows w → tabs w' = tabs w → windows_getAll w' = windows_getAll w.
Proof. unfold windows_getAll. by intros -> ->. Qed.

Lemma windows_get_live window w :
  window ∈ windows w → is_Some (windows_get (win_id window) w).
Proof.
  unfold windows_get. intros Hin%list_elem_of_In.
  destruct (List.find _ _) as [x|] eqn:E; [by eexists|].
  eapply find_none in E; [|done]. by rewrite bool_decide_eq_true_2 in E.
Qed.

Lemma tabs_get_id k w t : tabs_get k w = Some t → tab_id t = k ∧ t ∈ tabs w.
Proof.
  unfold tabs_get. intros [Hin Hk]%find_some.
  apply bool_decide_eq_true in Hk. by rewrite list_elem_of_In.
Qed.

Lemma windows_getAll_elem w window wtabs tab :
  (window, wtabs) ∈ windows_getAll w → tab ∈ wtabs →
  window ∈ windows w ∧ tab ∈ tabs w ∧ tab_windowId tab = win_id window.
Proof.
  unfold windows_getAll. intros (win & [= -> ->] & Hwin)%list_elem_of_fmap Htab.
  apply list_elem_of_filter in Htab as [Hid Htab]. done.
Qed.

(** *** The trace of a pass *)

Section SortTrace.
Context {host : Host}.





Lemma sortedGroups_Permutation config : sortedGroups config ≡ₚ groups config.
Proof. apply Array_sort_Permutation. Qed.

Lemma sortedGroups_ascending config :
  StronglySorted (λ a b, (priority a ≤ priority b)%Z) (sortedGroups config).
Proof.
  unfold sortedGroups.
  eapply StronglySorted_weaken; [|apply Array_sort_sorted].
  - unfold precedes. intros a b. lia.
  - unfold precedes. intros a b. lia.
  - unfold precedes. intros a b c. lia.
Qed.


End SortTrace.


Section SortInvariants.
Context {host : Host}.

(** *** Candidates *)

Lemma find_by_name (gs : list Group) g :
  NoDup (name <$> gs) → g ∈ gs →
  List.find (λ g', bool_decide (name g' = name g)) gs = Some g.
Proof.
  intros Hnd Hg.
  destruct (List.find _ gs) as [g'|] eqn:E.
  - apply find_some in E as [Hin Hname].
    apply bool_decide_eq_true in Hname. apply list_elem_of_In in Hin.
    f_equal. by eapply NoDup_fmap_elem_inj.
  - eapply find_none in E; [|by apply list_elem_of_In].
    by rewrite bool_decide_eq_true_2 in E.
Qed.

Lemma isCandidate_ext config g (b b' : gmap N string) window tab :
  b !! win_id window = b' !! win_id window →
  isCandidate config g b window tab = isCandidate config g b' window tab.
Proof. unfold isCandidate. by intros ->. Qed.

Lemma collectTabsToMove_elem config g w (b : gmap N string) tab k :
  (tab, k) ∈ collectTabsToMove config g (windows_getAll w) b →
  ∃ window wtabs, (window, wtabs) ∈ windows_getAll w ∧ tab ∈ wtabs ∧
    k = win_id window ∧ win_type window = normal ∧
    isCandidate config g b window tab = true.
Proof.
  unfold collectTabsToMove. intros Hin%list_elem_of_In.
  apply in_flat_map in Hin as ([window wtabs] & Hwin & Hin).
  apply list_elem_of_In in Hwin. exists window, wtabs.
  case_bool_decide as Hty; [|by apply list_elem_of_In, elem_of_nil in Hin].
  apply list_elem_of_In, list_elem_of_fmap in Hin as (tab' & [= -> ->] & Hin).
  apply list_elem_of_In, filter_In in Hin as [Hin Hc].
  by rewrite <- list_elem_of_In in Hin.
Qed.

Lemma collectTabsToMove_nil config g wins (b : gmap N string) :
  (∀ window wtabs tab, (window, wtabs) ∈ wins → tab ∈ wtabs →
     win_type window = normal → isCandidate config g b window tab = false) →
  collectTabsToMove config g wins b = [].
Proof.
  unfold collectTabsToMove. induction wins as [|[window wtabs] wins IH]; intros Hno; [done|].
  cbn [flat_map]. rewrite IH by (intros; eapply Hno; eauto; by right).
  rewrite app_nil_r. case_bool_decide as Hty; [|done].
  assert (List.filter (isCandidate config g b window) wtabs = []) as ->; [|done].
  assert (∀ tab, tab ∈ wtabs → isCandidate config g b window tab = false) as Hw.
  { intros tab Htab. eapply Hno; eauto. by left. }
  clear -Hw. induction wtabs as [|t ts IH]; [done|]. simpl.
  rewrite Hw by (by left). apply IH. intros. apply Hw. by right.
Qed.

Lemma collectTabsToMove_ext config g w (b b' : gmap N string) :
  (∀ window, window ∈ windows w → b !! win_id window = b' !! win_id window) →
  collectTabsToMove config g (windows_getAll w) b =
  collectTabsToMove config g (windows_getAll w) b'.
Proof.
  intros Hb. unfold collectTabsToMove, windows_getAll.
  induction (windows w) as [|window wins IH]; [done|].
  rewrite fmap_cons. cbn [flat_map].
  rewrite IH by (intros; apply Hb; by right). f_equal.
  case_bool_decide; [|done]. f_equal.
  apply filter_ext. intros tab. apply isCandidate_ext, Hb. by left.
Qed.

Lemma not_matching_not_candidate config g (b : gmap N string) window tab :
  tabMatchesGroup (tab_url tab) (tab_title tab) g = false →
  isCandidate config g b window tab = false.
Proof. unfold isCandidate. intros ->. by destruct (isInternalUrl _). Qed.

Lemma bound_not_candidate config g (b : gmap N string) window tab :
  b !! win_id window = Some (name g) →
  isCandidate config g b window tab = false.
Proof.
  unfold isCandidate. intros ->. rewrite bool_decide_eq_true_2 by done.
  by repeat case_match.
Qed.

(** A tab in a window bound to a group that outranks [g] is no candidate
    of [g]. *)
Lemma owned_not_candidate config g owner (b : gmap N string) window tab :
  NoDup (name <$> groups config) → owner ∈ groups config → name owner ≠ "" →
  b !! win_id window = Some (name owner) →
  (tabMatchesGroup (tab_url tab) (tab_title tab) g = true →
   g = owner ∨ (priority owner < priority g)%Z) →
  isCandidate config g b window tab = false.
Proof.
  intros Hnd Howner Hname Hb Hrank. unfold isCandidate.
  destruct (isInternalUrl _); [done|].
  destruct (tabMatchesGroup _ _ g) eqn:Hm; [|done]. simpl.
  rewrite Hb. case_bool_decide as Hn; [done|].
  unfold truthy_string. rewrite bool_decide_eq_false_2 by done. simpl.
  rewrite find_by_name by done.
  destruct (Hrank eq_refl) as [->|Hlt]; [done|].
  apply negb_false_iff, Z.ltb_lt. done.
Qed.

(** *** A pass that moves nothing *)

Lemma quiet_from_refl w0 st : quiet_from w0 (set_world w0 st) (set_world w0 st).
Proof.
  unfold quiet_from. simpl. split_and!; try done; [by left|].
  exists []. by rewrite app_nil_r.
Qed.

Lemma quiet_from_live w0 st0 st window :
  quiet_from w0 st0 st → window ∈ windows w0 →
  stored_windowBindings (st_world st) !! win_id window
  = stored_windowBindings w0 !! win_id window.
Proof.
  intros (_ & _ & Hb & _) Hwin.
  destruct (Hb (win_id window)) as [?|[_ Hdead]]; [done|].
  apply windows_get_live in Hwin as [? Hlive]. congruence.
Qed.

Lemma quiet_from_emit w0 st0 st es :
  quiet_from w0 st0 st → moved_tabs es = [] →
  quiet_from w0 st0 (set_world (emit es (st_world st)) st).
Proof.
  intros (Hw & Ht & Hb & Hm & He & es0 & Htr & Hes0) Hes.
  unfold quiet_from. simpl. split_and!; try done.
  exists (es0 ++ es). rewrite Htr, <- app_assoc. split; [done|].
  unfold moved_tabs in *. by rewrite omap_app, Hes0, Hes.
Qed.

Lemma quiet_from_findWindowForGroup w0 st0 st groupName target w1 :
  quiet_from w0 st0 st →
  findWindowForGroup groupName (st_world st) = (target, w1) →
  quiet_from w0 st0 (set_world w1 st).
Proof.
  intros (Hw & Ht & Hb & Hm & He & es & Htr & Hes) E.
  apply findWindowForGroup_frame in E as (Hw1 & Ht1 & Htr1 & Hb1).
  unfold quiet_from. simpl. split_and!; try congruence.
  - intros k. destruct (Hb1 k) as [Heq|[Hn Hdead]].
    + rewrite Heq. apply Hb.
    + right. split; [done|]. rewrite <- Hdead. symmetry. by apply windows_get_ext.
  - exists es. by rewrite Htr1.
Qed.

Lemma processGroup_quiet config w0 st0 st g :
  quiet_from w0 st0 st →
  collectTabsToMove config g (windows_getAll w0) (stored_windowBindings w0) = [] →
  quiet_from w0 st0 (processGroup config st g).
Proof.
  intros Hq Hnil. pose proof Hq as (Hw & Ht & _).
  unfold processGroup.
  destruct (findWindowForGroup _ _) as [target w1] eqn:E.
  rewrite (windows_getAll_ext w0) by (simpl; congruence).
  unfold getWindowBindings. simpl.
  rewrite (collectTabsToMove_ext _ _ _ _ (stored_windowBindings w0))
    by (intros; by eapply quiet_from_live).
  rewrite Hnil. simpl.
  apply (quiet_from_emit w0 st0 _ [Processing (name g)]) in Hq; [|done].
  apply (quiet_from_findWindowForGroup _ _ _ _ _ _ Hq) in E.
  by apply (quiet_from_emit w0 st0 _ []) in E.
Qed.

(** The move loop of a group that no window is bound to. *)
Lemma moveCandidate_unbound w0 st0 st g item :
  quiet_from w0 st0 st →
  (∀ k, stored_windowBindings w0 !! k ≠ Some (name g)) →
  quiet_from w0 st0 (moveCandidate g st item).
Proof.
  intros Hq Hunbound. unfold moveCandidate.
  destruct (findWindowForGroup _ _) as [target w1] eqn:E.
  apply (quiet_from_emit w0 st0 _ [Attempt (name g) (tab_id item.1)]) in Hq; [|done].
  assert (target = None) as ->.
  { destruct target as [k|]; [|done]. exfalso.
    destruct (findWindowForGroup_spec (name g)
                (emit [Attempt (name g) (tab_id item.1)] (st_world st)))
      as (_ & _ & _ & _ & Hsome & _).
    rewrite E in Hsome. destruct (Hsome k eq_refl) as [Hk _]. simpl in Hk.
    destruct Hq as (_ & _ & Hb & _). simpl in Hb.
    destruct (Hb k) as [Heq|[Hn _]]; [|congruence].
    rewrite Hk in Heq. by eapply Hunbound. }
  apply (quiet_from_findWindowForGroup _ _ _ _ _ _ Hq) in E.
  by destruct (tabs_get _ w1).
Qed.

Lemma moveCandidates_unbound w0 st0 g items st :
  quiet_from w0 st0 st →
  (∀ k, stored_windowBindings w0 !! k ≠ Some (name g)) →
  quiet_from w0 st0 (foldl (moveCandidate g) st items).
Proof.
  intros Hq Hunbound. revert st Hq.
  induction items as [|item items IH]; intros st Hq; simpl; [done|].
  apply IH. by apply moveCandidate_unbound.
Qed.

Lemma moved_tabs_candidates groupName (items : list (Tab * N)) :
  moved_tabs ((λ item : Tab * N, Candidate groupName (tab_id item.1)) <$> items) = [].
Proof.
  unfold moved_tabs. induction items as [|item items IH]; [done|].
  rewrite fmap_cons. cbn [omap list_omap]. exact IH.
Qed.

Lemma processGroup_unbound config w0 st0 st g :
  quiet_from w0 st0 st →
  (∀ k, stored_windowBindings w0 !! k ≠ Some (name g)) →
  quiet_from w0 st0 (processGroup config st g).
Proof.
  intros Hq Hunbound. unfold processGroup.
  destruct (findWindowForGroup _ _) as [target w1] eqn:E.
  set (items := collectTabsToMove _ _ _ _).
  apply (quiet_from_emit w0 st0 _ [Processing (name g)]) in Hq; [|done].
  apply (quiet_from_findWindowForGroup _ _ _ _ _ _ Hq) in E.
  apply (quiet_from_emit w0 st0 _
           ((λ item : Tab * N, Candidate (name g) (tab_id item.1)) <$> items)) in E;
    [|apply moved_tabs_candidates].
  by apply moveCandidates_unbound.
Qed.

Lemma processGroups_quiet config w0 st0 gs st :
  quiet_from w0 st0 st →
  (∀ g, g ∈ gs →
     collectTabsToMove config g (windows_getAll w0) (stored_windowBindings w0) = []
     ∨ ∀ k, stored_windowBindings w0 !! k ≠ Some (name g)) →
  quiet_from w0 st0 (foldl (processGroup config) st gs).
Proof.
  revert st. induction gs as [|g gs IH]; intros st Hq Hnil; simpl; [done|].
  apply IH.
  - destruct (Hnil g) as [Hg|Hg]; [by left| |].
    + by apply processGroup_quiet.
    + by apply processGroup_unbound.
  - intros g' Hg'. apply Hnil. by right.
Qed.

(** A pass in which every group either has no candidate or has no window
    moves nothing. *)
Lemma sortAllTabs_quiet config w :
  (∀ g, g ∈ groups config →
     (∀ window wtabs tab,
        (window, wtabs) ∈ windows_getAll w → tab ∈ wtabs →
        win_type window = normal →
        isCandidate config g (getWindowBindings w) window tab = false)
     ∨ (∀ k, getWindowBindings w !! k ≠ Some (name g))) →
  let st := sortAllTabs config w in
  movedCount st = 0%nat ∧ st_errors st = [] ∧ tabs (st_world st) = tabs w ∧
  ∃ es, trace (st_world st) = trace w ++ es ∧ moved_tabs es = [].
Proof.
  intros Hno. simpl.
  assert (quiet_from w {| st_world := w; movedCount := 0; st_errors := [] |}
                     (sortAllTabs config w)) as (_ & Ht & _ & Hm & He & Htr).
  { unfold sortAllTabs. case_match.
    - apply (quiet_from_refl w {| st_world := w; movedCount := 0; st_errors := [] |}).
    - apply processGroups_quiet.
      + apply (quiet_from_refl w {| st_world := w; movedCount := 0; st_errors := [] |}).
      + intros g Hg. rewrite (sortedGroups_Permutation config) in Hg.
        destruct (Hno g Hg) as [Hg'|Hg']; [left|by right].
        apply collectTabsToMove_nil.
        intros window wtabs tab Hwin Htab Hty. by eapply Hg'. }
  done.
Qed.

(** *** Growth of the trace *)

Lemma extends_with_refl P w : extends_with P w w.
Proof. exists []. by rewrite app_nil_r. Qed.

Lemma extends_with_trans P w1 w2 w3 :
  extends_with P w1 w2 → extends_with P w2 w3 → extends_with P w1 w3.
Proof.
  intros (es1 & H1 & N1) (es2 & H2 & N2). exists (es1 ++ es2).
  rewrite H2, H1, <- app_assoc. split; [done|]. by apply Forall_app.
Qed.

Lemma extends_with_emit P w w' es :
  trace w' = trace w ++ es → Forall P es → extends_with P w w'.
Proof. intros. by exists es. Qed.

Lemma Forall_candidates P groupName (items : list (Tab * N)) :
  (∀ t, P (Candidate groupName t)) →
  Forall P ((λ item : Tab * N, Candidate groupName (tab_id item.1)) <$> items).
Proof. intros HP. apply Forall_fmap, Forall_forall. intros item _. apply HP. Qed.

(** *** A tab that stays *)

Lemma keeps_tab_frame w0 T gname w w' :
  keeps_tab w0 T gname w →
  windows w' = windows w → tabs w' = tabs w →
  stored_windowBindings w' !! tab_windowId T
  = stored_windowBindings w !! tab_windowId T →
  keeps_tab w0 T gname w'.
Proof.
  intros (Hw & Hin & Huniq & Hb) Hw' Ht' Hb'. unfold keeps_tab.
  rewrite Hw', Ht', Hb'. done.
Qed.

Lemma keeps_tab_findWindowForGroup w0 T gname groupName w target w' :
  keeps_tab w0 T gname w → is_Some (windows_get (tab_windowId T) w0) →
  findWindowForGroup groupName w = (target, w') →
  keeps_tab w0 T gname w' ∧ trace w' = trace w.
Proof.
  intros Hk Hlive E.
  apply findWindowForGroup_frame in E as (Hw1 & Ht1 & Htr1 & Hb1).
  split; [|done]. eapply keeps_tab_frame; eauto.
  destruct (Hb1 (tab_windowId T)) as [?|[_ Hdead]]; [done|].
  destruct Hk as (Hw & _). rewrite (windows_get_ext _ w0) in Hdead by done.
  destruct Hlive as [? Hlive]. congruence.
Qed.

Lemma keeps_tab_move w0 T gname w tid target w' :
  keeps_tab w0 T gname w → tid ≠ tab_id T →
  tabs_move tid target w = Normal w' →
  keeps_tab w0 T gname w' ∧ trace w' = trace w.
Proof.
  intros (Hw & Hin & Huniq & Hb) Hne. unfold tabs_move.
  destruct (tabs_get tid w) as [t|] eqn:Hget; [|done].
  destruct (windows_get target w); [|done]. intros [= <-].
  apply tabs_get_id in Hget as [Hid Ht].
  split; [|done]. unfold keeps_tab. simpl. split_and!; try done.
  - apply elem_of_app. left. apply list_elem_of_filter. split; [congruence|done].
  - intros t' Ht' Hid'. apply elem_of_app in Ht' as [Ht'|Ht'].
    + apply list_elem_of_filter in Ht' as [_ Ht']. by apply Huniq.
    + apply list_elem_of_singleton in Ht' as ->. simpl in Hid'. congruence.
Qed.

Lemma moveCandidate_keeps w0 T gname group st item :
  keeps_tab w0 T gname (st_world st) →
  is_Some (windows_get (tab_windowId T) w0) →
  tab_id item.1 ≠ tab_id T →
  keeps_tab w0 T gname (st_world (moveCandidate group st item)) ∧
  extends_with (not_move_of (tab_id T))
               (st_world st) (st_world (moveCandidate group st item)).
Proof.
  intros Hk Hlive Hne. unfold moveCandidate.
  destruct (findWindowForGroup _ _) as [target w1] eqn:E.
  assert (keeps_tab w0 T gname (emit [Attempt (name group) (tab_id item.1)] (st_world st)))
    as Hk0 by (by eapply keeps_tab_frame).
  destruct (keeps_tab_findWindowForGroup _ _ _ _ _ _ _ Hk0 Hlive E) as [Hk1 Htr1].
  simpl in Htr1.
  assert (extends_with (not_move_of (tab_id T)) (st_world st) w1) as Hext1.
  { eapply extends_with_emit; [exact Htr1|]. by repeat constructor. }
  destruct (tabs_get _ w1) as [currentTab|]; [|done].
  destruct target as [target|]; [|done].
  case_match; [|done].
  destruct (tabs_move _ _ w1) as [w2|msg] eqn:Hmove; [|done].
  destruct (keeps_tab_move _ _ _ _ _ _ _ Hk1 Hne Hmove) as [Hk2 Htr2].
  simpl. split.
  - by eapply keeps_tab_frame.
  - eapply extends_with_emit.
    + simpl. rewrite Htr2, Htr1, <- app_assoc. done.
    + by repeat constructor.
Qed.

Lemma moveCandidates_keep w0 T gname group items st :
  keeps_tab w0 T gname (st_world st) →
  is_Some (windows_get (tab_windowId T) w0) →
  Forall (λ item : Tab * N, tab_id item.1 ≠ tab_id T) items →
  keeps_tab w0 T gname (st_world (foldl (moveCandidate group) st items)) ∧
  extends_with (not_move_of (tab_id T)) (st_world st)
               (st_world (foldl (moveCandidate group) st items)).
Proof.
  intros Hk Hlive Hall. revert st Hk.
  induction Hall as [|item items Hne Hall IH]; intros st Hk; simpl.
  - split; [done|apply extends_with_refl].
  - destruct (moveCandidate_keeps _ _ _ group st item Hk Hlive Hne) as [Hk1 He1].
    destruct (IH _ Hk1) as [Hk2 He2]. split; [done|].
    by eapply extends_with_trans.
Qed.

Lemma processGroup_keeps config w0 T gname st g :
  keeps_tab w0 T gname (st_world st) →
  is_Some (windows_get (tab_windowId T) w0) →
  (∀ (b : gmap N string) window,
     b !! win_id window = Some gname → win_id window = tab_windowId T →
     isCandidate config g b window T = false) →
  keeps_tab w0 T gname (st_world (processGroup config st g)) ∧
  extends_with (not_move_of (tab_id T))
               (st_world st) (st_world (processGroup config st g)).
Proof.
  intros Hk Hlive Hown. unfold processGroup.
  destruct (findWindowForGroup _ _) as [target w1] eqn:E.
  set (w' := emit [Processing (name g)] (st_world st)) in *.
  assert (keeps_tab w0 T gname w') as Hk0 by (by eapply keeps_tab_frame).
  destruct (keeps_tab_findWindowForGroup _ _ _ _ _ _ _ Hk0 Hlive E) as [Hk1 Htr1].
  set (items := collectTabsToMove _ _ _ _).
  assert (Forall (λ item : Tab * N, tab_id item.1 ≠ tab_id T) items) as Hitems.
  { apply Forall_forall. intros [tab k] Hin Hid. simpl in Hid.
    apply collectTabsToMove_elem in Hin as (window & wtabs & Hwin & Htab & _ & _ & Hc).
    apply (windows_getAll_elem _ _ _ _ Hwin) in Htab as (_ & Htab & Hwid).
    destruct Hk0 as (_ & _ & Huniq & Hb).
    apply Huniq in Htab as ->; [|done].
    rewrite Hown in Hc; [done| |done]. unfold getWindowBindings. by rewrite <- Hwid. }
  match goal with |- context [foldl _ ?s items] =>
    destruct (moveCandidates_keep w0 T gname g items s) as [Hk2 He2] end.
  { simpl. by eapply keeps_tab_frame. }
  { done. }
  { done. }
  split; [done|].
  eapply extends_with_trans; [|exact He2]. simpl.
  eapply (extends_with_emit _ _ _
            (Processing (name g)
             :: ((λ item : Tab * N, Candidate (name g) (tab_id item.1)) <$> items))).
  - simpl. rewrite Htr1. unfold w'. simpl. by rewrite <- app_assoc.
  - constructor; [done|]. by apply Forall_candidates.
Qed.

Lemma processGroups_keep config w0 T gname gs st :
  keeps_tab w0 T gname (st_world st) →
  is_Some (windows_get (tab_windowId T) w0) →
  (∀ g (b : gmap N string) window, g ∈ gs →
     b !! win_id window = Some gname → win_id window = tab_windowId T →
     isCandidate config g b window T = false) →
  keeps_tab w0 T gname (st_world (foldl (processGroup config) st gs)) ∧
  extends_with (not_move_of (tab_id T)) (st_world st)
               (st_world (foldl (processGroup config) st gs)).
Proof.
  intros Hk Hlive. revert st Hk.
  induction gs as [|g gs IH]; intros st Hk Hown; simpl.
  - split; [done|apply extends_with_refl].
  - destruct (processGroup_keeps config w0 T gname st g Hk Hlive) as [Hk1 He1].
    { intros. eapply Hown; eauto. by left. }
    destruct (IH _ Hk1) as [Hk2 He2].
    { intros. eapply Hown; eauto. by right. }
    split; [done|]. by eapply extends_with_trans.
Qed.

(** *** A tab that only moves up *)

(** A candidate of [g] found in a window bound to [owner] does not rank below
    [owner]. *)
Lemma candidate_outranks config g owner (b : gmap N string) window tab :
  NoDup (name <$> groups config) → owner ∈ groups config → name owner ≠ "" →
  b !! win_id window = Some (name owner) →
  isCandidate config g b window tab = true →
  (priority g ≤ priority owner)%Z.
Proof.
  intros Hnd Howner Hname Hb. unfold isCandidate.
  destruct (isInternalUrl _); [done|].
  destruct (negb _); [done|].
  rewrite Hb. case_bool_decide; [done|].
  unfold truthy_string. rewrite bool_decide_eq_false_2 by done. simpl.
  rewrite find_by_name by done.
  intros Hc%negb_true_iff%Z.ltb_ge. done.
Qed.

Lemma owned_within_frame config w0 tid p w w' :
  owned_within config w0 tid p w →
  windows w' = windows w → tabs w' = tabs w →
  (∀ k, is_Some (windows_get k w0) →
        stored_windowBindings w' !! k = stored_windowBindings w !! k) →
  owned_within config w0 tid p w'.
Proof.
  intros (Hw & T & owner & HT & Hid & Huniq & Hlive & Howner & Hb & Hp) Hw' Ht' Hb'.
  split; [congruence|]. exists T, owner. rewrite Ht', Hb' by done. done.
Qed.

Lemma owned_within_findWindowForGroup config w0 tid p groupName w target w' :
  owned_within config w0 tid p w →
  findWindowForGroup groupName w = (target, w') →
  owned_within config w0 tid p w' ∧ trace w' = trace w ∧
  ∀ k, target = Some k →
       stored_windowBindings w' !! k = Some groupName ∧ is_Some (windows_get k w0).
Proof.
  intros Ho E. pose proof Ho as (Hw & _).
  destruct (findWindowForGroup_spec groupName w) as (_ & _ & _ & _ & Hsome & _).
  rewrite E in Hsome. simpl in Hsome.
  apply findWindowForGroup_frame in E as (Hw1 & Ht1 & Htr1 & Hb1).
  assert (∀ k, is_Some (windows_get k w0) →
               stored_windowBindings w' !! k = stored_windowBindings w !! k) as Hlive.
  { intros k [win Hk]. destruct (Hb1 k) as [?|[_ Hdead]]; [done|].
    rewrite (windows_get_ext _ w0) in Hdead by done. congruence. }
  split; [by eapply owned_within_frame|]. split; [done|].
  intros k ->. destruct (Hsome k eq_refl) as [Hb Hk].
  rewrite (windows_get_ext _ w0) in Hk by done.
  split; [|done]. by rewrite Hlive.
Qed.

Lemma owned_within_move_other config w0 tid p w tid' target w' :
  owned_within config w0 tid p w → tid' ≠ tid →
  tabs_move tid' target w = Normal w' →
  owned_within config w0 tid p w' ∧ trace w' = trace w.
Proof.
  intros (Hw & T & owner & HT & Hid & Huniq & Hlive & Howner & Hb & Hp) Hne.
  unfold tabs_move.
  destruct (tabs_get tid' w) as [t|] eqn:Hget; [|done].
  destruct (windows_get target w); [|done]. intros [= <-].
  apply tabs_get_id in Hget as [Hid' Ht].
  split; [|done]. split; [done|]. exists T, owner. simpl. split_and!; try done.
  - apply elem_of_app. left. apply list_elem_of_filter. split; [congruence|done].
  - intros t' Ht' Hid''. apply elem_of_app in Ht' as [Ht'|Ht'].
    + apply list_elem_of_filter in Ht' as [_ Ht']. by apply Huniq.
    + apply list_elem_of_singleton in Ht' as ->. simpl in Hid''. congruence.
Qed.

Lemma owned_within_move_self config w0 tid p w g target w' :
  owned_within config w0 tid p w →
  g ∈ groups config → (priority g ≤ p)%Z →
  stored_windowBindings w !! target = Some (name g) →
  is_Some (windows_get target w0) →
  tabs_move tid target w = Normal w' →
  owned_within config w0 tid p w' ∧ trace w' = trace w.
Proof.
  intros (Hw & T & owner & HT & Hid & Huniq & Hlive & Howner & Hb & Hp) Hg Hpg Hbt Hlt.
  unfold tabs_move.
  destruct (tabs_get tid w) as [t|] eqn:Hget; [|done].
  destruct (windows_get target w); [|done]. intros [= <-].
  apply tabs_get_id in Hget as [Hid' Ht].
  split; [|done]. split; [done|]. exists (with_windowId target t), g. simpl.
  split_and!; try done.
  - apply elem_of_app. right. by apply list_elem_of_singleton.
  - intros t' Ht' Hid''. apply elem_of_app in Ht' as [Ht'|Ht'].
    + apply list_elem_of_filter in Ht' as [Hno _]. done.
    + by apply list_elem_of_singleton in Ht'.
Qed.

Lemma moveCandidate_owned_within config w0 tid p taker g st item :
  owned_within config w0 tid p (st_world st) →
  g ∈ groups config →
  (tab_id item.1 = tid → (priority g ≤ p)%Z ∧ name g ≠ taker) →
  owned_within config w0 tid p (st_world (moveCandidate g st item)) ∧
  extends_with (not_taken_by taker tid)
               (st_world st) (st_world (moveCandidate g st item)).
Proof.
  intros Ho Hg Hitem. unfold moveCandidate.
  destruct (findWindowForGroup _ _) as [target w1] eqn:E.
  assert (owned_within config w0 tid p
            (emit [Attempt (name g) (tab_id item.1)] (st_world st))) as Ho0
    by (by eapply owned_within_frame).
  destruct (owned_within_findWindowForGroup _ _ _ _ _ _ _ _ Ho0 E)
    as (Ho1 & Htr1 & Htarget).
  simpl in Htr1.
  assert (extends_with (not_taken_by taker tid) (st_world st) w1) as Hext1.
  { eapply extends_with_emit; [exact Htr1|]. by repeat constructor. }
  destruct (tabs_get _ w1) as [currentTab|]; [|done].
  destruct target as [target|]; [|done].
  case_match; [|done].
  destruct (tabs_move _ _ w1) as [w2|msg] eqn:Hmove; [|done].
  destruct (Htarget target eq_refl) as [Hbt Hlt].
  assert (owned_within config w0 tid p w2 ∧ trace w2 = trace w1) as [Ho2 Htr2].
  { destruct (decide (tab_id item.1 = tid)) as [Heq|Hne].
    - rewrite Heq in Hmove. destruct (Hitem Heq) as [Hp _].
      by eapply owned_within_move_self.
    - by eapply owned_within_move_other. }
  simpl. split.
  - by eapply owned_within_frame.
  - eapply extends_with_emit.
    + simpl. rewrite Htr2, Htr1, <- app_assoc. done.
    + constructor; [done|]. constructor; [|done]. simpl.
      intros Hn Hid. by destruct (Hitem Hid).
Qed.

Lemma moveCandidates_owned_within config w0 tid p taker g items st :
  owned_within config w0 tid p (st_world st) →
  g ∈ groups config →
  Forall (λ item : Tab * N,
            tab_id item.1 = tid → (priority g ≤ p)%Z ∧ name g ≠ taker) items →
  owned_within config w0 tid p (st_world (foldl (moveCandidate g) st items)) ∧
  extends_with (not_taken_by taker tid) (st_world st)
               (st_world (foldl (moveCandidate g) st items)).
Proof.
  intros Ho Hg Hall. revert st Ho.
  induction Hall as [|item items Hitem Hall IH]; intros st Ho; simpl.
  - split; [done|apply extends_with_refl].
  - destruct (moveCandidate_owned_within _ _ _ _ taker g st item Ho Hg Hitem)
      as [Ho1 He1].
    destruct (IH _ Ho1) as [Ho2 He2]. split; [done|].
    by eapply extends_with_trans.
Qed.

Lemma processGroup_owned_within config w0 tid p taker st g :
  NoDup (name <$> groups config) →
  (∀ g', g' ∈ groups config → name g' ≠ "") →
  owned_within config w0 tid p (st_world st) →
  g ∈ groups config →
  (name g = taker → (p < priority g)%Z) →
  owned_within config w0 tid p (st_world (processGroup config st g)) ∧
  extends_with (not_taken_by taker tid)
               (st_world st) (st_world (processGroup config st g)).
Proof.
  intros Hnd Hne Ho Hg Htaker. unfold processGroup.
  destruct (findWindowForGroup _ _) as [target w1] eqn:E.
  set (w' := emit [Processing (name g)] (st_world st)) in *.
  assert (owned_within config w0 tid p w') as Ho0 by (by eapply owned_within_frame).
  destruct (owned_within_findWindowForGroup _ _ _ _ _ _ _ _ Ho0 E) as (Ho1 & Htr1 & _).
  set (items := collectTabsToMove _ _ _ _).
  assert (Forall (λ item : Tab * N,
                    tab_id item.1 = tid → (priority g ≤ p)%Z ∧ name g ≠ taker) items)
    as Hitems.
  { apply Forall_forall. intros [tab k] Hin Hid. simpl in Hid.
    apply collectTabsToMove_elem in Hin as (window & wtabs & Hwin & Htab & _ & _ & Hc).
    apply (windows_getAll_elem _ _ _ _ Hwin) in Htab as (_ & Htab & Hwid).
    destruct Ho0 as (_ & T & owner & HT & HidT & Huniq & _ & Howner & Hb & Hp).
    apply Huniq in Htab as ->; [|done].
    apply (candidate_outranks config g owner) in Hc; try done.
    - split; [lia|]. intros Hn. specialize (Htaker Hn). lia.
    - by apply Hne.
    - unfold getWindowBindings. by rewrite <- Hwid. }
  match goal with |- context [foldl _ ?s items] =>
    destruct (moveCandidates_owned_within config w0 tid p taker g items s)
      as [Ho2 He2] end.
  { simpl. by eapply owned_within_frame. }
  { done. }
  { done. }
  split; [done|].
  eapply extends_with_trans; [|exact He2]. simpl.
  eapply (extends_with_emit _ _ _
            (Processing (name g)
             :: ((λ item : Tab * N, Candidate (name g) (tab_id item.1)) <$> items))).
  - simpl. rewrite Htr1. unfold w'. simpl. by rewrite <- app_assoc.
  - constructor; [done|]. by apply Forall_candidates.
Qed.

Lemma processGroups_owned_within config w0 tid p taker gs st :
  NoDup (name <$> groups config) →
  (∀ g', g' ∈ groups config → name g' ≠ "") →
  owned_within config w0 tid p (st_world st) →
  (∀ g, g ∈ gs → g ∈ groups config ∧ (name g = taker → (p < priority g)%Z)) →
  owned_within config w0 tid p (st_world (foldl (processGroup config) st gs)) ∧
  extends_with (not_taken_by taker tid) (st_world st)
               (st_world (foldl (processGroup config) st gs)).
Proof.
  intros Hnd Hne Ho Hgs. revert st Ho.
  induction gs as [|g gs IH]; intros st Ho; simpl.
  - split; [done|apply extends_with_refl].
  - destruct (Hgs g) as [Hg Htaker]; [by left|].
    destruct (processGroup_owned_within config w0 tid p taker st g Hnd Hne Ho Hg Htaker)
      as [Ho1 He1].
    destruct IH with (st := processGroup config st g) as [Ho2 He2].
    { intros g' Hg'. apply Hgs. by right. }
    { done. }
    split; [done|]. by eapply extends_with_trans.
Qed.

(** *** Priority ownership *)

(** C2 (amended). Let the tab [T] sit in a live window bound to the group
    [g1].  With distinct, non-empty group names, a [sortAllTabs] pass makes no
    move of [T] for a group [g2] whose priority number is above that of [g1]:
    a lower-priority group never takes the tab.  If moreover every group
    other than [g1] that matches [T] has a priority number above that of
    [g1], the pass never moves [T] at all.  And in the scenario of two groups,
    [g1] bound and [g2] unbound, with [T] the only tab that matches a group,
    the pass reports [moved = 0]. *)
Theorem sortAllTabs_priority_ownership (config : Config) (w : World) (g1 : Group) (T : Tab) :
  T ∈ tabs w → NoDup (tab_id <$> tabs w) →
  is_Some (windows_get (tab_windowId T) w) →
  getWindowBindings w !! tab_windowId T = Some (name g1) →
  let st := sortAllTabs config w in
  (NoDup (name <$> groups config) →
   (∀ g, g ∈ groups config → name g ≠ "") →
   g1 ∈ groups config →
   ∀ g2, g2 ∈ groups config → (priority g1 < priority g2)%Z →
         extends_with (not_taken_by (name g2) (tab_id T)) w (st_world st)) ∧
  (NoDup (name <$> groups config) → g1 ∈ groups config → name g1 ≠ "" →
   (∀ g2, g2 ∈ groups config →
      tabMatchesGroup (tab_url T) (tab_title T) g2 = true →
      g2 = g1 ∨ (priority g1 < priority g2)%Z) →
   T ∈ tabs (st_world st) ∧
   extends_with (not_move_of (tab_id T)) w (st_world st)) ∧
  (∀ g2,
     (∀ g, g ∈ groups config → g = g1 ∨ g = g2) →
     (∀ k, getWindowBindings w !! k ≠ Some (name g2)) →
     (∀ t g, t ∈ tabs w → g ∈ groups config →
        tabMatchesGroup (tab_url t) (tab_title t) g = true → t = T) →
     movedCount st = 0%nat).
Proof.
  intros HT Hids Hlive Hbound. simpl.
  assert (∀ t, t ∈ tabs w → tab_id t = tab_id T → t = T) as Huniq.
  { intros t Ht Hid. by eapply NoDup_fmap_elem_inj. }
  split_and!.
  - intros Hnd Hne Hg1 g2 Hg2 Hlt.
    assert (owned_within config w (tab_id T) (priority g1) w) as Ho.
    { split; [done|]. exists T, g1. by split_and!. }
    unfold sortAllTabs. case_match; [apply extends_with_refl|].
    match goal with |- context [foldl _ ?s _] =>
      destruct (processGroups_owned_within config w (tab_id T) (priority g1)
                  (name g2) (sortedGroups config) s Hnd Hne Ho) as [_ Hext] end;
      [|done].
    intros g Hg. rewrite (sortedGroups_Permutation config) in Hg. split; [done|].
    intros Hn. by rewrite (NoDup_fmap_elem_inj name _ g g2 Hnd Hg Hg2 Hn).
  - intros Hnd Hg1 Hname Hrank.
    assert (keeps_tab w T (name g1) w) as Hk by (by unfold keeps_tab).
    unfold sortAllTabs. case_match.
    + simpl. split; [done|apply extends_with_refl].
    + match goal with |- context [foldl _ ?s _] =>
        destruct (processGroups_keep config w T (name g1) (sortedGroups config) s)
          as [(_ & Hin & _) Hext] end; try done.
      intros g b window Hg Hb Hwid.
      apply (owned_not_candidate config g g1); try done.
      intros Hm. apply Hrank; [|done].
      by rewrite <- (sortedGroups_Permutation config).
  - intros g2 Htwo Hunbound Honly. apply sortAllTabs_quiet.
    intros g Hg. destruct (Htwo g Hg) as [->| ->]; [left|by right].
    intros window wtabs tab Hwin Htab Hty.
    destruct (tabMatchesGroup (tab_url tab) (tab_title tab) g1) eqn:Hm;
      [|by apply not_matching_not_candidate].
    destruct (windows_getAll_elem _ _ _ _ Hwin Htab) as (_ & Htabs & Hwid).
    assert (tab = T) as -> by (by eapply Honly).
    apply bound_not_candidate. by rewrite <- Hwid.
Qed.

(** *** Tabs already in place *)

Lemma resolveByPriority_least config url title g :
  g ∈ groups config → tabMatchesGroup url title g = true →
  ∃ owner, resolveByPriority config url title = Some owner ∧
           owner ∈ groups config ∧
           (owner = g ∨ (priority owner ≤ priority g)%Z).
Proof.
  intros Hg Hm. unfold resolveByPriority.
  rewrite <- (sortedGroups_Permutation config) in Hg.
  destruct (head _) as [owner|] eqn:Hhead.
  - apply (head_filter_sorted _ _ _ _ (sortedGroups_ascending config)) in Hhead
      as (Hin & _ & Hleast).
    exists owner. split; [done|]. split.
    + by rewrite <- (sortedGroups_Permutation config).
    + by apply Hleast.
  - apply head_None in Hhead.
    assert (In g (List.filter (tabMatchesGroup url title) (sortedGroups config))) as Hin.
    { apply filter_In. split; [by apply list_elem_of_In|done]. }
    rewrite Hhead in Hin. done.
Qed.

(** C5 (amended). With distinct, non-empty group names and distinct
    priorities, in every state in which each tab that resolves to a group by
    configured priority sits in the window bound to that group,
    [sortAllTabs] moves no tab and returns [moved = 0] with no error. *)
Theorem sortAllTabs_settled_no_moves (config : Config) (w : World) :
  valid_groups config →
  settled (resolveByPriority config) w →
  let st := sortAllTabs config w in
  movedCount st = 0%nat ∧ st_errors st = [] ∧ tabs (st_world st) = tabs w ∧
  ∃ es, trace (st_world st) = trace w ++ es ∧ moved_tabs es = [].
Proof.
  intros (Hnames & Hne & Hprio) Hsettled. apply sortAllTabs_quiet.
  intros g Hg. left. intros window wtabs tab Hwin Htab Hty.
  destruct (tabMatchesGroup (tab_url tab) (tab_title tab) g) eqn:Hm;
    [|by apply not_matching_not_candidate].
  destruct (resolveByPriority_least config _ _ g Hg Hm) as (owner & Hres & Howner & Hrank).
  apply (owned_not_candidate config g owner); try done.
  - by apply Hne.
  - by eapply Hsettled.
  - intros _. destruct Hrank as [->|Hle]; [by left|].
    destruct (decide (g = owner)) as [->|Hneq]; [by left|]. right.
    assert (priority owner ≠ priority g); [|lia].
    intros Heq. apply Hneq. symmetry. by eapply NoDup_fmap_elem_inj.
Qed.

End SortInvariants.

(** C2, as stated, fails: the tab matches the groups ["3004"] (priority 1) and
    ["App"] (priority 2) and sits in the window bound to ["3004"], yet the pass
    moves it to the window of ["Dev"] (priority 0), which matches it too. *)
Lemma sortAllTabs_priority_ownership_counterexample :
  group_3004 ∈ groups three_groups_config ∧
  group_App ∈ groups three_groups_config ∧
  (priority group_3004 < priority group_App)%Z ∧
  tab_app ∈ tabs three_groups_world ∧
  @tabMatchesGroup sample_host (tab_url tab_app) (tab_title tab_app) group_3004 = true ∧
  @tabMatchesGroup sample_host (tab_url tab_app) (tab_title tab_app) group_App = true ∧
  getWindowBindings three_groups_world !! tab_windowId tab_app = Some (name group_3004) ∧
  trace (st_world (@sortAllTabs sample_host three_groups_config three_groups_world))
  = [Processing "Dev"; Candidate "Dev" 1; Attempt "Dev" 1; Moved "Dev" 1 100;
     Processing "3004"; Processing "App"] ∧
  tabs (st_world (@sortAllTabs sample_host three_groups_config three_groups_world))
  = [with_windowId 100 tab_app].
Proof. split_and!; first [by vm_compute | compute_done]. Qed.

(** The scenario of C2: X of priority 0 bound to window 100, Y of priority 1
    unbound, the only matching tab in window 100. *)
Lemma sortAllTabs_priority_ownership_witness :
  extends_with (not_taken_by "Y" 1) ownership_world
    (st_world (@sortAllTabs sample_host ownership_config ownership_world)) ∧
  tab_foo ∈ tabs (st_world (@sortAllTabs sample_host ownership_config ownership_world)) ∧
  movedCount (@sortAllTabs sample_host ownership_config ownership_world) = 0%nat.
Proof.
  assert (tab_foo ∈ tabs ownership_world) as Htab by compute_done.
  assert (NoDup (tab_id <$> tabs ownership_world)) as Hids by compute_done.
  assert (is_Some (windows_get (tab_windowId tab_foo) ownership_world)) as Hlive
    by (by eexists).
  assert (∀ g, g ∈ groups ownership_config → name g ≠ "") as Hne.
  { intros g Hg. by_cases_on_list Hg; by subst. }
  pose proof (@sortAllTabs_priority_ownership sample_host ownership_config
                ownership_world group_X tab_foo Htab Hids Hlive eq_refl)
    as (Huntaken & Hstay & Hnone).
  split_and!.
  - apply (Huntaken ltac:(compute_done) Hne ltac:(compute_done) group_Y);
      [compute_done|done].
  - apply Hstay; try compute_done.
    intros g2 Hin _. by_cases_on_list Hin; subst; [by left|by right].
  - apply (Hnone group_Y).
    + intros g Hg. by_cases_on_list Hg; subst; [by left|by right].
    + intros k Hk. unfold ownership_world, getWindowBindings in Hk. simpl in Hk.
      by apply lookup_singleton_Some in Hk as [_ ?].
    + intros t g Ht _ _. by_cases_on_list Ht. done.
Defined.

(** C5, as stated, fails: the tab resolves to ["A"] under [findMatchingGroup]
    and sits in the window bound to ["A"], yet the pass moves it to the window
    of ["B"], whose priority number is lower. *)
Lemma sortAllTabs_settled_counterexample :
  valid_groups by_name_config ∧
  settled (@findMatchingGroup sample_host by_name_config) by_name_world ∧
  movedCount (@sortAllTabs sample_host by_name_config by_name_world) = 1%nat ∧
  tabs (st_world (@sortAllTabs sample_host by_name_config by_name_world))
  = [with_windowId 200 tab_in_A].
Proof.
  split_and!; [| |by vm_compute..].
  - unfold valid_groups. split_and!; [compute_done| |compute_done].
    intros g Hg. by_cases_on_list Hg; by subst.
  - intros window wtabs tab g Hwin Htab Hres.
    vm_compute in Hwin. by_cases_on_list Hwin; injection Hwin as -> ->.
    + by_cases_on_list Htab. subst tab. vm_compute in Hres.
      injection Hres as <-. by vm_compute.
    + by apply elem_of_nil in Htab.
Qed.

(** Each tab in the window of the group it resolves to. *)
Lemma sortAllTabs_settled_no_moves_witness :
  movedCount (@sortAllTabs sample_host sorted_config sorted_world) = 0%nat.
Proof.
  apply (@sortAllTabs_settled_no_moves sample_host sorted_config sorted_world).
  - unfold valid_groups. split_and!; [compute_done| |compute_done].
    intros g Hg. by_cases_on_list Hg; by subst.
  - intros window wtabs tab g Hwin Htab Hres.
    vm_compute in Hwin. by_cases_on_list Hwin; injection Hwin as -> ->;
      by_cases_on_list Htab; subst tab; vm_compute in Hres;
      injection Hres as <-; by vm_compute.
Defined.

(** ** The startup rebinder *)

Section Rebind.
Context {host : Host}.










End Rebind.



(** ** Import and export *)

Lemma importGroup_exported i g :
  mode g ≠ "" → importGroup i (Group_toJSON g) = Group_toJSON g.
Proof.
  intros Hmode. unfold importGroup, Group_toJSON, js_or. simpl.
  unfold truthy_string. by rewrite bool_decide_eq_false_2.
Qed.

Lemma Group_ofJSON_toJSON g : Group_ofJSON (Group_toJSON g) = Some g.
Proof.
  unfold Group_ofJSON, Group_toJSON. simpl.
  assert (mapM string_ofJSON (JString <$> patterns g) = Some (patterns g)) as ->.
  { induction (patterns g) as [|s ps IH]; [done|].
    rewrite fmap_cons. cbn [mapM]. simpl. rewrite IH. done. }
  simpl. by destruct g.
Qed.

Lemma groups_ofJSON_toJSON (gs : list Group) :
  mapM Group_ofJSON (Group_toJSON <$> gs) = Some gs.
Proof.
  induction gs as [|g gs IH]; [done|].
  rewrite fmap_cons. cbn [mapM]. rewrite Group_ofJSON_toJSON. simpl.
  rewrite IH. done.
Qed.

(** C8. Importing what [exportConfig] wrote for a configuration whose groups
    all have a name and a mode succeeds and reproduces the group list: the
    same names, patterns, modes and priorities, in the same order. *)
Theorem export_import_round_trip (config : Config) :
  exportable config →
  ∃ imported,
    importConfig (exportConfig config) = Normal imported ∧
    get_field "groups" imported = get_field "groups" (exportConfig config) ∧
    groups_ofJSON imported = Some (groups config).
Proof.
  intros Hvalid. unfold exportConfig, Config_toJSON, importConfig, importConfig_with.
  simpl.
  assert (forallb (λ group, truthy_json (get_field "name" group)
                            && isArray (get_field "patterns" group))
                  (Group_toJSON <$> groups config) = true) as ->.
  { apply forallb_forall. intros j Hj%list_elem_of_In.
    apply list_elem_of_fmap in Hj as (g & -> & Hg). simpl.
    destruct (Hvalid g Hg) as [Hname _].
    unfold truthy_string. by rewrite bool_decide_eq_false_2. }
  eexists. split; [done|].
  assert (imap importGroup (Group_toJSON <$> groups config)
          = Group_toJSON <$> groups config) as Himap.
  { apply imap_id_on. intros i j Hj.
    apply list_elem_of_fmap in Hj as (g & -> & Hg).
    apply importGroup_exported. by apply Hvalid. }
  unfold groups_ofJSON. simpl. rewrite Himap. split; [done|].
  apply groups_ofJSON_toJSON.
Qed.

(** Two groups in simple mode. *)
Lemma export_import_round_trip_witness :
  ∃ imported,
    importConfig (exportConfig sorted_config) = Normal imported ∧
    get_field "groups" imported = get_field "groups" (exportConfig sorted_config) ∧
    groups_ofJSON imported = Some (groups sorted_config).
Proof.
  apply export_import_round_trip.
  intros g Hg. by_cases_on_list Hg; by subst.
Defined.

(** The older [importConfig] does not copy [mode]: the imported objects no
    longer read back as groups. *)
Lemma Legacy_importConfig_drops_mode :
  ∃ imported,
    Legacy.importConfig (exportConfig sorted_config) = Normal imported ∧
    groups_ofJSON imported = None.
Proof. eexists. split; by vm_compute. Qed.

(** * Further properties *)

(** ** The order of the table's entries *)

Global Instance key_le_trans : Transitive key_le.
Proof. intros x y z. unfold key_le. lia. Qed.

Global Instance key_le_total : Total key_le.
Proof. intros x y. unfold key_le. lia. Qed.

Lemma Object_entries_keys_NoDup (bindings : gmap N string) :
  NoDup (Object_entries bindings).*1.
Proof.
  unfold Object_entries. rewrite merge_sort_Permutation.
  apply NoDup_fst_map_to_list.
Qed.

Lemma StronglySorted_strict (l : list (N * string)) :
  StronglySorted key_le l → NoDup l.*1 → StronglySorted (λ x y, x.1 < y.1) l.
Proof.
  induction 1 as [|x l Hl IH Hx]; intros Hnd; [constructor|].
  rewrite fmap_cons in Hnd. apply NoDup_cons in Hnd as [Hx' Hnd].
  constructor; [by apply IH|].
  apply Forall_forall. intros y Hy.
  pose proof (proj1 (Forall_forall _ _) Hx y Hy) as Hle. unfold key_le in Hle.
  assert (x.1 ≠ y.1); [|lia].
  intros Heq. apply Hx'. rewrite Heq. by apply list_elem_of_fmap_2.
Qed.

Lemma Object_entries_ascending (bindings : gmap N string) :
  StronglySorted (λ x y, x.1 < y.1) (Object_entries bindings).
Proof.
  apply StronglySorted_strict; [|apply Object_entries_keys_NoDup].
  unfold Object_entries. apply (StronglySorted_merge_sort key_le).
Qed.

(** ** findWindowForGroup: the window it returns *)

Lemma findWindowForGroup_loop_first groupName entries (bindings : gmap N string) w k :
  StronglySorted (λ x y : N * string, x.1 < y.1) entries →
  (k, groupName) ∈ entries → is_Some (windows_get k w) →
  (∀ j, (j, groupName) ∈ entries → j < k → False) →
  findWindowForGroup_loop groupName entries bindings w = (Some k, w).
Proof.
  induction 1 as [|[j n] entries Hs IH Hj]; intros Hin [win Hlive] Hmin.
  - by apply elem_of_nil in Hin.
  - cbn [findWindowForGroup_loop].
    apply elem_of_cons in Hin as [Heq|Hin].
    + injection Heq as <- <-. rewrite bool_decide_eq_true_2 by done.
      by rewrite Hlive.
    + assert (j < k) as Hjk.
      { by apply (proj1 (Forall_forall _ _) Hj (k, groupName)). }
      destruct (bool_decide (n = groupName)) eqn:Hn.
      * apply bool_decide_eq_true in Hn as ->.
        exfalso. apply (Hmin j); [by left|done].
      * apply IH; [done|by exists win|].
        intros j' Hj'. apply Hmin. by right.
Qed.

Lemma findWindowForGroup_loop_absent groupName entries (bindings : gmap N string) w :
  (∀ j, (j, groupName) ∉ entries) →
  findWindowForGroup_loop groupName entries bindings w = (None, w).
Proof.
  induction entries as [|[j n] entries IH]; intros Habs; [done|].
  cbn [findWindowForGroup_loop].
  rewrite bool_decide_eq_false_2.
  - apply IH. intros j' Hj'. apply (Habs j'). by right.
  - intros ->. apply (Habs j). by left.
Qed.

Lemma findWindowForGroup_loop_below groupName entries (bindings : gmap N string) w :
  StronglySorted (λ x y : N * string, x.1 < y.1) entries →
  stored_windowBindings w = bindings →
  let r := findWindowForGroup_loop groupName entries bindings w in
  ∀ k, r.1 = Some k →
       ∀ j, (j, groupName) ∈ entries → j < k →
            stored_windowBindings r.2 !! j = None ∧ windows_get j w = None.
Proof.
  intros Hs. revert bindings w.
  induction Hs as [|[i n] entries Hs IH Hi]; intros bindings w Hst;
    cbn [findWindowForGroup_loop].
  - intros k _ j Hj. by apply elem_of_nil in Hj.
  - destruct (bool_decide (n = groupName)) eqn:Hn.
    + apply bool_decide_eq_true in Hn as ->.
      destruct (windows_get i w) as [win|] eqn:Hlive; cbn [fst snd].
      * intros k [= <-] j Hj Hlt. exfalso.
        apply elem_of_cons in Hj as [Heq|Hj].
        -- injection Heq as ->. lia.
        -- pose proof (proj1 (Forall_forall _ _) Hi _ Hj) as Hlt'. simpl in Hlt'. lia.
      * match goal with
        | |- context [findWindowForGroup_loop _ _ ?b ?w'] =>
            pose proof (findWindowForGroup_loop_spec groupName entries b w' eq_refl)
              as Hspec;
            specialize (IH b w' eq_refl)
        end.
        cbv zeta in IH, Hspec.
        destruct Hspec as (_ & _ & _ & Hk & _).
        intros k Hr j Hj Hlt.
        apply elem_of_cons in Hj as [Heq|Hj].
        -- injection Heq as ->. split; [|done].
           destruct (Hk i) as [Heq|(Hnone & _)]; [|done].
           by rewrite Heq, lookup_delete_eq.
        -- destruct (IH k Hr j Hj Hlt) as [Hnone Hdead]. split; [done|].
           by rewrite <- Hdead.
    + intros k Hr j Hj Hlt.
      apply elem_of_cons in Hj as [Heq|Hj].
      * injection Heq as -> ->. by apply bool_decide_eq_false in Hn.
      * by apply (IH bindings w Hst k Hr j Hj Hlt).
Qed.

Lemma findWindowForGroup_least groupName w k w' :
  findWindowForGroup groupName w = (Some k, w') →
  stored_windowBindings w !! k = Some groupName ∧
  is_Some (windows_get k w) ∧
  stored_windowBindings w' !! k = Some groupName ∧
  ∀ j, stored_windowBindings w !! j = Some groupName → j < k →
       windows_get j w = None ∧ stored_windowBindings w' !! j = None.
Proof.
  intros E.
  destruct (findWindowForGroup_spec groupName w) as (_ & _ & _ & Hk & Hsome & _).
  rewrite E in Hk, Hsome. simpl in Hk, Hsome.
  destruct (Hsome k eq_refl) as [Hb Hlive].
  split; [done|]. split; [done|]. split.
  - destruct (Hk k) as [Heq|(_ & _ & Hdead)]; [by rewrite Heq|].
    rewrite Hdead in Hlive. by destruct Hlive.
  - intros j Hj Hlt.
    pose proof (findWindowForGroup_loop_below groupName
      (Object_entries (stored_windowBindings w)) (stored_windowBindings w) w
      (Object_entries_ascending _) eq_refl) as Hbelow.
    cbv zeta in Hbelow. unfold findWindowForGroup, getWindowBindings in E.
    rewrite E in Hbelow. simpl in Hbelow.
    destruct (Hbelow k eq_refl j) as [Hnone Hdead]; [|done|done].
    by apply elem_of_Object_entries.
Qed.

Lemma findWindowForGroup_live groupName w k :
  stored_windowBindings w !! k = Some groupName → is_Some (windows_get k w) →
  ∃ k' w', findWindowForGroup groupName w = (Some k', w') ∧ k' ≤ k.
Proof.
  intros Hb Hlive.
  destruct (findWindowForGroup groupName w) as [[k'|] w'] eqn:E.
  - exists k', w'. split; [done|].
    destruct (decide (k' ≤ k)) as [|Hgt]; [done|]. exfalso.
    destruct (findWindowForGroup_least _ _ _ _ E) as (_ & _ & _ & Hbelow).
    destruct (Hbelow k Hb) as [Hdead _]; [lia|].
    rewrite Hdead in Hlive. by destruct Hlive.
  - exfalso.
    destruct (findWindowForGroup_spec groupName w) as (_ & _ & _ & _ & _ & Hnone).
    rewrite E in Hnone. simpl in Hnone.
    destruct (Hnone eq_refl k Hb) as [Hdead _].
    rewrite Hdead in Hlive. by destruct Hlive.
Qed.

Lemma findWindowForGroup_again groupName w target w' :
  findWindowForGroup groupName w = (target, w') →
  findWindowForGroup groupName w' = (target, w').
Proof.
  intros E.
  destruct (findWindowForGroup_frame _ _ _ _ E) as (Hw & _ & _ & Hk).
  unfold findWindowForGroup at 1. unfold getWindowBindings.
  destruct target as [k|].
  - destruct (findWindowForGroup_least _ _ _ _ E) as (Hb & Hlive & Hb' & Hbelow).
    apply findWindowForGroup_loop_first.
    + apply Object_entries_ascending.
    + by apply elem_of_Object_entries.
    + by rewrite (windows_get_ext k w w').
    + intros j Hj%elem_of_Object_entries Hlt.
      destruct (Hk j) as [Heq|[Hnone _]]; [|congruence].
      rewrite Heq in Hj. destruct (Hbelow j Hj Hlt) as [_ Hnone]. congruence.
  - apply findWindowForGroup_loop_absent.
    intros j Hj%elem_of_Object_entries.
    destruct (findWindowForGroup_spec groupName w) as (_ & _ & _ & _ & _ & Hnone).
    rewrite E in Hnone. simpl in Hnone.
    destruct (Hk j) as [Heq|[Hgone _]]; [|congruence].
    rewrite Heq in Hj. destruct (Hnone eq_refl j Hj) as [_ Hgone]. congruence.
Qed.

Lemma findWindowForGroup_loop_above groupName entries (bindings : gmap N string) w :
  StronglySorted (λ x y : N * string, x.1 < y.1) entries →
  stored_windowBindings w = bindings →
  let r := findWindowForGroup_loop groupName entries bindings w in
  ∀ k, r.1 = Some k →
       ∀ j, k ≤ j → stored_windowBindings r.2 !! j = bindings !! j.
Proof.
  intros Hs. revert bindings w.
  induction Hs as [|[i n] entries Hs IH Hi]; intros bindings w Hst;
    cbn [findWindowForGroup_loop].
  - intros k Hr. done.
  - destruct (bool_decide (n = groupName)) eqn:Hn.
    + apply bool_decide_eq_true in Hn as ->.
      destruct (windows_get i w) as [win|] eqn:Hlive; cbn [fst snd].
      * intros k _ j _. by rewrite Hst.
      * match goal with
        | |- context [findWindowForGroup_loop _ _ ?b ?w'] =>
            pose proof (findWindowForGroup_loop_spec groupName entries b w' eq_refl)
              as Hspec;
            specialize (IH b w' eq_refl)
        end.
        cbv zeta in IH, Hspec.
        destruct Hspec as (_ & _ & _ & _ & Hsome & _).
        intros k Hr j Hle. rewrite (IH k Hr j Hle).
        destruct (Hsome k Hr) as [Hin _].
        pose proof (proj1 (Forall_forall _ _) Hi _ Hin) as Hlt. simpl in Hlt.
        apply lookup_delete_ne. lia.
    + intros k Hr j Hle. by apply (IH bindings w Hst k Hr j Hle).
Qed.

(** X1. [findWindowForGroup groupName] returns a window exactly when a live
    window is bound to the group, and then the one of least identifier; on
    the way it deletes the entries of the group below that window, which all
    name windows that are gone, and no other entry. *)
Theorem findWindowForGroup_returns_least_live (w : World) (groupName : string) :
  let r := findWindowForGroup groupName w in
  (∀ k : N,
     r.1 = Some k ↔
     getWindowBindings w !! k = Some groupName ∧ is_Some (windows_get k w) ∧
     ∀ j : N, getWindowBindings w !! j = Some groupName →
              is_Some (windows_get j w) → k ≤ j) ∧
  (∀ k j : N,
     r.1 = Some k →
     getWindowBindings r.2 !! j =
       if bool_decide (j < k ∧ getWindowBindings w !! j = Some groupName)
       then None else getWindowBindings w !! j) ∧
  (∀ k j : N,
     r.1 = Some k → j < k → getWindowBindings w !! j = Some groupName →
     windows_get j w = None).
Proof.
  unfold getWindowBindings. cbv zeta.
  destruct (findWindowForGroup groupName w) as [target w'] eqn:E. cbn [fst snd].
  split; [|split].
  - intros k. split.
    + intros ->.
      destruct (findWindowForGroup_least _ _ _ _ E) as (Hb & Hlive & _ & Hbelow).
      split; [done|]. split; [done|].
      intros j Hj Hjlive. destruct (decide (k ≤ j)) as [|Hgt]; [done|]. exfalso.
      destruct (Hbelow j Hj) as [Hdead _]; [lia|].
      rewrite Hdead in Hjlive. by destruct Hjlive.
    + intros (Hb & Hlive & Hleast).
      destruct (findWindowForGroup_live groupName w k Hb Hlive) as (k' & w'' & E' & Hle).
      rewrite E in E'. injection E' as -> <-. f_equal.
      destruct (findWindowForGroup_least _ _ _ _ E) as (Hb' & Hlive' & _).
      specialize (Hleast k' Hb' Hlive'). lia.
  - intros k j ->.
    destruct (findWindowForGroup_least _ _ _ _ E) as (_ & _ & _ & Hbelow).
    case_bool_decide as Hj.
    + destruct Hj as [Hlt Hj]. by destruct (Hbelow j Hj Hlt).
    + destruct (decide (j < k)) as [Hlt|Hge].
      * destruct (findWindowForGroup_spec groupName w) as (_ & _ & _ & Hk & _).
        rewrite E in Hk. simpl in Hk.
        destruct (Hk j) as [Heq|(_ & Hg & _)]; [done|].
        exfalso. apply Hj. done.
      * pose proof (findWindowForGroup_loop_above groupName
          (Object_entries (stored_windowBindings w)) (stored_windowBindings w) w
          (Object_entries_ascending _) eq_refl) as Habove.
        cbv zeta in Habove. unfold findWindowForGroup, getWindowBindings in E.
        rewrite E in Habove. simpl in Habove.
        apply (Habove k eq_refl). lia.
  - intros k j -> Hlt Hj.
    destruct (findWindowForGroup_least _ _ _ _ E) as (_ & _ & _ & Hbelow).
    by destruct (Hbelow j Hj Hlt).
Qed.

(** X2. A second call of [findWindowForGroup] right after the first returns
    the same window and changes nothing: one call completes the clean-up it
    does. *)
Theorem findWindowForGroup_idempotent (w : World) (groupName : string) :
  let r := findWindowForGroup groupName w in
  findWindowForGroup groupName r.2 = r.
Proof.
  cbv zeta. destruct (findWindowForGroup groupName w) as [target w'] eqn:E.
  simpl. by apply (findWindowForGroup_again groupName w).
Qed.

(** ** Moving one tab *)

Lemma find_app {A} (f : A → bool) (l1 l2 : list A) :
  List.find f (l1 ++ l2) =
  match List.find f l1 with
  | Some x => Some x
  | None => List.find f l2
  end.
Proof.
  induction l1 as [|a l1 IH]; [done|]. simpl. by destruct (f a).
Qed.

Lemma find_none_filter_out (tabId : N) (l : list Tab) :
  List.find (λ t, bool_decide (tab_id t = tabId))
            (filter (λ t', tab_id t' ≠ tabId) l) = None.
Proof.
  induction l as [|a l IH]; [done|].
  destruct (decide (tab_id a = tabId)) as [Heq|Hne].
  - by rewrite filter_cons_False by (intros H; by apply H).
  - rewrite filter_cons_True by done. simpl.
    by rewrite bool_decide_eq_false_2.
Qed.

Lemma tabs_move_Normal tabId windowId w w' :
  tabs_move tabId windowId w = Normal w' →
  ∃ t, tabs_get tabId w = Some t ∧ is_Some (windows_get windowId w) ∧
       w' = set_tabs (filter (λ t', tab_id t' ≠ tabId) (tabs w)
                      ++ [with_windowId windowId t]) w.
Proof.
  unfold tabs_move.
  destruct (tabs_get tabId w) as [t|]; [|done].
  destruct (windows_get windowId w) as [win|] eqn:Hwin; [|done].
  intros [= <-]. exists t. split; [done|]. split; [by exists win|done].
Qed.

Lemma tabs_move_succeeds tabId windowId w t :
  tabs_get tabId w = Some t → is_Some (windows_get windowId w) →
  tabs_move tabId windowId w
  = Normal (set_tabs (filter (λ t', tab_id t' ≠ tabId) (tabs w)
                      ++ [with_windowId windowId t]) w).
Proof.
  intros Ht [win Hwin]. unfold tabs_move. by rewrite Ht, Hwin.
Qed.

Lemma tabs_get_moved tabId windowId w t :
  tab_id t = tabId →
  tabs_get tabId (set_tabs (filter (λ t', tab_id t' ≠ tabId) (tabs w)
                            ++ [with_windowId windowId t]) w)
  = Some (with_windowId windowId t).
Proof.
  intros Hid. unfold tabs_get. simpl.
  rewrite find_app, find_none_filter_out. simpl.
  by rewrite bool_decide_eq_true_2.
Qed.

Lemma with_windowId_same t : with_windowId (tab_windowId t) t = t.
Proof. by destruct t. Qed.

Lemma moveTabToWindow_spec tabId windowId w :
  let r := moveTabToWindow tabId windowId w in
  match tabs_get tabId w, windows_get windowId w with
  | Some t, Some _ =>
      r = (true, set_tabs (filter (λ t', tab_id t' ≠ tabId) (tabs w)
                           ++ [with_windowId windowId t]) w)
  | _, _ => r = (false, w)
  end.
Proof.
  unfold moveTabToWindow, tabs_move. cbv zeta.
  destruct (tabs_get tabId w) as [t|]; [|done].
  destruct (windows_get windowId w) as [win|] eqn:Hwin; [|done].
  rewrite (windows_get_ext windowId w) by done. by rewrite Hwin.
Qed.

Lemma moveTabToWindow_frame tabId windowId w :
  let w' := (moveTabToWindow tabId windowId w).2 in
  windows w' = windows w ∧ trace w' = trace w ∧
  stored_windowBindings w' = stored_windowBindings w ∧
  windowBindings w' = windowBindings w ∧
  (∀ t, tab_id t ≠ tabId → t ∈ tabs w' ↔ t ∈ tabs w).
Proof.
  pose proof (moveTabToWindow_spec tabId windowId w) as H. cbv zeta in *.
  destruct (tabs_get tabId w) as [t|] eqn:Ht;
    [destruct (windows_get windowId w)|]; rewrite H; simpl; try done.
  split_and!; try done. intros t' Hne.
  rewrite elem_of_app, list_elem_of_filter, list_elem_of_singleton.
  apply tabs_get_id in Ht as [Hid _].
  split; [|by auto]. intros [[_ ?]| ->]; [done|]. by destruct Hne.
Qed.

Lemma windows_get_Some k w win :
  windows_get k w = Some win → win ∈ windows w ∧ win_id win = k.
Proof.
  unfold windows_get. intros [Hin Hid]%find_some.
  split; [by apply list_elem_of_In|by apply bool_decide_eq_true in Hid].
Qed.

Lemma positive_ids_truthy w k :
  positive_ids w → is_Some (windows_get k w) → truthy_id k = true.
Proof.
  intros Hpos [win [Hin Hid]%windows_get_Some].
  unfold truthy_id. rewrite bool_decide_eq_false_2; [done|].
  rewrite <- Hid. by apply Hpos.
Qed.

Lemma only_stale_dropped_refl w : only_stale_dropped w w.
Proof. intros k. by left. Qed.

(** ** Routing one tab *)

Section Navigation.
Context {host : Host}.

(** The three ways a call of [handleTabNavigation] ends: at once, after
    looking up the window of the matching group, or with a move to the
    catch-all window. *)
Lemma handleTabNavigation_cases config tabId url title cur w :
  let w' := handleTabNavigation config tabId url title cur w in
  w' = w ∨
  (∃ g target w1,
     enabled config = true ∧ isInternalUrl url = false ∧
     findMatchingGroup config url title = Some g ∧
     getWindowBindings w !! cur ≠ Some (name g) ∧
     findWindowForGroup (name g) w = (target, w1) ∧
     (((target = None ∨ target = Some 0 ∨ target = Some cur) ∧ w' = w1) ∨
      ∃ k, target = Some k ∧ k ≠ 0 ∧ k ≠ cur ∧
           w' = (moveTabToWindow tabId k w1).2)) ∨
  (∃ c, enabled config = true ∧ isInternalUrl url = false ∧
        findMatchingGroup config url title = None ∧
        catchAllWindowId config = Some c ∧ c ≠ 0 ∧ cur ≠ c ∧
        is_Some (windows_get c w) ∧
        w' = (moveTabToWindow tabId c w).2).
Proof.
  cbv zeta. unfold handleTabNavigation.
  destruct (enabled config) eqn:Hen; simpl; [|by left].
  destruct (isInternalUrl url) eqn:Hint; [by left|].
  destruct (findMatchingGroup config url title) as [g|] eqn:Hg.
  - case_bool_decide as Hcur; [by left|].
    destruct (findWindowForGroup (name g) w) as [target w1] eqn:E.
    right. left. exists g, target, w1. split_and!; try done.
    destruct target as [k|]; [|left; auto].
    unfold truthy_id. case_bool_decide as Hk; simpl.
    + left. subst k. auto.
    + case_bool_decide as Hkc; simpl.
      * left. subst k. auto.
      * right. exists k. done.
  - destruct (catchAllWindowId config) as [c|] eqn:Hc; [|by left].
    unfold truthy_id. case_bool_decide as Hc0; simpl; [by left|].
    case_bool_decide as Hcur; [by left|].
    destruct (windows_get c w) as [win|] eqn:Hlive; [|by left].
    right. right. exists c. split_and!; try done.
Qed.

(** X3. Handling a navigation never opens or closes a window, never touches a
    tab other than the one that navigated, and never adds or changes an entry
    of the table: the only entries it can lose name windows that are gone. *)
Theorem handleTabNavigation_frame (config : Config) (tabId : N)
    (url title : option string) (currentWindowId : N) (w : World) :
  let w' := handleTabNavigation config tabId url title currentWindowId w in
  windows w' = windows w ∧
  (∀ t, tab_id t ≠ tabId → t ∈ tabs w' ↔ t ∈ tabs w) ∧
  only_stale_dropped w w'.
Proof.
  pose proof (handleTabNavigation_cases config tabId url title currentWindowId w) as H.
  cbv zeta in *.
  destruct H as [->|[(g & target & w1 & _ & _ & _ & _ & E & Hend)
                    |(c & _ & _ & _ & _ & _ & _ & _ & ->)]].
  - split; [done|]. split; [done|]. apply only_stale_dropped_refl.
  - destruct (findWindowForGroup_frame _ _ _ _ E) as (Hw & Ht & _ & Hk).
    destruct Hend as [[_ ->]|(k & _ & _ & _ & ->)].
    + split; [done|]. split; [by rewrite Ht|done].
    + destruct (moveTabToWindow_frame tabId k w1) as (Hw' & _ & Hst & _ & Htabs).
      cbv zeta in *. split; [congruence|]. split.
      * intros t Hne. by rewrite Htabs, Ht.
      * intros j. rewrite Hst. apply Hk.
  - destruct (moveTabToWindow_frame tabId c w) as (Hw' & _ & Hst & _ & Htabs).
    cbv zeta in *. split; [done|]. split; [done|].
    intros j. left. by rewrite Hst.
Qed.

(** X4. When the extension is enabled, the page is not internal, the
    resolver picks the group [g] and a live window is bound to [g], the tab
    ends in a window bound to [g]: it stays where it is when its own window
    is bound to [g], and is moved to the live window of least identifier
    bound to [g] otherwise. *)
Theorem handleTabNavigation_routes (config : Config) (T : Tab)
    (url title : option string) (g : Group) (k : N) (w : World) :
  enabled config = true → isInternalUrl url = false →
  findMatchingGroup config url title = Some g →
  tabs_get (tab_id T) w = Some T →
  positive_ids w →
  getWindowBindings w !! k = Some (name g) → is_Some (windows_get k w) →
  let w' := handleTabNavigation config (tab_id T) url title (tab_windowId T) w in
  ∃ target,
    tabs_get (tab_id T) w' = Some (with_windowId target T) ∧
    getWindowBindings w' !! target = Some (name g) ∧
    (target = tab_windowId T ∨
     (is_Some (windows_get target w') ∧ target ≤ k ∧
      getWindowBindings w !! tab_windowId T ≠ Some (name g))).
Proof.
  intros Hen Hint Hg HT Hpos Hk Hlive. cbv zeta.
  unfold handleTabNavigation. rewrite Hen, Hint, Hg. simpl.
  case_bool_decide as Hcur.
  - exists (tab_windowId T). rewrite with_windowId_same. auto.
  - destruct (findWindowForGroup_live (name g) w k Hk Hlive) as (k' & w1 & E & Hle).
    rewrite E.
    destruct (findWindowForGroup_least _ _ _ _ E) as (Hb & Hlive' & Hb' & _).
    destruct (findWindowForGroup_frame _ _ _ _ E) as (Hw & Ht & _ & _).
    rewrite (positive_ids_truthy w k') by done. simpl.
    case_bool_decide as Hsame; simpl.
    + exists (tab_windowId T). rewrite with_windowId_same.
      split; [by rewrite (tabs_get_ext _ w w1)|]. split; [by rewrite <- Hsame|by left].
    + pose proof (moveTabToWindow_spec (tab_id T) k' w1) as Hmove. cbv zeta in Hmove.
      rewrite (tabs_get_ext _ w w1), HT in Hmove by done.
      destruct Hlive' as [win Hwin].
      rewrite (windows_get_ext _ w w1), Hwin in Hmove by done.
      rewrite Hmove. simpl. exists k'. split; [by apply tabs_get_moved|].
      split; [done|]. right. split; [|done].
      rewrite (windows_get_ext k' w1) by done.
      rewrite (windows_get_ext _ w w1) by done. by exists win.
Qed.

(** X5. When the resolver picks a group that no live window is bound to, no
    tab is moved, as the comment in the source says: the tab is left where it
    is.  The entries of the other groups are kept, and the entries of the
    group, which name windows that are gone, are dropped unless the tab's own
    window is one of them. *)
Theorem handleTabNavigation_unbound_group (config : Config) (tabId : N)
    (url title : option string) (currentWindowId : N) (g : Group) (w : World) :
  enabled config = true → isInternalUrl url = false →
  findMatchingGroup config url title = Some g →
  (∀ k, getWindowBindings w !! k = Some (name g) → windows_get k w = None) →
  let w' := handleTabNavigation config tabId url title currentWindowId w in
  tabs w' = tabs w ∧ windows w' = windows w ∧
  (∀ k n, n ≠ name g →
          getWindowBindings w' !! k = Some n ↔ getWindowBindings w !! k = Some n) ∧
  (getWindowBindings w !! currentWindowId ≠ Some (name g) →
   ∀ k, getWindowBindings w' !! k ≠ Some (name g)).
Proof.
  intros Hen Hint Hg Hdead. cbv zeta.
  unfold handleTabNavigation. rewrite Hen, Hint, Hg. simpl.
  unfold getWindowBindings in *.
  case_bool_decide as Hcur; [done|].
  destruct (findWindowForGroup (name g) w) as [target w1] eqn:E.
  destruct (findWindowForGroup_spec (name g) w) as (Hw & Ht & _ & Hk & Hsome & Hnone).
  rewrite E in Hw, Ht, Hk, Hsome, Hnone. simpl in Hw, Ht, Hk, Hsome, Hnone.
  destruct target as [k|].
  { exfalso. destruct (Hsome k eq_refl) as [Hb Hlive].
    rewrite (Hdead k Hb) in Hlive. by destruct Hlive. }
  split; [done|]. split; [done|]. split.
  - intros k n Hn. destruct (Hk k) as [Heq|(Hgone & Hb & _)]; [by rewrite Heq|].
    rewrite Hgone, Hb. split; [done|congruence].
  - intros _ k Hb. destruct (Hk k) as [Heq|(Hgone & _)]; [|congruence].
    rewrite Heq in Hb. destruct (Hnone eq_refl k Hb) as [_ Hgone]. congruence.
Qed.

(** X6. When no group matches: without a catch-all window, with the catch-all
    window 0, in the catch-all window itself, or with a catch-all window that
    is gone, nothing changes; otherwise the tab, if it exists, is moved to the
    catch-all window, and the table is left as it is. *)
Theorem handleTabNavigation_catch_all (config : Config) (tabId : N)
    (url title : option string) (currentWindowId : N) (w : World) :
  enabled config = true → isInternalUrl url = false →
  findMatchingGroup config url title = None →
  let w' := handleTabNavigation config tabId url title currentWindowId w in
  match catchAllWindowId config with
  | None => w' = w
  | Some catchAll =>
      if bool_decide (catchAll = 0 ∨ catchAll = currentWindowId) then w' = w
      else
        match windows_get catchAll w, tabs_get tabId w with
        | Some _, Some T =>
            tabs_get tabId w' = Some (with_windowId catchAll T) ∧
            getWindowBindings w' = getWindowBindings w ∧
            windows w' = windows w
        | _, _ => w' = w
        end
  end.
Proof.
  intros Hen Hint Hg. cbv zeta.
  unfold handleTabNavigation. rewrite Hen, Hint, Hg. simpl.
  destruct (catchAllWindowId config) as [c|]; [|done].
  unfold truthy_id.
  destruct (decide (c = 0)) as [->|Hc0].
  { by rewrite bool_decide_eq_true_2 by (by left). }
  rewrite (bool_decide_eq_false_2 (c = 0)) by done. simpl.
  destruct (decide (c = currentWindowId)) as [->|Hcur].
  { by rewrite !bool_decide_eq_true_2 by (done || by right). }
  rewrite (bool_decide_eq_false_2 (currentWindowId = c)) by done.
  rewrite bool_decide_eq_false_2 by (by intros [?|?]).
  pose proof (moveTabToWindow_spec tabId c w) as Hmove. cbv zeta in Hmove.
  destruct (windows_get c w) as [win|] eqn:Hlive; [|done].
  destruct (tabs_get tabId w) as [T|] eqn:HT; rewrite Hmove; simpl; [|done].
  split; [|done]. apply tabs_get_moved. by apply tabs_get_id in HT as [? _].
Qed.

(** X7. Routing settles at once: when the handler is run again for the same
    page, with the tab's window as it is after the first run, it changes
    nothing. *)
Theorem handleTabNavigation_settles (config : Config) (tabId : N)
    (url title : option string) (currentWindowId : N) (w : World) :
  (∀ T, tabs_get tabId w = Some T → tab_windowId T = currentWindowId) →
  let w' := handleTabNavigation config tabId url title currentWindowId w in
  let currentWindowId' := from_option tab_windowId currentWindowId (tabs_get tabId w') in
  handleTabNavigation config tabId url title currentWindowId' w' = w'.
Proof.
  intros Hcur.
  pose proof (handleTabNavigation_cases config tabId url title currentWindowId w) as H.
  cbv zeta in *.
  assert (∀ w1, tabs w1 = tabs w →
            from_option tab_windowId currentWindowId (tabs_get tabId w1)
            = currentWindowId) as Hsame.
  { intros w1 Ht. rewrite (tabs_get_ext _ w w1) by done.
    destruct (tabs_get tabId w) as [T|] eqn:HT; [by apply Hcur|done]. }
  destruct H as [Heq|[(g & target & w1 & Hen & Hint & Hg & Hb & E & Hend)
                     |(c & Hen & Hint & Hg & Hc & Hc0 & Hcc & Hlive & Heq)]].
  - rewrite Heq, (Hsame w) by done. exact Heq.
  - destruct (findWindowForGroup_frame _ _ _ _ E) as (Hw & Ht & _ & _).
    pose proof (findWindowForGroup_again _ _ _ _ E) as E'.
    destruct Hend as [[Htarget ->]|(k & -> & Hk0 & Hkc & ->)].
    + rewrite (Hsame w1) by done.
      unfold handleTabNavigation. rewrite Hen, Hint, Hg. simpl.
      case_bool_decide; [done|]. rewrite E'.
      destruct Htarget as [->|[->| ->]]; [done|done|].
      by rewrite bool_decide_eq_true_2, andb_false_r.
    + pose proof (moveTabToWindow_spec tabId k w1) as Hmove. cbv zeta in Hmove.
      destruct (findWindowForGroup_least _ _ _ _ E) as (_ & [win Hwin] & Hb' & _).
      rewrite (windows_get_ext _ w w1), Hwin in Hmove by done.
      destruct (tabs_get tabId w1) as [T|] eqn:HT.
      * rewrite Hmove. simpl.
        rewrite tabs_get_moved by (by apply tabs_get_id in HT as [? _]). simpl.
        unfold handleTabNavigation. rewrite Hen, Hint, Hg. simpl.
        unfold getWindowBindings. simpl.
        by rewrite bool_decide_eq_true_2.
      * rewrite Hmove. simpl. rewrite HT. simpl.
        unfold handleTabNavigation. rewrite Hen, Hint, Hg. simpl.
        case_bool_decide; [done|]. rewrite E'.
        unfold truthy_id.
        rewrite (bool_decide_eq_false_2 (k = 0)), (bool_decide_eq_false_2 (k = _))
          by done.
        simpl. by rewrite Hmove.
  - pose proof (moveTabToWindow_spec tabId c w) as Hmove. cbv zeta in Hmove.
    destruct Hlive as [win Hwin]. rewrite Hwin in Hmove.
    destruct (tabs_get tabId w) as [T|] eqn:HT.
    + rewrite Heq, Hmove. simpl.
      rewrite tabs_get_moved by (by apply tabs_get_id in HT as [? _]). simpl.
      unfold handleTabNavigation. rewrite Hen, Hint, Hg, Hc. simpl.
      unfold truthy_id. rewrite (bool_decide_eq_false_2 (c = 0)) by done. simpl.
      by rewrite bool_decide_eq_true_2.
    + rewrite Heq, Hmove. simpl. rewrite HT. simpl.
      unfold handleTabNavigation. rewrite Hen, Hint, Hg, Hc. simpl.
      unfold truthy_id. rewrite (bool_decide_eq_false_2 (c = 0)) by done. simpl.
      rewrite bool_decide_eq_false_2 by done. rewrite Hwin. by rewrite Hmove.
Qed.

(** X8. The listeners never route an internal page: an update of a tab whose
    URL is absent, empty or internal changes nothing, and so does an update
    that changes neither the URL nor the title, and a new tab whose pending
    URL is absent, empty or internal. *)
Theorem listeners_skip_internal_pages (config : Config) (w : World) :
  (∀ tabId changeInfo tab,
     isInternalUrl (tab_url tab) = true →
     onUpdated config tabId changeInfo tab w = w) ∧
  (∀ tabId changeInfo tab,
     truthy_text (change_url changeInfo) = false →
     truthy_text (change_title changeInfo) = false →
     onUpdated config tabId changeInfo tab w = w) ∧
  (∀ tab pendingUrl,
     isInternalUrl pendingUrl = true →
     onCreated config tab pendingUrl w = w).
Proof.
  split; [|split].
  - intros tabId changeInfo tab Hint. unfold onUpdated, handleTabNavigation.
    rewrite Hint. by repeat case_match.
  - intros tabId changeInfo tab Hu Ht. unfold onUpdated. by rewrite Hu, Ht.
  - intros tab pendingUrl Hint. unfold onCreated, handleTabNavigation.
    rewrite Hint. by repeat case_match.
Qed.

End Navigation.

(** The tab sits in the window of B and resolves to A, whose window 100 is
    live: it is moved there. *)
Lemma handleTabNavigation_routes_witness :
  ∃ target,
    tabs_get 1 (@handleTabNavigation sample_host by_name_config 1
                  (tab_url tab_in_B) (tab_title tab_in_B) 200 routed_world)
    = Some (with_windowId target tab_in_B) ∧
    getWindowBindings
      (@handleTabNavigation sample_host by_name_config 1
         (tab_url tab_in_B) (tab_title tab_in_B) 200 routed_world) !! target
    = Some "A" ∧
    (target = 200 ∨
     (is_Some (windows_get target
                 (@handleTabNavigation sample_host by_name_config 1
                    (tab_url tab_in_B) (tab_title tab_in_B) 200 routed_world))
      ∧ target ≤ 100
      ∧ getWindowBindings routed_world !! 200 ≠ Some "A")).
Proof.
  apply (@handleTabNavigation_routes sample_host by_name_config tab_in_B
           (tab_url tab_in_B) (tab_title tab_in_B) group_A 100 routed_world).
  - reflexivity.
  - reflexivity.
  - by vm_compute.
  - by vm_compute.
  - intros window Hin. by_cases_on_list Hin; by subst.
  - by vm_compute.
  - by eexists.
Defined.

(** The group 3003 is bound to the window 999 only, which is gone. *)
Lemma handleTabNavigation_unbound_group_witness :
  tabs (@handleTabNavigation sample_host sorted_config 1
          (Some "http://localhost:3003/app") (Some "App") 100 stale_world)
  = tabs stale_world ∧
  getWindowBindings
    (@handleTabNavigation sample_host sorted_config 1
       (Some "http://localhost:3003/app") (Some "App") 100 stale_world) !! 999
  ≠ Some "3003".
Proof.
  destruct (@handleTabNavigation_unbound_group sample_host sorted_config 1
              (Some "http://localhost:3003/app") (Some "App") 100
              group_3003 stale_world) as (Htabs & _ & _ & Hgone).
  - reflexivity.
  - reflexivity.
  - by vm_compute.
  - intros k Hk. unfold stale_world, getWindowBindings in Hk. simpl in Hk.
    apply lookup_singleton_Some in Hk as [<- _]. by vm_compute.
  - split; [exact Htabs|]. apply Hgone. by vm_compute.
Defined.

(** A tab that matches no group is moved to the catch-all window 200. *)
Lemma handleTabNavigation_catch_all_witness :
  tabs_get 7 (@handleTabNavigation sample_host catch_all_config 7
                (tab_url tab_other) (tab_title tab_other) 100 catch_all_world)
  = Some (with_windowId 200 tab_other).
Proof.
  pose proof (@handleTabNavigation_catch_all sample_host catch_all_config 7
                (tab_url tab_other) (tab_title tab_other) 100 catch_all_world
                eq_refl eq_refl eq_refl) as H.
  apply H.
Defined.

(** The second run for the tab moved to the window of A. *)
Lemma handleTabNavigation_settles_witness :
  @handleTabNavigation sample_host by_name_config 1
    (tab_url tab_in_B) (tab_title tab_in_B) 100
    (@handleTabNavigation sample_host by_name_config 1
       (tab_url tab_in_B) (tab_title tab_in_B) 200 routed_world)
  = @handleTabNavigation sample_host by_name_config 1
      (tab_url tab_in_B) (tab_title tab_in_B) 200 routed_world.
Proof.
  apply (@handleTabNavigation_settles sample_host by_name_config 1
           (tab_url tab_in_B) (tab_title tab_in_B) 200 routed_world).
  intros T HT. vm_compute in HT. by injection HT as <-.
Defined.

(** ** What a pass of the batch sorter does to the browser *)

Lemma only_stale_dropped_trans w0 w w' :
  windows w = windows w0 →
  only_stale_dropped w0 w → only_stale_dropped w w' → only_stale_dropped w0 w'.
Proof.
  intros Hw H1 H2 k. destruct (H2 k) as [Heq|[Hnone Hdead]].
  - rewrite Heq. apply H1.
  - right. split; [done|]. by rewrite <- (windows_get_ext k w0 w).
Qed.

Lemma tab_content_with_windowId k t : tab_content (with_windowId k t) = tab_content t.
Proof. done. Qed.

Lemma filter_out_Permutation (l : list Tab) t :
  NoDup (tab_id <$> l) → t ∈ l →
  filter (λ t', tab_id t' ≠ tab_id t) l ++ [t] ≡ₚ l.
Proof.
  induction l as [|a l IH]; intros Hnd Hin; [by apply elem_of_nil in Hin|].
  rewrite fmap_cons in Hnd. apply NoDup_cons in Hnd as [Ha Hnd].
  apply elem_of_cons in Hin as [->|Hin].
  - rewrite filter_cons_False by (intros H; by apply H).
    assert (filter (λ t', tab_id t' ≠ tab_id a) l = l) as ->.
    { clear IH Hnd. induction l as [|b l IH]; [done|].
      rewrite fmap_cons in Ha. apply not_elem_of_cons in Ha as [Hab Ha].
      rewrite filter_cons_True by done. f_equal. by apply IH. }
    by rewrite Permutation_app_comm.
  - assert (tab_id a ≠ tab_id t) as Hne.
    { intros Heq. apply Ha. rewrite Heq. by apply list_elem_of_fmap_2. }
    rewrite filter_cons_True by done. simpl. constructor. by apply IH.
Qed.

Lemma tab_content_id (l l' : list Tab) :
  tab_content <$> l ≡ₚ tab_content <$> l' → tab_id <$> l ≡ₚ tab_id <$> l'.
Proof.
  intros Hp.
  assert (∀ l : list Tab, tab_id <$> l = (λ c : N * option string * option string, c.1.1)
                                          <$> (tab_content <$> l)) as Hid.
  { intros l0. rewrite <- list_fmap_compose. done. }
  rewrite (Hid l), (Hid l'). by rewrite Hp.
Qed.

Section PassProperties.
Context {host : Host}.

Lemma isCandidate_true config group (b : gmap N string) window tab :
  isCandidate config group b window tab = true →
  isInternalUrl (tab_url tab) = false ∧
  tabMatchesGroup (tab_url tab) (tab_title tab) group = true.
Proof.
  unfold isCandidate.
  destruct (isInternalUrl (tab_url tab)); [done|].
  by destruct (tabMatchesGroup (tab_url tab) (tab_title tab) group).
Qed.

(** The two ways the body of the move loop ends: nothing is moved, or the tab
    is moved to the window found for the group.  The [catch] block is not
    reached: the tab and the window were found to exist just before the
    move. *)
Lemma moveCandidate_outcome group st item :
  ∃ target w1,
    findWindowForGroup (name group)
      (emit [Attempt (name group) (tab_id item.1)] (st_world st)) = (target, w1) ∧
    (moveCandidate group st item = set_world w1 st ∨
     ∃ k T,
       target = Some k ∧ k ≠ 0 ∧ tabs_get (tab_id item.1) w1 = Some T ∧
       moveCandidate group st item =
         {| st_world :=
              emit [Moved (name group) (tab_id item.1) k]
                (set_tabs (filter (λ t', tab_id t' ≠ tab_id item.1) (tabs w1)
                           ++ [with_windowId k T]) w1);
            movedCount := S (movedCount st);
            st_errors := st_errors st |}).
Proof.
  unfold moveCandidate. cbv zeta.
  destruct (findWindowForGroup (name group) _) as [target w1] eqn:E.
  exists target, w1. split; [done|].
  destruct (tabs_get (tab_id item.1) w1) as [T|] eqn:HT; [|by left].
  destruct target as [k|]; [|by left].
  unfold truthy_id. case_bool_decide as Hk0; simpl; [by left|].
  case_bool_decide as Hsame; simpl; [by left|].
  destruct (findWindowForGroup_least _ _ _ _ E) as (_ & Hlive & _).
  destruct (findWindowForGroup_frame _ _ _ _ E) as (Hw & _).
  rewrite <- (windows_get_ext k _ _ Hw) in Hlive.
  rewrite (tabs_move_succeeds (tab_id item.1) k w1 T) by done.
  right. exists k, T. done.
Qed.

Lemma pass_from_refl config w0 st :
  pass_from config w0 (set_world w0 st) (set_world w0 st).
Proof.
  unfold pass_from. simpl. split_and!; try done.
  - apply only_stale_dropped_refl.
  - intros T' HT'. by exists T'.
  - exists []. rewrite app_nil_r. simpl. split; [done|]. split; [lia|constructor].
Qed.

Lemma pass_from_emit config w0 st0 st es :
  pass_from config w0 st0 st → moved_tabs es = [] →
  Forall (justified config w0) es →
  pass_from config w0 st0 (set_world (emit es (st_world st)) st).
Proof.
  intros (Hw & Hk & Ht & Hp & He & es0 & Htr & Hc & Hj) Hes Hjs.
  unfold pass_from. simpl. split_and!; try done.
  exists (es0 ++ es). rewrite Htr, app_assoc. split; [done|]. split.
  - unfold moved_tabs in *. rewrite omap_app, Hes, app_nil_r. done.
  - by apply Forall_app.
Qed.

Lemma pass_from_findWindowForGroup config w0 st0 st groupName target w1 :
  pass_from config w0 st0 st →
  findWindowForGroup groupName (st_world st) = (target, w1) →
  pass_from config w0 st0 (set_world w1 st).
Proof.
  intros (Hw & Hk & Ht & Hp & He & es0 & Htr & Hc & Hj) E.
  destruct (findWindowForGroup_frame _ _ _ _ E) as (Hw1 & Ht1 & Htr1 & Hk1).
  unfold pass_from. simpl. split_and!; try done.
  - congruence.
  - by apply (only_stale_dropped_trans w0 (st_world st)).
  - by rewrite Ht1.
  - by rewrite Ht1.
  - exists es0. by rewrite Htr1.
Qed.

Lemma moveCandidate_pass config w0 st0 group st item :
  group ∈ groups config →
  pass_from config w0 st0 st →
  (∃ T, T ∈ tabs w0 ∧ tab_content item.1 = tab_content T) →
  isInternalUrl (tab_url item.1) = false →
  tabMatchesGroup (tab_url item.1) (tab_title item.1) group = true →
  pass_from config w0 st0 (moveCandidate group st item).
Proof.
  intros Hgroup Hpass (T0 & HT0 & Hcontent) Hint Hmatch.
  destruct (moveCandidate_outcome group st item) as (target & w1 & E & Hout).
  assert (pass_from config w0 st0 (set_world w1 st)) as Hpass1.
  { apply (pass_from_findWindowForGroup config w0 st0
             (set_world (emit [Attempt (name group) (tab_id item.1)] (st_world st)) st)
             (name group) target w1); [|done].
    apply pass_from_emit; [done|done|]. by repeat constructor. }
  destruct Hout as [->|(k & T & -> & Hk0 & HT & ->)]; [done|].
  destruct Hpass1 as (Hw & Hk & Ht & Hp & He & es0 & Htr & Hc & Hj).
  simpl in *.
  destruct (findWindowForGroup_least _ _ _ _ E) as (_ & Hlive & Hb & _).
  destruct (findWindowForGroup_frame _ _ _ _ E) as (Hw1 & _).
  simpl in Hlive. rewrite <- (windows_get_ext k _ _ Hw1) in Hlive.
  rewrite (windows_get_ext k w0 w1) in Hlive by done.
  apply tabs_get_id in HT as [Hid HT].
  unfold pass_from. simpl. split_and!; try done.
  - intros T' [[_ HT']%list_elem_of_filter| ->%list_elem_of_singleton]%elem_of_app.
    + by apply Ht.
    + rewrite tab_content_with_windowId. by apply Ht.
  - intros Hnd. specialize (Hp Hnd). rewrite <- Hp.
    rewrite fmap_app, fmap_cons, fmap_nil, tab_content_with_windowId.
    rewrite <- (fmap_nil tab_content), <- fmap_cons, <- fmap_app.
    apply fmap_Permutation. rewrite <- Hid. apply filter_out_Permutation; [|done].
    rewrite (tab_content_id _ _ Hp). done.
  - exists (es0 ++ [Moved (name group) (tab_id item.1) k]).
    rewrite Htr, app_assoc. split; [done|]. split.
    + unfold moved_tabs in *. rewrite omap_app, length_app. simpl. lia.
    + apply Forall_app. split; [done|]. constructor; [|constructor].
      simpl. split; [done|]. split.
      { destruct (Hk k) as [Heq|[Hnone _]]; [by rewrite <- Heq|congruence]. }
      split; [done|].
      exists group, T0. split_and!; try done.
      * by injection Hcontent as <- _ _.
      * by injection Hcontent as _ <- _.
      * by injection Hcontent as _ <- <-.
Qed.

Lemma moveCandidates_pass config w0 st0 group items st :
  group ∈ groups config →
  pass_from config w0 st0 st →
  Forall (λ item : Tab * N,
            (∃ T, T ∈ tabs w0 ∧ tab_content item.1 = tab_content T) ∧
            isInternalUrl (tab_url item.1) = false ∧
            tabMatchesGroup (tab_url item.1) (tab_title item.1) group = true) items →
  pass_from config w0 st0 (foldl (moveCandidate group) st items).
Proof.
  intros Hgroup Hpass Hitems. revert st Hpass.
  induction Hitems as [|item items (Hpre & Hint & Hmatch) _ IH]; intros st Hpass;
    simpl; [done|].
  apply IH. by apply moveCandidate_pass.
Qed.

Lemma processGroup_pass config w0 st0 st group :
  group ∈ groups config →
  pass_from config w0 st0 st →
  pass_from config w0 st0 (processGroup config st group).
Proof.
  intros Hgroup Hpass. unfold processGroup. cbv zeta.
  destruct (findWindowForGroup (name group) _) as [target w1] eqn:E.
  assert (pass_from config w0 st0 (set_world w1 st)) as Hpass1.
  { apply (pass_from_findWindowForGroup config w0 st0
             (set_world (emit [Processing (name group)] (st_world st)) st)
             (name group) target w1); [|done].
    apply pass_from_emit; [done|done|]. by repeat constructor. }
  apply moveCandidates_pass; [done| |].
  - apply (pass_from_emit config w0 st0 (set_world w1 st)); [done| |].
    + apply moved_tabs_candidates.
    + apply Forall_candidates. done.
  - apply Forall_forall. intros [tab k] Hin.
    apply collectTabsToMove_elem in Hin
      as (window & wtabs & Hwin & Htab & _ & _ & Hcand).
    apply isCandidate_true in Hcand as [Hint Hmatch].
    apply windows_getAll_elem with (tab := tab) in Hwin as (_ & Hin & _); [|done].
    simpl in Hin. destruct Hpass as (_ & _ & Ht & _).
    split; [by apply Ht|done].
Qed.

Lemma processGroups_pass config w0 st0 gs st :
  (∀ g, g ∈ gs → g ∈ groups config) →
  pass_from config w0 st0 st →
  pass_from config w0 st0 (foldl (processGroup config) st gs).
Proof.
  revert st. induction gs as [|g gs IH]; intros st Hgs Hpass; simpl; [done|].
  apply IH.
  - intros g' Hg'. apply Hgs. by right.
  - apply processGroup_pass; [|done]. apply Hgs. by left.
Qed.

Lemma sortAllTabs_pass config w :
  pass_from config w {| st_world := w; movedCount := 0; st_errors := [] |}
            (sortAllTabs config w).
Proof.
  unfold sortAllTabs.
  pose proof (pass_from_refl config w
                {| st_world := w; movedCount := 0; st_errors := [] |}) as Hrefl.
  case_match; [exact Hrefl|].
  apply processGroups_pass; [|exact Hrefl].
  intros g Hg. by rewrite <- (sortedGroups_Permutation config).
Qed.

(** X9. A pass of [sortAllTabs] over tabs with distinct identifiers neither
    opens nor closes a window, and neither creates, closes nor alters a tab:
    the tabs after the pass are the tabs before it, each with its identifier,
    URL and title, in some window.  The table loses at most entries of
    windows that are gone. *)
Theorem sortAllTabs_only_relocates (config : Config) (w : World) :
  NoDup (tab_id <$> tabs w) →
  let st := sortAllTabs config w in
  windows (st_world st) = windows w ∧
  tab_content <$> tabs (st_world st) ≡ₚ tab_content <$> tabs w ∧
  only_stale_dropped w (st_world st).
Proof.
  intros Hnd. destruct (sortAllTabs_pass config w) as (Hw & Hk & _ & Hp & _).
  cbv zeta. split; [done|]. split; [by apply Hp|done].
Qed.

(** X10. Run without another listener in between, [sortAllTabs] records no
    error, and the number it reports is the number of moves it made. *)
Theorem sortAllTabs_counts_its_moves (config : Config) (w : World) :
  let st := sortAllTabs config w in
  st_errors st = [] ∧
  ∃ es, trace (st_world st) = trace w ++ es ∧
        movedCount st = length (moved_tabs es).
Proof.
  destruct (sortAllTabs_pass config w) as (_ & _ & _ & _ & He & es & Htr & Hc & _).
  cbv zeta. split; [done|]. exists es. split; [done|]. simpl in Hc. lia.
Qed.

(** X11. Every move of a pass is justified: the tab is moved to a live
    window, other than 0, that the table held bound to the group when the
    pass began, and the tab is one of the tabs the pass began with, has a URL
    that is not internal, and matches the group by URL or title. *)
Theorem sortAllTabs_moves_are_justified (config : Config) (w : World) :
  let st := sortAllTabs config w in
  ∃ es, trace (st_world st) = trace w ++ es ∧
        ∀ groupName tabId target,
          Moved groupName tabId target ∈ es →
          target ≠ 0 ∧
          getWindowBindings w !! target = Some groupName ∧
          is_Some (windows_get target w) ∧
          ∃ group T,
            group ∈ groups config ∧ name group = groupName ∧
            T ∈ tabs w ∧ tab_id T = tabId ∧
            isInternalUrl (tab_url T) = false ∧
            tabMatchesGroup (tab_url T) (tab_title T) group = true.
Proof.
  destruct (sortAllTabs_pass config w) as (_ & _ & _ & _ & _ & es & Htr & _ & Hj).
  cbv zeta. exists es. split; [done|].
  intros groupName tabId target Hin.
  by apply (proj1 (Forall_forall _ _) Hj (Moved groupName tabId target)).
Qed.

End PassProperties.

(** The tab of [by_name_world] carries the only identifier. *)
Lemma sortAllTabs_only_relocates_witness :
  tab_content <$> tabs (st_world (@sortAllTabs sample_host by_name_config by_name_world))
  ≡ₚ tab_content <$> tabs by_name_world.
Proof.
  apply (@sortAllTabs_only_relocates sample_host by_name_config by_name_world).
  compute_done.
Defined.

(** ** The table the startup rebinder builds *)

Section RebindTable.
Context {host : Host}.




End RebindTable.

(** ** The binding table: what a request changes *)

(** X13. After [bindWindow windowId groupName] the table is the old one with
    every entry for the group removed and the entry of the window set: the
    entries of the other windows for other groups are kept, and the group the
    window was bound to before loses it.  When the window is then closed, the
    group is left without a window: the entry that the binding displaced does
    not come back. *)
Theorem bindWindow_table (w : World) (windowId : N) (groupName : string) :
  getWindowBindings (bindWindow windowId groupName w)
  = <[windowId := groupName]>
      (filter (λ kv, kv.2 ≠ groupName) (getWindowBindings w)) ∧
  getWindowBindings (onRemoved windowId (bindWindow windowId groupName w))
  = filter (λ kv, kv.2 ≠ groupName) (delete windowId (getWindowBindings w)).
Proof.
  assert (∀ k, k ≠ windowId →
            evict (Some windowId) groupName (stored_windowBindings w) !! k
            = filter (λ kv : N * string, kv.2 ≠ groupName) (stored_windowBindings w) !! k)
    as Hother.
  { intros k Hne.
    destruct (stored_windowBindings w !! k) as [n|] eqn:Hk.
    - destruct (decide (n = groupName)) as [->|Hn].
      + rewrite evict_lookup_evicted by (done || congruence).
        symmetry. apply map_lookup_filter_None. right. intros x Hx. simpl.
        rewrite Hk in Hx. injection Hx as <-. by intros H.
      + rewrite evict_lookup_kept by (left; congruence).
        rewrite Hk. symmetry. by apply map_lookup_filter_Some.
    - rewrite evict_lookup_kept by (left; congruence).
      rewrite Hk. symmetry. apply map_lookup_filter_None. by left. }
  unfold onRemoved, unbindWindow, bindWindow, getWindowBindings. simpl. split.
  - apply map_eq. intros k. destruct (decide (k = windowId)) as [->|Hne].
    + by rewrite !lookup_insert_eq.
    + rewrite !lookup_insert_ne by done. by apply Hother.
  - apply map_eq. intros k. destruct (decide (k = windowId)) as [->|Hne].
    + rewrite lookup_delete_eq. symmetry. apply map_lookup_filter_None. left.
      apply lookup_delete_eq.
    + rewrite lookup_delete_ne, lookup_insert_ne, Hother by done.
      destruct (stored_windowBindings w !! k) as [n|] eqn:Hk.
      * destruct (decide (n = groupName)) as [->|Hn].
        -- rewrite (proj2 (map_lookup_filter_None _ (stored_windowBindings w) k)).
           ++ symmetry. apply map_lookup_filter_None. right. intros x Hx.
              rewrite lookup_delete_ne, Hk in Hx by done. injection Hx as <-.
              simpl. by intros H.
           ++ right. intros x Hx. rewrite Hk in Hx. injection Hx as <-.
              simpl. by intros H.
        -- rewrite (proj2 (map_lookup_filter_Some _ (stored_windowBindings w) k n))
             by done.
           symmetry. apply map_lookup_filter_Some. split; [|done].
           by rewrite lookup_delete_ne.
      * rewrite (proj2 (map_lookup_filter_None _ (stored_windowBindings w) k))
          by (by left).
        symmetry. apply map_lookup_filter_None. left.
        by rewrite lookup_delete_ne.
Qed.

(** X14. For a window other than 0, the [bindWindowToGroup] request of the
    options page does what the [bindWindow] request of the popup does.  For
    the window 0, which the handler reads as no window, it binds nothing, and
    unbinds the group from every other window. *)
Theorem bindWindowToGroup_as_bindWindow (w : World) (windowId : N)
    (groupName : string) :
  (windowId ≠ 0 →
   bindWindowToGroup (Some windowId) groupName w = bindWindow windowId groupName w) ∧
  (∀ k, k ≠ 0 →
        getWindowBindings (bindWindowToGroup (Some 0) groupName w) !! k
        ≠ Some groupName) ∧
  getWindowBindings (bindWindowToGroup (Some 0) groupName w) !! 0
  = getWindowBindings w !! 0.
Proof.
  unfold bindWindowToGroup, bindWindow, getWindowBindings. split; [|split].
  - intros Hne. unfold truthy_id. by rewrite bool_decide_eq_false_2.
  - intros k Hk. simpl.
    destruct (decide (stored_windowBindings w !! k = Some groupName)) as [Hb|Hb].
    + rewrite evict_lookup_evicted by (done || congruence). done.
    + rewrite evict_lookup_kept by (by left). done.
  - simpl. apply evict_lookup_kept. by right.
Qed.

Lemma bindWindowToGroup_as_bindWindow_witness :
  bindWindowToGroup (Some 200) "3003" stale_world = bindWindow 200 "3003" stale_world.
Proof.
  by apply (proj1 (bindWindowToGroup_as_bindWindow stale_world 200 "3003")).
Defined.

(** ** The colour of a new tab group *)

(** X15. The colour chosen for a new tab group is one of the nine of the
    palette; it is the first colour of the palette that no tab group uses, so
    a colour in use is chosen only when all nine are in use, and then it is
    the first of the palette. *)
Theorem availableColor_is_free (usedColors : list string) :
  availableColor usedColors ∈ TAB_GROUP_COLORS ∧
  (availableColor usedColors ∈ usedColors →
   (∀ c, c ∈ TAB_GROUP_COLORS → c ∈ usedColors) ∧
   availableColor usedColors = "blue") ∧
  (∀ before after,
     TAB_GROUP_COLORS = before ++ availableColor usedColors :: after →
     availableColor usedColors ∉ usedColors →
     ∀ c, c ∈ before → c ∈ usedColors).
Proof.
  unfold availableColor.
  destruct (List.find _ TAB_GROUP_COLORS) as [c|] eqn:E.
  - pose proof E as [Hin Hfree]%find_some. apply list_elem_of_In in Hin.
    apply negb_true_iff, bool_decide_eq_false in Hfree.
    assert (truthy_string c = true) as ->.
    { unfold TAB_GROUP_COLORS in Hin. by_cases_on_list Hin; by subst. }
    split; [done|]. split; [done|].
    intros before after Hsplit _ c' Hc'.
    rewrite Hsplit in E.
    destruct (decide (c' ∈ usedColors)) as [|Hout]; [done|]. exfalso.
    apply list_elem_of_split in Hc' as (l1 & l2 & ->).
    rewrite <- !app_assoc, find_app in E. simpl in E.
    assert (NoDup TAB_GROUP_COLORS) as Hnd by compute_done.
    rewrite Hsplit, <- !app_assoc in Hnd. simpl in Hnd.
    apply NoDup_app in Hnd as (_ & _ & Hnd).
    apply NoDup_cons in Hnd as [Hc'c _].
    destruct (List.find _ l1) as [x|] eqn:E1.
    + injection E as ->. apply find_some in E1 as [Hx%list_elem_of_In _].
      assert (NoDup TAB_GROUP_COLORS) as Hnd' by compute_done.
      rewrite Hsplit, <- !app_assoc in Hnd'.
      apply NoDup_app in Hnd' as (_ & Hdisj & _).
      apply (Hdisj c Hx). right. apply elem_of_app. right. by left.
    + rewrite bool_decide_eq_false_2 in E by done. simpl in E.
      injection E as ->. apply Hc'c. apply elem_of_app. right. by left.
  - split; [compute_done|]. split.
    + intros _. split; [|done]. intros c Hc.
      apply list_elem_of_In in Hc.
      pose proof (find_none _ _ E c Hc) as Hused.
      by apply negb_false_iff, bool_decide_eq_true in Hused.
    + intros before after _ Hfree. exfalso. apply Hfree.
      assert ("blue" ∈ TAB_GROUP_COLORS) as Hb%list_elem_of_In by compute_done.
      pose proof (find_none _ _ E "blue" Hb) as Hused.
      by apply negb_false_iff, bool_decide_eq_true in Hused.
Qed.

(** ** The pattern tester of the options page *)

Lemma listedTabs_fmap {B C} (f : B → C) (item : Window → Tab → B) wins :
  f <$> listedTabs item wins = listedTabs (λ win tab, f (item win tab)) wins.
Proof.
  unfold listedTabs. induction wins as [|[win wtabs] wins IH]; [done|].
  simpl. rewrite fmap_app, IH. f_equal.
  case_bool_decide; [|done]. by rewrite <- list_fmap_compose.
Qed.



Section Tester.
Context {host : Host}.



(** X16. The answer to [testPatterns] lists the tabs that the answer to
    [getAllTabs] lists, in the same order and with the same fields: the tabs
    of the normal windows whose URL is not internal. *)
Theorem testPatterns_lists_getAllTabs (ps : option (list string))
    (simpleMode : option bool) (w : World) :
  without_matches <$> testPatterns ps simpleMode w = getAllTabs w.
Proof.
  unfold testPatterns, getAllTabs. cbv zeta. by rewrite listedTabs_fmap.
Qed.


End Tester.


(** ** Strings: trimming, lines, truncation *)
















(** ** The options page: the group dialog *)

Lemma Math_max_ge (values : list Z) x : x ∈ values → (x ≤ Math_max values)%Z.
Proof.
  unfold Math_max. induction values as [|y values IH]; intros Hin.
  - by apply elem_of_nil in Hin.
  - simpl. apply elem_of_cons in Hin as [->|Hin]; [lia|].
    specialize (IH Hin). lia.
Qed.


Lemma valid_groups_push config g :
  valid_groups config → name g ≠ "" →
  (∀ g0, g0 ∈ groups config → name g0 ≠ name g ∧ (priority g0 < priority g)%Z) →
  valid_groups {| enabled := enabled config; groups := groups config ++ [g];
                  catchAllWindowId := catchAllWindowId config |}.
Proof.
  intros (Hnames & Hne & Hpri) Hg Hnew. unfold valid_groups. simpl.
  split; [|split].
  - rewrite fmap_app. apply NoDup_app. split; [done|]. split; [|apply NoDup_singleton].
    intros n (g0 & -> & Hg0)%list_elem_of_fmap Hin.
    apply list_elem_of_singleton in Hin. by destruct (Hnew g0 Hg0).
  - intros g' [Hg'| ->%list_elem_of_singleton]%elem_of_app; [by apply Hne|done].
  - rewrite fmap_app. apply NoDup_app. split; [done|]. split; [|apply NoDup_singleton].
    intros p (g0 & -> & Hg0)%list_elem_of_fmap Hin.
    apply list_elem_of_singleton in Hin. destruct (Hnew g0 Hg0). lia.
Qed.

Section Dialog.
Context {pageHost : PageHost}.

(** X19. A call of [saveModal] ends in one of three ways: the page is left as
    it is (the group being edited is gone); an error is shown and nothing
    else changes; or the configuration is sent to the service worker, the
    dialog is closed, and the status reads "Group added".  The status never
    becomes "Group updated": the dialog is closed, and the index of the
    edited group cleared, before the message is chosen. *)
Theorem saveModal_outcomes (page : Page) :
  let page' := saveModal page in
  (page' = page ∨
   (∃ message, page' = showStatus message "error" page) ∨
   (status page' = Some ("Group added", "success") ∧
    editingGroupIndex page' = None ∧
    saved page' = saved page ++ [(currentConfig page', catchAllGroupName page')])) ∧
  (∀ type, status page' = Some ("Group updated", type) →
           status page = Some ("Group updated", type)).
Proof.
  cbv zeta. unfold saveModal.
  destruct (negb (truthy_string (trim (groupNameInput page)))).
  { split; [right; left; by eexists|done]. }
  case_bool_decide.
  { split; [right; left; by eexists|done]. }
  destruct (if bool_decide (matchModeInput page = "regex") then _ else None)
    as [pattern|].
  { split; [right; left; by eexists|done]. }
  destruct (editingGroupIndex page) as [i|].
  - destruct (groups (currentConfig page) !! i) as [old|]; [|by split; [left|]].
    split; [|by case_bool_decide].
    right. right. by case_bool_decide.
  - destruct (existsb _ _).
    { split; [right; left; by eexists|done]. }
    split; [|done]. right. right. done.
Qed.



End Dialog.

(** X22. On its initial load the page gives the mode ["simple"] to every
    group that has none and changes nothing else; doing so twice is doing so
    once.  The service worker reads a group without a mode as a group of
    regular expressions, so that for such a group the page and the service
    worker differ until the page saves the configuration. *)
Theorem loadGroups_gives_every_group_a_mode (gs : list Group) :
  loadGroups (loadGroups gs) = loadGroups gs ∧
  ((∀ g, g ∈ gs → mode g ≠ "") → loadGroups gs = gs) ∧
  (∀ i g, gs !! i = Some g →
     ∃ g', loadGroups gs !! i = Some g' ∧
           name g' = name g ∧ patterns g' = patterns g ∧
           priority g' = priority g ∧ mode g' ≠ "" ∧
           (mode g ≠ "" → g' = g) ∧
           (mode g = "" → isSimple g = false ∧ isSimple g' = true)).
Proof.
  assert (∀ m, mode_or_simple (mode_or_simple m) = mode_or_simple m) as Hidem.
  { intros m. unfold mode_or_simple, truthy_string.
    by repeat (case_bool_decide; simpl). }
  assert (∀ m, m ≠ "" → mode_or_simple m = m) as Hkeep.
  { intros m Hm. unfold mode_or_simple, truthy_string.
    by rewrite bool_decide_eq_false_2. }
  unfold loadGroups. split; [|split].
  - rewrite <- list_fmap_compose. apply list_fmap_ext. intros i g _. simpl.
    by rewrite Hidem.
  - intros Hall. rewrite <- (list_fmap_id gs) at 2.
    apply list_fmap_ext. intros i g Hi. simpl.
    rewrite Hkeep by (apply Hall; by eapply list_elem_of_lookup_2).
    by destruct g.
  - intros i g Hi. rewrite list_lookup_fmap, Hi. simpl. eexists. split; [done|].
    simpl. split_and!; try done.
    + unfold mode_or_simple, truthy_string. by case_bool_decide.
    + intros Hm. rewrite Hkeep by done. by destruct g.
    + intros Hm. unfold isSimple. simpl. rewrite Hm. done.
Qed.



(** ** The options page: priorities *)

Lemma StronglySorted_lookup {A} (R : A → A → Prop) l (i j : nat) x y :
  StronglySorted R l → (i < j)%nat → l !! i = Some x → l !! j = Some y → R x y.
Proof.
  intros Hs. revert i j. induction Hs as [|a l Hs IH Ha]; intros i j Hij Hi Hj.
  - done.
  - destruct j as [|j]; [lia|]. destruct i as [|i]; simpl in *.
    + injection Hi as <-. eapply Forall_forall in Ha; [done|].
      by eapply list_elem_of_lookup_2.
    + apply (IH i j); [lia|done|done].
Qed.

Lemma StronglySorted_fmap_2 {A B} (f : A → B) (R : A → A → Prop) (R' : B → B → Prop) l :
  (∀ x y, R x y → R' (f x) (f y)) → StronglySorted R l → StronglySorted R' (f <$> l).
Proof.
  intros Hf. induction 1 as [|a l Hs IH Ha]; [constructor|].
  rewrite fmap_cons. constructor; [done|].
  apply Forall_fmap. eapply Forall_impl; [exact Ha|]. intros y. apply Hf.
Qed.

Lemma StronglySorted_seq (n : nat) :
  StronglySorted Z.le (Z.of_nat <$> seq 0 n).
Proof.
  generalize 0%nat. induction n as [|n IH]; intros start; [constructor|].
  simpl. constructor; [apply IH|].
  apply Forall_fmap, Forall_forall. intros x [Hx _]%elem_of_seq. simpl. lia.
Qed.

Lemma sortedByPriority_Permutation gs :
  sortedByPriority gs ≡ₚ imap (λ k g, (k, g)) gs.
Proof. apply Array_sort_Permutation. Qed.

Lemma sortedByPriority_elem gs k g :
  (k, g) ∈ sortedByPriority gs ↔ gs !! k = Some g.
Proof.
  rewrite sortedByPriority_Permutation, elem_of_lookup_imap. split.
  - by intros (i & x & [= -> ->] & Hi).
  - intros Hk. by exists k, g.
Qed.

Lemma sortedByPriority_keys gs :
  (sortedByPriority gs).*1 ≡ₚ seq 0 (length gs).
Proof.
  rewrite sortedByPriority_Permutation, fmap_imap.
  rewrite (imap_ext _ (λ k _, k)) by done.
  rewrite (imap_seq_0 gs (λ k, k)). by rewrite list_fmap_id.
Qed.

Lemma sortedByPriority_length gs : length (sortedByPriority gs) = length gs.
Proof. unfold sortedByPriority. by rewrite Array_sort_length, length_imap. Qed.

Lemma sortedByPriority_keys_NoDup gs : NoDup (sortedByPriority gs).*1.
Proof. rewrite sortedByPriority_keys. apply NoDup_seq. Qed.

Lemma sortedByPriority_sorted gs :
  StronglySorted (λ a b : nat * Group, (priority a.2 ≤ priority b.2)%Z)
                 (sortedByPriority gs).
Proof.
  eapply StronglySorted_weaken; [|apply Array_sort_sorted].
  - intros x y. unfold precedes. lia.
  - intros x y. unfold precedes. lia.
  - intros x y z. unfold precedes. lia.
Qed.

Lemma sortedByPriority_position gs (i j : nat) k g g' :
  sortedByPriority gs !! i = Some (k, g) → sortedByPriority gs !! j = Some (k, g') →
  i = j.
Proof.
  intros Hi Hj. pose proof (sortedByPriority_keys_NoDup gs) as Hnd.
  apply (proj1 (NoDup_alt _) Hnd i j k); rewrite list_lookup_fmap.
  - by rewrite Hi.
  - by rewrite Hj.
Qed.

(** The loop [forEach] over [sorted], from the position [off] on. *)
Lemma renumber_fold (sl : list (nat * Group)) (off : nat) (gs : list Group) :
  NoDup sl.*1 →
  let after :=
    foldl (λ gs' '(i, (k, _)), alter (set_priority (Z.of_nat i)) k gs')
          gs (imap (λ i kg, ((off + i)%nat, kg)) sl) in
  (∀ (j k : nat), sl.*1 !! j = Some k →
     after !! k = set_priority (Z.of_nat (off + j)) <$> gs !! k) ∧
  (∀ k : nat, k ∉ sl.*1 → after !! k = gs !! k).
Proof.
  revert off gs. induction sl as [|[k0 g0] sl IH]; intros off gs Hnd; cbv zeta.
  - split; [done|]. done.
  - rewrite fmap_cons in Hnd. apply NoDup_cons in Hnd as [Hk0 Hnd].
    rewrite imap_cons. cbn [foldl].
    rewrite (imap_ext _ (λ i kg, ((S off + i)%nat, kg)))
      by (intros i x _; simpl; f_equal; lia).
    destruct (IH (S off) (alter (set_priority (Z.of_nat (off + 0))) k0 gs) Hnd)
      as [Hin Hout]. cbv zeta in Hin, Hout.
    split.
    + intros [|j] k Hj; simpl in Hj.
      * injection Hj as <-. rewrite Hout by done. apply list_lookup_alter_eq.
      * rewrite (Hin j k Hj).
        assert (k0 ≠ k) as Hne.
        { intros ->. apply Hk0. by eapply list_elem_of_lookup_2. }
        rewrite list_lookup_alter_ne by done.
        by replace (S off + j)%nat with (off + S j)%nat by lia.
    + intros k [Hne Hk]%not_elem_of_cons. rewrite Hout by done.
      by rewrite list_lookup_alter_ne.
Qed.

Lemma renumber_lookup gs (j k : nat) g :
  sortedByPriority gs !! j = Some (k, g) →
  renumber gs !! k = Some (set_priority (Z.of_nat j) g).
Proof.
  intros Hj. unfold renumber.
  destruct (renumber_fold (sortedByPriority gs) 0 gs (sortedByPriority_keys_NoDup gs))
    as [Hin _]. cbv zeta in Hin. simpl in Hin.
  rewrite (Hin j k) by (by rewrite list_lookup_fmap, Hj).
  apply list_elem_of_lookup_2, sortedByPriority_elem in Hj. by rewrite Hj.
Qed.

Lemma renumber_length gs : length (renumber gs) = length gs.
Proof.
  unfold renumber. generalize (imap (λ i kg, (i, kg)) (sortedByPriority gs)).
  intros l. revert gs. induction l as [|[i [k g]] l IH]; intros gs; [done|].
  simpl. by rewrite IH, length_alter.
Qed.

Lemma renumber_lookup_inv gs (k : nat) g' :
  renumber gs !! k = Some g' →
  ∃ (j : nat) g, sortedByPriority gs !! j = Some (k, g) ∧ gs !! k = Some g ∧
                 g' = set_priority (Z.of_nat j) g.
Proof.
  intros Hk.
  assert (k < length gs)%nat as Hlt.
  { rewrite <- renumber_length. by eapply lookup_lt_Some. }
  destruct (lookup_lt_is_Some_2 gs k Hlt) as [g Hg].
  pose proof Hg as Hj. apply sortedByPriority_elem, list_elem_of_lookup in Hj.
  destruct Hj as [j Hj].
  exists j, g. split; [done|]. split; [done|].
  rewrite (renumber_lookup gs j k g Hj) in Hk. by injection Hk as <-.
Qed.

Lemma renumber_content gs : group_content <$> renumber gs = group_content <$> gs.
Proof.
  apply list_eq. intros k. rewrite !list_lookup_fmap.
  destruct (renumber gs !! k) as [g'|] eqn:Hk.
  - apply renumber_lookup_inv in Hk as (j & g & _ & -> & ->). done.
  - apply lookup_ge_None in Hk. rewrite renumber_length in Hk.
    by rewrite (lookup_ge_None_2 gs k).
Qed.

Lemma renumber_numbered gs : numbered (renumber gs).
Proof.
  unfold numbered. rewrite renumber_length. apply NoDup_Permutation.
  - apply NoDup_alt. intros a b x. rewrite !list_lookup_fmap.
    destruct (renumber gs !! a) as [ga|] eqn:Ha; [|done].
    destruct (renumber gs !! b) as [gb|] eqn:Hb; [|done].
    apply renumber_lookup_inv in Ha as (ja & ga0 & Hja & _ & ->).
    apply renumber_lookup_inv in Hb as (jb & gb0 & Hjb & _ & ->).
    simpl. intros [= <-] [= Heq]. apply Nat2Z.inj in Heq. subst jb.
    rewrite Hja in Hjb. by injection Hjb as ->.
  - apply NoDup_fmap_2; [apply _|apply NoDup_seq].
  - intros x. rewrite !list_elem_of_fmap. split.
    + intros (g' & -> & [k Hk]%list_elem_of_lookup).
      apply renumber_lookup_inv in Hk as (j & g & Hj & _ & ->).
      exists j. split; [done|]. apply elem_of_seq.
      apply lookup_lt_Some in Hj. rewrite sortedByPriority_length in Hj. lia.
    + intros (j & -> & [_ Hj]%elem_of_seq).
      rewrite <- (sortedByPriority_length gs) in Hj. simpl in Hj.
      destruct (lookup_lt_is_Some_2 _ _ Hj) as [[k g] Hk].
      exists (set_priority (Z.of_nat j) g). split; [done|].
      eapply list_elem_of_lookup_2. by apply (renumber_lookup gs j k g).
Qed.

Lemma renumber_order gs (a b : nat) ga gb ga' gb' :
  gs !! a = Some ga → gs !! b = Some gb →
  renumber gs !! a = Some ga' → renumber gs !! b = Some gb' →
  (priority ga < priority gb)%Z → (priority ga' < priority gb')%Z.
Proof.
  intros Ha Hb Ha' Hb' Hlt.
  apply renumber_lookup_inv in Ha' as (ja & ga0 & Hja & Ha0 & ->).
  apply renumber_lookup_inv in Hb' as (jb & gb0 & Hjb & Hb0 & ->).
  rewrite Ha in Ha0. injection Ha0 as <-. rewrite Hb in Hb0. injection Hb0 as <-.
  simpl. destruct (decide (ja < jb)%nat) as [|Hge]; [lia|]. exfalso.
  destruct (decide (ja = jb)) as [->|Hne].
  - rewrite Hja in Hjb. injection Hjb as -> ->. lia.
  - pose proof (StronglySorted_lookup _ _ jb ja _ _
                  (sortedByPriority_sorted gs) ltac:(lia) Hjb Hja) as Hle.
    simpl in Hle. lia.
Qed.

Lemma renumber_fixed gs : numbered gs → renumber gs = gs.
Proof.
  intros Hnum.
  assert ((λ kg : nat * Group, priority kg.2) <$> sortedByPriority gs
          = Z.of_nat <$> seq 0 (length gs)) as Hpl.
  { apply (StronglySorted_unique Z.le).
    - eapply StronglySorted_fmap_2; [|apply sortedByPriority_sorted]. done.
    - apply StronglySorted_seq.
    - rewrite sortedByPriority_Permutation, fmap_imap.
      rewrite (imap_ext _ (const priority)) by done.
      by rewrite imap_const. }
  apply list_eq. intros k.
  destruct (renumber gs !! k) as [g'|] eqn:Hk.
  - apply renumber_lookup_inv in Hk as (j & g & Hj & -> & ->).
    f_equal. destruct g as [n ps p m]. unfold set_priority. simpl. f_equal.
    assert (((λ kg : nat * Group, priority kg.2) <$> sortedByPriority gs) !! j
            = Some p) as Hp.
    { by rewrite list_lookup_fmap, Hj. }
    rewrite Hpl, list_lookup_fmap in Hp.
    destruct (seq 0 (length gs) !! j) as [x|] eqn:Hx; [|done].
    apply lookup_seq in Hx as [-> _]. simpl in Hp. by injection Hp.
  - apply lookup_ge_None in Hk. rewrite renumber_length in Hk.
    by rewrite (lookup_ge_None_2 gs k).
Qed.

Lemma swap_Permutation {A} (l : list A) (a b : nat) x y :
  l !! a = Some x → l !! b = Some y → <[a := y]> (<[b := x]> l) ≡ₚ l.
Proof.
  intros Ha Hb. destruct (decide (a = b)) as [->|Hab].
  { rewrite Ha in Hb. injection Hb as <-.
    by rewrite list_insert_insert_eq, list_insert_id. }
  apply Permutation_inj. split; [by rewrite !length_insert|].
  exists (λ i, if decide (i = a) then b else if decide (i = b) then a else i).
  split.
  - intros i j. repeat case_decide; intros; subst; congruence.
  - intros i. pose proof (lookup_lt_Some _ _ _ Ha). pose proof (lookup_lt_Some _ _ _ Hb).
    repeat case_decide; subst.
    + rewrite list_lookup_insert_eq by (by rewrite length_insert). done.
    + rewrite list_lookup_insert_ne, list_lookup_insert_eq by done. done.
    + by rewrite !list_lookup_insert_ne.
Qed.

Lemma list_alter_as_insert {A} (f : A → A) (l : list A) (i : nat) x :
  l !! i = Some x → alter f i l = <[i := f x]> l.
Proof.
  intros Hi. apply list_eq. intros j. destruct (decide (i = j)) as [<-|Hne].
  - rewrite list_lookup_alter_eq, Hi, list_lookup_insert_eq; [done|].
    by eapply lookup_lt_Some.
  - by rewrite list_lookup_alter_ne, list_lookup_insert_ne.
Qed.

Lemma list_find_by_name (gs : list Group) (a : nat) g :
  NoDup (name <$> gs) → gs !! a = Some g →
  list_find (λ g', name g' = name g) gs = Some (a, g).
Proof.
  intros Hnd Ha. apply list_find_Some. split; [done|]. split; [done|].
  intros j y Hj Hlt Heq.
  assert (j = a); [|lia].
  apply (proj1 (NoDup_alt _) Hnd j a (name g)); rewrite list_lookup_fmap.
  - by rewrite Hj, <- Heq.
  - by rewrite Ha.
Qed.

(** X23. [deleteGroup] does nothing when the user does not confirm.  When the
    user confirms, every group of that name is removed, the other groups
    stay in place with their names, patterns and modes, their priorities
    become the numbers from 0 on in some order, and a group that came before
    another by priority still does; a catch-all group name naming the
    deleted group is cleared, and the configuration is sent to the service
    worker. *)
Theorem deleteGroup_renumbers (page : Page) (groupName : string) :
  deleteGroup false groupName page = page ∧
  let page' := deleteGroup true groupName page in
  let kept := List.filter (λ g, negb (bool_decide (name g = groupName)))
                          (groups (currentConfig page)) in
  group_content <$> groups (currentConfig page') = group_content <$> kept ∧
  (∀ g, g ∈ groups (currentConfig page') → name g ≠ groupName) ∧
  numbered (groups (currentConfig page')) ∧
  (∀ (a b : nat) ga gb ga' gb',
     kept !! a = Some ga → kept !! b = Some gb →
     groups (currentConfig page') !! a = Some ga' →
     groups (currentConfig page') !! b = Some gb' →
     (priority ga < priority gb)%Z → (priority ga' < priority gb')%Z) ∧
  catchAllGroupName page' =
    (if bool_decide (catchAllGroupName page = Some groupName) then None
     else catchAllGroupName page) ∧
  saved page' = saved page ++ [(currentConfig page', catchAllGroupName page')].
Proof.
  split; [done|]. cbv zeta. unfold deleteGroup. cbn [negb].
  set (kept := List.filter _ (groups (currentConfig page))).
  set (page1 := if bool_decide (catchAllGroupName (set_groups kept page)
                                = Some groupName)
                then set_catchAllGroupName None (set_groups kept page)
                else set_groups kept page).
  assert (groups (currentConfig page1) = kept) as Hgs.
  { unfold page1. by destruct (bool_decide _). }
  assert (catchAllGroupName page1 =
            if bool_decide (catchAllGroupName page = Some groupName) then None
            else catchAllGroupName page) as Hcatch.
  { unfold page1. simpl. by destruct (bool_decide _). }
  assert (saved page1 = saved page) as Hsaved.
  { unfold page1. by destruct (bool_decide _). }
  simpl. rewrite Hgs, Hcatch, Hsaved.
  split; [apply renumber_content|]. split; [|split; [apply renumber_numbered|]].
  - intros g Hg Hname.
    assert (group_content g ∈ group_content <$> renumber kept) as Hc
      by (by apply list_elem_of_fmap_2).
    rewrite renumber_content in Hc.
    apply list_elem_of_fmap in Hc as (g0 & Heq & Hg0).
    apply list_elem_of_In, filter_In in Hg0 as [_ Hkeep].
    apply negb_true_iff, bool_decide_eq_false in Hkeep.
    apply Hkeep. injection Heq as <- _ _. done.
  - split; [|done].
    intros a b ga gb ga' gb'. apply renumber_order.
Qed.

(** X24. Dropping a row on another swaps the priorities of the two groups and
    changes no other group, when the names of the groups are distinct and
    their priorities are the numbers from 0 on, as the page leaves them: the
    dragged group takes the place of the target in the order, and the target
    the place of the dragged group.  The configuration is sent to the service
    worker. *)
Theorem handleDrop_swaps_priorities (page : Page) (draggedRow this : Row)
    (a b : nat) (ga gb : Group) :
  row_index draggedRow ≠ row_index this →
  NoDup (name <$> groups (currentConfig page)) →
  numbered (groups (currentConfig page)) →
  groups (currentConfig page) !! a = Some ga → name ga = dataset_name draggedRow →
  groups (currentConfig page) !! b = Some gb → name gb = dataset_name this →
  let page' := handleDrop draggedRow this page in
  groups (currentConfig page')
  = <[a := set_priority (priority gb) ga]>
      (<[b := set_priority (priority ga) gb]> (groups (currentConfig page))) ∧
  saved page' = saved page ++ [(currentConfig page', catchAllGroupName page')] ∧
  status page' = Some ("Priority updated", "success").
Proof.
  intros Hrows Hnd Hnum Ha Hna Hb Hnb. cbv zeta. unfold handleDrop.
  rewrite bool_decide_eq_false_2 by done.
  rewrite <- Hna, <- Hnb.
  rewrite (list_find_by_name _ a ga), (list_find_by_name _ b gb) by done.
  set (gs := groups (currentConfig page)) in *.
  assert (alter (set_priority (priority ga)) b (alter (set_priority (priority gb)) a gs)
          = <[a := set_priority (priority gb) ga]>
              (<[b := set_priority (priority ga) gb]> gs)) as Hswap.
  { destruct (decide (a = b)) as [->|Hab].
    - rewrite Ha in Hb. injection Hb as <-.
      rewrite (list_alter_as_insert _ gs b ga) by done.
      rewrite (list_alter_as_insert _ _ b (set_priority (priority ga) ga)).
      + by rewrite !list_insert_insert_eq.
      + apply list_lookup_insert_eq. by eapply lookup_lt_Some.
    - rewrite (list_alter_as_insert _ gs a ga) by done.
      rewrite (list_alter_as_insert _ _ b gb) by (by rewrite list_lookup_insert_ne).
      by rewrite list_insert_insert_ne. }
  rewrite Hswap. simpl. split; [|done].
  apply renumber_fixed. unfold numbered. rewrite !length_insert.
  rewrite !list_fmap_insert. simpl. unfold numbered in Hnum. rewrite <- Hnum.
  apply swap_Permutation; rewrite list_lookup_fmap.
  - by rewrite Ha.
  - by rewrite Hb.
Qed.

(** ** The options page: templates *)

(** The group [addTemplates] makes of a template. *)
Lemma TEMPLATES_get_Some id template :
  TEMPLATES_get id = Some template →
  template_name template ≠ "" ∧ mode_or_simple (template_mode template) = "simple".
Proof.
  unfold TEMPLATES_get. intros H.
  destruct (List.find _ TEMPLATES) as [[id' t]|] eqn:E; [|done].
  simpl in H. injection H as ->.
  apply find_some in E as [Hin%list_elem_of_In _].
  unfold TEMPLATES in Hin.
  by_cases_on_list Hin; injection Hin as _ Heq; by rewrite Heq.
Qed.

Section Templates.
Context {host : Host}.

Lemma addTemplate_cases page added id :
  addTemplate (page, added) id = (page, added) ∨
  ∃ template,
    TEMPLATES_get id = Some template ∧
    (∀ g, g ∈ groups (currentConfig page) →
          toLowerCase (name g) ≠ toLowerCase (template_name template)) ∧
    addTemplate (page, added) id =
      (set_groups (groups (currentConfig page)
                   ++ [{| name := template_name template;
                          patterns := template_patterns template;
                          mode := mode_or_simple (template_mode template);
                          priority :=
                            Math_max (priority <$> groups (currentConfig page)) + 1 |}])
                  page, S added).
Proof.
  unfold addTemplate.
  destruct (TEMPLATES_get id) as [template|] eqn:Ht; [|by left].
  destruct (existsb _ _) eqn:Hex; [by left|].
  right. exists template. split; [done|]. split; [|done].
  intros g Hg Heq. apply not_true_iff_false in Hex. apply Hex.
  apply existsb_exists. exists g. split; [by apply list_elem_of_In|].
  by apply bool_decide_eq_true.
Qed.

Lemma addTemplate_covers page added id :
  covers (addTemplate (page, added) id).1 id ∧
  ∀ id', covers page id' → covers (addTemplate (page, added) id).1 id'.
Proof.
  unfold addTemplate, covers.
  destruct (TEMPLATES_get id) as [template|] eqn:Ht.
  - destruct (existsb _ (groups (currentConfig page))) eqn:Hex; simpl.
    + split; [|done]. intros t [= <-]. done.
    + split.
      * intros t [= <-].
        rewrite existsb_app. simpl. rewrite bool_decide_eq_true_2 by done.
        by rewrite orb_true_r.
      * intros id' Hc t Ht'. rewrite existsb_app, (Hc t Ht'). done.
  - simpl. split; [|done]. intros t Ht'. done.
Qed.

Lemma addTemplates_fold_covers ids st :
  (∀ id, covers st.1 id → covers (foldl addTemplate st ids).1 id) ∧
  (∀ id, id ∈ ids → covers (foldl addTemplate st ids).1 id).
Proof.
  revert st. induction ids as [|id ids IH]; intros [page added]; cbn [foldl].
  - split; [done|]. intros id Hid. by apply elem_of_nil in Hid.
  - destruct (IH (addTemplate (page, added) id)) as [Hmono Hall].
    destruct (addTemplate_covers page added id) as [Hid Hkeep].
    split.
    + intros id' Hc. by apply Hmono, Hkeep.
    + intros id' [->|Hin]%elem_of_cons; [by apply Hmono|by apply Hall].
Qed.

Lemma addTemplates_fold_settled ids page added :
  (∀ id, id ∈ ids → covers page id) →
  foldl addTemplate (page, added) ids = (page, added).
Proof.
  induction ids as [|id ids IH]; intros Hall; cbn [foldl]; [done|].
  assert (addTemplate (page, added) id = (page, added)) as ->.
  { unfold addTemplate.
    destruct (TEMPLATES_get id) as [template|] eqn:Ht; [|done].
    assert (id ∈ id :: ids) as Hid by (by left).
    by rewrite (Hall id Hid template Ht). }
  apply IH. intros id' Hin. apply Hall. by right.
Qed.

Lemma addTemplates_fold_added ids ids' page0 st :
  (∀ id, id ∈ ids' → id ∈ ids) →
  templates_added ids page0 st →
  templates_added ids page0 (foldl addTemplate st ids').
Proof.
  revert st. induction ids' as [|id ids' IH]; intros [page added] Hsub Hst; [done|].
  cbn [foldl]. apply IH; [intros id' Hin; apply Hsub; by right|].
  destruct (addTemplate_cases page added id) as [->|(t & Ht & Hfresh & ->)]; [done|].
  destruct Hst as (Hen & Hcatch & (news & Hnews & Hall & Hold & Hnd) & Hvalid).
  destruct (TEMPLATES_get_Some id t Ht) as [Hname Hmode].
  simpl in *. unfold templates_added. simpl. split; [done|]. split; [done|]. split.
  - eexists (news ++ [_]). rewrite Hnews, <- app_assoc. split; [done|].
    split; [|split].
    + apply Forall_app. split; [done|]. constructor; [|constructor].
      exists id, t. split; [apply Hsub; by left|]. done.
    + intros g g0 [Hg| ->%list_elem_of_singleton]%elem_of_app Hg0;
        [by apply Hold|].
      simpl. apply Hfresh. rewrite Hnews. apply elem_of_app. by left.
    + rewrite fmap_app. apply NoDup_app. split; [done|].
      split; [|apply NoDup_singleton].
      intros n (g & -> & Hg)%list_elem_of_fmap Hin.
      apply list_elem_of_singleton in Hin. simpl in Hin.
      apply (Hfresh g); [|done]. rewrite Hnews. apply elem_of_app. by right.
  - intros Hv. apply (valid_groups_push (currentConfig page)); [by apply Hvalid|done|].
    intros g0 Hg0. simpl. split.
    { intros Heq. apply (Hfresh g0 Hg0). by rewrite Heq. }
    pose proof (Math_max_ge (priority <$> groups (currentConfig page)) (priority g0))
      as Hle.
    rewrite list_elem_of_fmap in Hle.
    specialize (Hle (ex_intro _ g0 (conj eq_refl Hg0))). lia.
Qed.

(** X25. [addTemplates] only appends groups, each made of a template among
    the identifiers given, in simple mode.  A template is skipped when a
    group already has its name up to case: no appended group has the name
    of an earlier group or of another appended group once both names are
    put in lower case, and afterwards every template asked for has a group
    of its name, up to case.  A valid list of groups stays valid, and adding
    the same templates again changes nothing, not even the status line. *)
Theorem addTemplates_appends_new_templates (templateIds : list string) (page : Page) :
  let page' := addTemplates templateIds page in
  (∃ news,
     groups (currentConfig page') = groups (currentConfig page) ++ news ∧
     Forall (λ g, ∃ id template,
                    id ∈ templateIds ∧ TEMPLATES_get id = Some template ∧
                    name g = template_name template ∧
                    patterns g = template_patterns template ∧
                    mode g = "simple") news ∧
     (∀ g g0, g ∈ news → g0 ∈ groups (currentConfig page) →
              toLowerCase (name g0) ≠ toLowerCase (name g)) ∧
     NoDup ((λ g, toLowerCase (name g)) <$> news)) ∧
  (∀ id template,
     id ∈ templateIds → TEMPLATES_get id = Some template →
     ∃ g, g ∈ groups (currentConfig page') ∧
          toLowerCase (name g) = toLowerCase (template_name template)) ∧
  (valid_groups (currentConfig page) → valid_groups (currentConfig page')) ∧
  addTemplates templateIds page' = page'.
Proof.
  cbv zeta.
  assert (templates_added templateIds page (foldl addTemplate (page, 0%nat) templateIds))
    as (_ & _ & Hnews & Hvalid).
  { apply addTemplates_fold_added; [done|].
    unfold templates_added. simpl. split; [done|]. split; [done|]. split; [|done].
    exists []. rewrite app_nil_r. split_and!; try done.
    - intros g g0 Hg. by apply elem_of_nil in Hg.
    - constructor. }
  destruct (addTemplates_fold_covers templateIds (page, 0%nat)) as [_ Hcov].
  assert (currentConfig (addTemplates templateIds page)
          = currentConfig (foldl addTemplate (page, 0%nat) templateIds).1) as Hconfig.
  { unfold addTemplates.
    destruct (foldl addTemplate (page, 0%nat) templateIds) as [page1 added].
    by destruct (0 <? added)%nat. }
  rewrite Hconfig. split; [done|]. split; [|split; [done|]].
  - intros id template Hid Ht.
    pose proof (Hcov id Hid template Ht) as Hex.
    apply existsb_exists in Hex as (g & Hg%list_elem_of_In & Heq%bool_decide_eq_true).
    by exists g.
  - unfold addTemplates at 1. rewrite addTemplates_fold_settled; [done|].
    intros id Hid. unfold covers. rewrite Hconfig. by apply Hcov.
Qed.

End Templates.

(** On the sample host: the page has a group ["development"], so that the
    template [development], whose name is ["Development"], is skipped, and
    the template [github] is added. *)
Lemma addTemplates_appends_new_templates_witness :
  name <$> groups (currentConfig
                     (@addTemplates sample_host ["development"; "github"]
                                    lower_case_page))
  = ["development"; "GitHub"] ∧
  ∀ g, g ∈ groups (currentConfig
                     (@addTemplates sample_host ["development"; "github"]
                                    lower_case_page)) →
       name g ≠ "Development".
Proof.
  split; [by vm_compute|].
  destruct (@addTemplates_appends_new_templates sample_host
              ["development"; "github"] lower_case_page)
    as ((news & Hgroups & _ & Hfresh & _) & _).
  intros g Hg Hname. rewrite Hgroups in Hg.
  apply elem_of_app in Hg as [Hg|Hg].
  - by_cases_on_list Hg. by subst g.
  - apply (Hfresh g (simple_group "development" ["dev.example"] 0) Hg); [by left|].
    rewrite Hname. by vm_compute.
Defined.

(** Two groups of [sorted_config], which are numbered 0 and 1: dropping the
    row of the first on the row of the second. *)
Lemma handleDrop_swaps_priorities_witness :
  priority <$> groups (currentConfig
                         (handleDrop {| row_index := 0; dataset_name := "3003" |}
                                     {| row_index := 1; dataset_name := "3004" |}
                                     (page_of sorted_config)))
  = [1%Z; 0%Z].
Proof.
  assert (NoDup (name <$> groups (currentConfig (page_of sorted_config)))) as Hnd
    by compute_done.
  assert (numbered (groups (currentConfig (page_of sorted_config)))) as Hnum
    by (unfold numbered; simpl; reflexivity).
  pose proof (handleDrop_swaps_priorities (page_of sorted_config)
                {| row_index := 0; dataset_name := "3003" |}
                {| row_index := 1; dataset_name := "3004" |}
                0%nat 1%nat group_3003 group_3004'
                ltac:(done) Hnd Hnum eq_refl eq_refl eq_refl eq_refl) as H.
  cbv zeta in H. destruct H as [Hgs _]. rewrite Hgs. reflexivity.
Defined.

(** ** Import: the configuration it leaves *)

Lemma js_or_truthy a b :
  truthy_json (Some b) = true → truthy_json (Some (js_or a b)) = true.
Proof.
  intros Hb. unfold js_or. destruct (truthy_json a) eqn:Ha; [|done].
  by destruct a.
Qed.

Lemma js_or_settled v b : truthy_json (Some v) = true → js_or (Some v) b = v.
Proof. intros Hv. unfold js_or. by rewrite Hv. Qed.

Lemma js_or_null_again a : js_or (Some (js_or a JNull)) JNull = js_or a JNull.
Proof.
  destruct (truthy_json a) eqn:Ha.
  - destruct a as [v|]; [|done]. unfold js_or. rewrite Ha. cbv [default from_option id]. by rewrite Ha.
  - unfold js_or. by rewrite Ha.
Qed.

Lemma importGroup_again i g : importGroup i (importGroup i g) = importGroup i g.
Proof.
  unfold importGroup at 1. unfold importGroup at 1 2 3 4. simpl.
  rewrite js_or_settled by (by apply js_or_truthy).
  unfold importGroup. do 5 f_equal.
  by destruct (get_field "priority" g) as [[]|].
Qed.

Lemma importGroup_checked i g :
  truthy_json (get_field "name" g) = true → isArray (get_field "patterns" g) = true →
  truthy_json (get_field "name" (importGroup i g)) = true ∧
  isArray (get_field "patterns" (importGroup i g)) = true ∧
  truthy_json (get_field "mode" (importGroup i g)) = true ∧
  js_nullish (get_field "priority" (importGroup i g)) JNull ≠ JNull.
Proof.
  intros Hname Hps. unfold importGroup. simpl. split_and!.
  - by destruct (get_field "name" g).
  - by destruct (get_field "patterns" g).
  - by apply js_or_truthy.
  - by destruct (get_field "priority" g) as [[]|].
Qed.

(** X26. What [importConfig] accepts it leaves in a settled form: [enabled] is
    a boolean, false only when the file says false; every group has a name,
    an array of patterns, a mode and a priority; and importing that
    configuration again gives the same configuration. *)
Theorem importConfig_settles (imported config : JSON) :
  importConfig imported = Normal config →
  importConfig config = Normal config ∧
  ∃ (b : bool) (gs : list JSON) (catchAll : JSON),
    config = JObject [("enabled", JBool b); ("groups", JArray gs);
                      ("catchAllWindowId", catchAll)] ∧
    (b = false ↔ get_field "enabled" imported = Some (JBool false)) ∧
    Forall (λ g, truthy_json (get_field "name" g) = true ∧
                 isArray (get_field "patterns" g) = true ∧
                 truthy_json (get_field "mode" g) = true ∧
                 js_nullish (get_field "priority" g) JNull ≠ JNull) gs.
Proof.
  unfold importConfig, importConfig_with.
  destruct (get_field "groups" imported) as [[| | | |importedGroups|]|]; try done.
  destruct (forallb _ importedGroups) eqn:Hcheck; [|done].
  intros [= <-].
  assert (∀ i g, imap importGroup importedGroups !! i = Some g →
            truthy_json (get_field "name" g) = true ∧
            isArray (get_field "patterns" g) = true ∧
            truthy_json (get_field "mode" g) = true ∧
            js_nullish (get_field "priority" g) JNull ≠ JNull) as Hgs.
  { intros i g Hi. rewrite list_lookup_imap in Hi.
    destruct (importedGroups !! i) as [g0|] eqn:Hg0; [|done].
    injection Hi as <-.
    pose proof (proj1 (forallb_forall _ _) Hcheck g0) as Hg.
    destruct (andb_prop _ _ (Hg (proj1 (list_elem_of_In _ _)
                                     (list_elem_of_lookup_2 _ _ _ Hg0)))).
    by apply importGroup_checked. }
  split.
  - simpl.
    assert (forallb (λ group, truthy_json (get_field "name" group)
                              && isArray (get_field "patterns" group))
                    (imap importGroup importedGroups) = true) as ->.
    { apply forallb_forall. intros g [i Hi]%list_elem_of_In%list_elem_of_lookup.
      destruct (Hgs i g Hi) as (-> & -> & _). done. }
    assert (imap importGroup (imap importGroup importedGroups)
            = imap importGroup importedGroups) as ->.
    { apply list_eq. intros i. rewrite !list_lookup_imap.
      destruct (importedGroups !! i); [|done]. simpl. by rewrite importGroup_again. }
    rewrite js_or_null_again. do 4 f_equal.
    by destruct (is_false (get_field "enabled" imported)).
  - eexists _, _, _. split; [done|]. split.
    + destruct (get_field "enabled" imported) as [[|[|]| | | |]|]; simpl; split; done.
    + apply Forall_forall. intros g [i Hi]%list_elem_of_lookup. by apply (Hgs i).
Qed.

(** What is exported for [sorted_config], imported. *)
Lemma importConfig_settles_witness :
  ∃ config, importConfig (exportConfig sorted_config) = Normal config ∧
            importConfig config = Normal config.
Proof.
  eexists. split; [reflexivity|].
  by apply (importConfig_settles (exportConfig sorted_config)).
Defined.

(** ** A second pass *)

Lemma moved_tabs_NoDup (l : list Tab) T k :
  NoDup (tab_id <$> l) → T ∈ l →
  NoDup (tab_id <$> (filter (λ t', tab_id t' ≠ tab_id T) l ++ [with_windowId k T])).
Proof.
  intros Hnd HT.
  assert (tab_id <$> (filter (λ t', tab_id t' ≠ tab_id T) l ++ [with_windowId k T])
          = tab_id <$> (filter (λ t', tab_id t' ≠ tab_id T) l ++ [T])) as ->
    by (by rewrite !fmap_app).
  by rewrite (filter_out_Permutation l T).
Qed.

Lemma only_stale_dropped_down w w' j n :
  only_stale_dropped w w' →
  getWindowBindings w' !! j = Some n → getWindowBindings w !! j = Some n.
Proof.
  unfold getWindowBindings. intros Hs Hj.
  destruct (Hs j) as [Heq|[Hnone _]]; congruence.
Qed.

Lemma only_stale_dropped_live w w' window :
  only_stale_dropped w w' → window ∈ windows w →
  getWindowBindings w' !! win_id window = getWindowBindings w !! win_id window.
Proof.
  unfold getWindowBindings. intros Hs Hwin.
  destruct (Hs (win_id window)) as [Heq|[_ Hdead]]; [done|].
  apply windows_get_live in Hwin as [? Hlive]. congruence.
Qed.

Lemma unbound_down groupName w w' :
  only_stale_dropped w w' → unbound groupName w → unbound groupName w'.
Proof.
  intros Hs Hu k Hk. apply (Hu k). by eapply only_stale_dropped_down.
Qed.

Lemma StronglySorted_priority_strict (gs : list Group) :
  StronglySorted (λ a b, (priority a ≤ priority b)%Z) gs →
  NoDup (priority <$> gs) →
  StronglySorted (λ a b, (priority a < priority b)%Z) gs.
Proof.
  induction 1 as [|x l Hl IH Hx]; intros Hnd; [constructor|].
  rewrite fmap_cons in Hnd. apply NoDup_cons in Hnd as [Hx' Hnd].
  constructor; [by apply IH|].
  apply Forall_forall. intros y Hy.
  pose proof (proj1 (Forall_forall _ _) Hx y Hy) as Hle. simpl in Hle.
  assert (priority x ≠ priority y); [|lia].
  intros Heq. apply Hx'. rewrite Heq. apply list_elem_of_fmap. by exists y.
Qed.

Section SecondPass.
Context {host : Host}.

Lemma collectTabsToMove_intro config g w (b : gmap N string) window tab :
  window ∈ windows w → tab ∈ tabs w → tab_windowId tab = win_id window →
  win_type window = normal → isCandidate config g b window tab = true →
  (tab, win_id window) ∈ collectTabsToMove config g (windows_getAll w) b.
Proof.
  intros Hwin Htab Hid Hty Hc. unfold collectTabsToMove.
  apply list_elem_of_In, in_flat_map.
  exists (window, filter (λ t, tab_windowId t = win_id window) (tabs w)). split.
  - apply list_elem_of_In. unfold windows_getAll. apply list_elem_of_fmap.
    by exists window.
  - rewrite bool_decide_eq_true_2 by done.
    apply list_elem_of_In, list_elem_of_fmap. exists tab. split; [done|].
    apply list_elem_of_In, filter_In. split; [|done].
    apply list_elem_of_In, list_elem_of_filter. done.
Qed.

(** A candidate of a group that comes later in the order, found where [g] has
    no candidate, does not match [g]. *)
Lemma later_candidate_skips config g g' (b : gmap N string) window tab :
  NoDup (name <$> groups config) → g ∈ groups config → name g ≠ "" →
  (priority g < priority g')%Z →
  isCandidate config g b window tab = false →
  isCandidate config g' b window tab = true →
  tabMatchesGroup (tab_url tab) (tab_title tab) g = false.
Proof.
  intros Hnd Hg Hne Hlt. unfold isCandidate.
  destruct (isInternalUrl _); [done|].
  destruct (tabMatchesGroup _ _ g) eqn:Hm; [|done].
  destruct (tabMatchesGroup _ _ g'); [|done]. simpl.
  destruct (b !! win_id window) as [cg|]; [|done].
  destruct (decide (cg = name g)) as [->|Hcg].
  - intros _. case_bool_decide; [done|].
    unfold truthy_string. rewrite bool_decide_eq_false_2 by done. simpl.
    rewrite find_by_name by done. intros H1%negb_true_iff%Z.ltb_ge. lia.
  - rewrite (bool_decide_eq_false_2 (cg = name g)) by done.
    destruct (truthy_string cg); [|done].
    destruct (List.find _ _) as [c|]; [|done].
    intros H1%negb_false_iff%Z.ltb_lt. case_bool_decide; [done|].
    intros H2%negb_true_iff%Z.ltb_ge. lia.
Qed.

(** *** The step of the move loop *)

Lemma moveCandidate_rearranges group st item :
  let st' := moveCandidate group st item in
  windows (st_world st') = windows (st_world st) ∧
  only_stale_dropped (st_world st) (st_world st') ∧
  ∀ T', T' ∈ tabs (st_world st') →
        T' ∈ tabs (st_world st) ∨
        ∃ T k, T ∈ tabs (st_world st) ∧ tab_id T = tab_id item.1 ∧
               T' = with_windowId k T.
Proof.
  destruct (moveCandidate_outcome group st item) as (target & w1 & E & Hend).
  apply findWindowForGroup_frame in E as (Hw1 & Ht1 & _ & Hb1).
  simpl in Hw1, Ht1.
  assert (only_stale_dropped (st_world st) w1) as Hs.
  { intros k. destruct (Hb1 k) as [?|[? Hdead]]; [by left|right].
    split; [done|]. rewrite <- Hdead. by apply windows_get_ext. }
  simpl. destruct Hend as [->|(k & T & _ & _ & Hget & ->)]; simpl.
  - split_and!; try done. intros T' HT'. left. by rewrite <- Ht1.
  - split_and!; try done. intros T' [HT'|HT']%elem_of_app.
    + left. apply list_elem_of_filter in HT' as [_ HT']. by rewrite <- Ht1.
    + right. apply list_elem_of_singleton in HT' as ->.
      apply tabs_get_id in Hget as [Hid HT]. exists T, k. by rewrite <- Ht1.
Qed.

Lemma moveCandidates_rearrange group items st :
  let st' := foldl (moveCandidate group) st items in
  windows (st_world st') = windows (st_world st) ∧
  only_stale_dropped (st_world st) (st_world st').
Proof.
  revert st. induction items as [|item items IH]; intros st; simpl.
  - split; [done|]. apply only_stale_dropped_refl.
  - destruct (moveCandidate_rearranges group st item) as (Hw & Hs & _).
    destruct (IH (moveCandidate group st item)) as (Hw' & Hs').
    simpl in *. split; [congruence|].
    by apply (only_stale_dropped_trans _ (st_world (moveCandidate group st item))).
Qed.

Lemma processGroup_rearranges config g st :
  g ∈ groups config →
  let st' := processGroup config st g in
  windows (st_world st') = windows (st_world st) ∧
  only_stale_dropped (st_world st) (st_world st') ∧
  (NoDup (tab_id <$> tabs (st_world st)) → NoDup (tab_id <$> tabs (st_world st'))).
Proof.
  intros Hg. destruct st as [w m e]. simpl.
  pose proof (processGroup_pass config w
                {| st_world := w; movedCount := m; st_errors := e |}
                {| st_world := w; movedCount := m; st_errors := e |} g Hg
                (pass_from_refl config w
                   {| st_world := w; movedCount := m; st_errors := e |}))
    as (Hw & Hs & _ & Hperm & _).
  split_and!; try done.
  intros Hnd. specialize (Hperm Hnd). apply tab_content_id in Hperm.
  by rewrite Hperm.
Qed.

(** *** The group that is processed *)

(** One step of the move loop of [g], whose window is [k]: the tab of the
    item is in [k] afterwards, and what is still a candidate is among the
    items to come. *)
Lemma moveCandidate_serves config g k item items st :
  k ≠ 0 →
  is_Some (windows_get k (st_world st)) →
  NoDup (tab_id <$> tabs (st_world st)) →
  getWindowBindings (st_world st) !! k = Some (name g) →
  (∀ j, getWindowBindings (st_world st) !! j = Some (name g) → ¬ j < k) →
  (∀ window tab,
     window ∈ windows (st_world st) → tab ∈ tabs (st_world st) →
     tab_windowId tab = win_id window → win_type window = normal →
     isCandidate config g (getWindowBindings (st_world st)) window tab = true →
     tab_id tab ∈ tab_id item.1 :: items) →
  let st' := moveCandidate g st item in
  is_Some (windows_get k (st_world st')) ∧
  NoDup (tab_id <$> tabs (st_world st')) ∧
  getWindowBindings (st_world st') !! k = Some (name g) ∧
  (∀ j, getWindowBindings (st_world st') !! j = Some (name g) → ¬ j < k) ∧
  (∀ window tab,
     window ∈ windows (st_world st') → tab ∈ tabs (st_world st') →
     tab_windowId tab = win_id window → win_type window = normal →
     isCandidate config g (getWindowBindings (st_world st')) window tab = true →
     tab_id tab ∈ items).
Proof.
  intros Hk Hlive Hnd Hb Hleast Hcand. unfold moveCandidate. cbv zeta.
  set (w0 := emit [Attempt (name g) (tab_id item.1)] (st_world st)).
  destruct (findWindowForGroup_live (name g) w0 k Hb Hlive) as (k' & w1 & E & Hle).
  rewrite E.
  destruct (findWindowForGroup_least _ _ _ _ E) as (Hb0 & _ & Hb1 & _).
  assert (k' = k) as ->.
  { destruct (decide (k' = k)) as [|Hne]; [done|]. exfalso.
    apply (Hleast k' Hb0). lia. }
  apply findWindowForGroup_frame in E as (Hw1 & Ht1 & _ & Hshrink).
  change (windows w0) with (windows (st_world st)) in Hw1.
  change (tabs w0) with (tabs (st_world st)) in Ht1.
  assert (only_stale_dropped (st_world st) w1) as Hs.
  { intros j. destruct (Hshrink j) as [?|[? Hdead]]; [by left|by right]. }
  assert (is_Some (windows_get k w1)) as Hlive1
    by (by rewrite (windows_get_ext k (st_world st) w1)).
  assert (∀ j, getWindowBindings w1 !! j = Some (name g) → ¬ j < k) as Hleast1.
  { intros j Hj. apply Hleast. by eapply only_stale_dropped_down. }
  assert (∀ window tab,
            window ∈ windows w1 → tab ∈ tabs (st_world st) →
            tab_windowId tab = win_id window → win_type window = normal →
            isCandidate config g (getWindowBindings w1) window tab = true →
            tab_id tab ∈ tab_id item.1 :: items) as Hcand1.
  { intros window tab Hwin Htab Hid Hty Hc. rewrite Hw1 in Hwin.
    apply (Hcand window tab); try done.
    by rewrite <- (isCandidate_ext config g _ _ window tab
                     (only_stale_dropped_live _ _ _ Hs Hwin)). }
  assert (∀ window tab, tab_windowId tab = win_id window → tab_windowId tab = k →
            isCandidate config g (getWindowBindings w1) window tab = false) as Hthere.
  { intros window tab Hid Hin. apply bound_not_candidate.
    unfold getWindowBindings. by rewrite <- Hid, Hin. }
  destruct (tabs_get (tab_id item.1) w1) as [T|] eqn:Hget.
  - pose proof Hget as [HidT HT]%tabs_get_id.
    unfold truthy_id. rewrite (bool_decide_eq_false_2 (k = 0)) by done. simpl.
    destruct (decide (k = tab_windowId T)) as [Hsame|Hdiff].
    + rewrite (bool_decide_eq_true_2 _ Hsame). simpl.
      split_and!; try done; [by rewrite Ht1|].
      intros window tab Hwin Htab Hid Hty Hc. rewrite Ht1 in Htab.
      pose proof (Hcand1 window tab Hwin Htab Hid Hty Hc) as [Heq|Hin]%elem_of_cons;
        [|done].
      exfalso. rewrite Ht1 in HT.
      assert (tab = T) as -> by (eapply NoDup_fmap_elem_inj; [exact Hnd|..]; congruence).
      by rewrite (Hthere window T) in Hc.
    + rewrite (bool_decide_eq_false_2 _ Hdiff). simpl.
      rewrite (tabs_move_succeeds (tab_id item.1) k w1 T) by done. simpl.
      split_and!; try done.
      * rewrite <- HidT, Ht1. apply moved_tabs_NoDup; [done|]. by rewrite <- Ht1.
      * intros window tab Hwin [Htab|Htab]%elem_of_app Hid Hty Hc.
        -- apply list_elem_of_filter in Htab as [Hother Htab]. rewrite Ht1 in Htab.
           pose proof (Hcand1 window tab Hwin Htab Hid Hty Hc)
             as [Heq|Hin]%elem_of_cons; done.
        -- apply list_elem_of_singleton in Htab as ->.
           pose proof (Hthere window (with_windowId k T) Hid eq_refl) as Hn.
           unfold getWindowBindings in *. simpl in Hc. congruence.
  - simpl. split_and!; try done; [by rewrite Ht1|].
    intros window tab Hwin Htab Hid Hty Hc. rewrite Ht1 in Htab.
    pose proof (Hcand1 window tab Hwin Htab Hid Hty Hc) as [Heq|Hin]%elem_of_cons;
      [|done].
    exfalso. unfold tabs_get in Hget.
    eapply find_none in Hget; [|apply list_elem_of_In; by rewrite Ht1].
    by rewrite bool_decide_eq_true_2 in Hget.
Qed.

Lemma moveCandidates_serve config g k items st :
  k ≠ 0 →
  is_Some (windows_get k (st_world st)) →
  NoDup (tab_id <$> tabs (st_world st)) →
  getWindowBindings (st_world st) !! k = Some (name g) →
  (∀ j, getWindowBindings (st_world st) !! j = Some (name g) → ¬ j < k) →
  (∀ window tab,
     window ∈ windows (st_world st) → tab ∈ tabs (st_world st) →
     tab_windowId tab = win_id window → win_type window = normal →
     isCandidate config g (getWindowBindings (st_world st)) window tab = true →
     tab_id tab ∈ (λ item : Tab * N, tab_id item.1) <$> items) →
  no_candidate config g (st_world (foldl (moveCandidate g) st items)).
Proof.
  intros Hk. revert st.
  induction items as [|item items IH]; intros st Hlive Hnd Hb Hleast Hcand; simpl.
  - intros window tab Hwin Htab Hid Hty.
    destruct (isCandidate _ _ _ _ _) eqn:Hc; [|done].
    by apply (Hcand window tab), elem_of_nil in Hc.
  - rewrite fmap_cons in Hcand.
    destruct (moveCandidate_serves config g k item _ st Hk Hlive Hnd Hb Hleast Hcand)
      as (Hlive' & Hnd' & Hb' & Hleast' & Hcand').
    by apply IH.
Qed.

(** After its turn a group has nothing left to do: it has lost its last
    entry of the table, or each of its candidates is in its window. *)
Lemma processGroup_serves config g st :
  positive_ids (st_world st) →
  NoDup (tab_id <$> tabs (st_world st)) →
  served config g (st_world (processGroup config st g)).
Proof.
  intros Hpos Hnd. unfold processGroup. cbv zeta.
  set (w0 := emit [Processing (name g)] (st_world st)).
  destruct (findWindowForGroup (name g) w0) as [target w1] eqn:E.
  pose proof (findWindowForGroup_spec (name g) w0) as (_ & _ & _ & _ & _ & Hnone).
  rewrite E in Hnone. simpl in Hnone.
  pose proof (findWindowForGroup_frame _ _ _ _ E) as (Hw1 & Ht1 & _ & Hshrink).
  change (windows w0) with (windows (st_world st)) in Hw1.
  change (tabs w0) with (tabs (st_world st)) in Ht1.
  assert (only_stale_dropped (st_world st) w1) as Hs.
  { intros j. destruct (Hshrink j) as [?|[? Hdead]]; [by left|by right]. }
  set (items := collectTabsToMove config g (windows_getAll w0) (getWindowBindings w0)).
  match goal with |- served _ _ (st_world (foldl _ ?s items)) => set (st1 := s) end.
  destruct target as [k|].
  - right. destruct (findWindowForGroup_least _ _ _ _ E) as (_ & Hlive & Hb1 & Hbelow).
    apply (moveCandidates_serve config g k items st1); subst st1; simpl.
    + intros ->. destruct Hlive as [win [Hin Hid]%windows_get_Some].
      by apply (Hpos win).
    + change (is_Some (windows_get k w1)). by rewrite (windows_get_ext k w0 w1).
    + by rewrite Ht1.
    + done.
    + intros j Hj Hlt.
      destruct (Hbelow j) as [_ Hgone]; [|done|].
      * by apply (only_stale_dropped_down _ _ _ _ Hs).
      * congruence.
    + intros window tab Hwin Htab Hid Hty Hc.
      rewrite Hw1 in Hwin. rewrite Ht1 in Htab.
      apply list_elem_of_fmap. exists (tab, win_id window). split; [done|].
      apply (collectTabsToMove_intro config g w0); try done.
      erewrite isCandidate_ext; [exact Hc|].
      symmetry. exact (only_stale_dropped_live _ _ _ Hs Hwin).
  - left. destruct (moveCandidates_rearrange g items st1) as [_ Hs1].
    apply (unbound_down _ _ _ Hs1). subst st1. simpl.
    intros j Hj.
    destruct (Hnone eq_refl j) as [_ Hgone].
    + by apply (only_stale_dropped_down _ _ _ _ Hs).
    + unfold getWindowBindings in Hj. simpl in Hj. congruence.
Qed.

(** *** The groups that come later *)

Lemma moveCandidate_keeps_no_candidate config g g' (ids : list N) st item :
  tab_id item.1 ∈ ids →
  no_candidate config g (st_world st) →
  (∀ T, T ∈ tabs (st_world st) → tab_id T ∈ ids →
        tabMatchesGroup (tab_url T) (tab_title T) g = false) →
  let st' := moveCandidate g' st item in
  no_candidate config g (st_world st') ∧
  (∀ T, T ∈ tabs (st_world st') → tab_id T ∈ ids →
        tabMatchesGroup (tab_url T) (tab_title T) g = false).
Proof.
  intros Hitem Hno Hskip. simpl.
  destruct (moveCandidate_rearranges g' st item) as (Hw & Hs & Htabs). simpl in *.
  split.
  - intros window tab Hwin Htab Hid Hty. rewrite Hw in Hwin.
    rewrite (isCandidate_ext config g _ (getWindowBindings (st_world st)) window tab)
      by (by apply only_stale_dropped_live).
    destruct (Htabs tab Htab) as [Hold|(T & k & HT & HidT & ->)].
    + by apply Hno.
    + apply not_matching_not_candidate. simpl. apply Hskip; [done|]. by rewrite HidT.
  - intros T' HT' Hid'.
    destruct (Htabs T' HT') as [Hold|(T & k & HT & HidT & ->)]; [by apply Hskip|].
    simpl. apply Hskip; [done|]. by rewrite HidT.
Qed.

Lemma moveCandidates_keep_no_candidate config g g' (ids : list N) items st :
  (∀ item : Tab * N, item ∈ items → tab_id item.1 ∈ ids) →
  no_candidate config g (st_world st) →
  (∀ T, T ∈ tabs (st_world st) → tab_id T ∈ ids →
        tabMatchesGroup (tab_url T) (tab_title T) g = false) →
  no_candidate config g (st_world (foldl (moveCandidate g') st items)).
Proof.
  revert st. induction items as [|item items IH]; intros st Hitems Hno Hskip; simpl;
    [done|].
  destruct (moveCandidate_keeps_no_candidate config g g' ids st item) as [Hno' Hskip'];
    try done.
  { apply Hitems. by left. }
  apply IH; try done. intros item' Hin. apply Hitems. by right.
Qed.

(** A group that comes later in the order takes no tab that [g] would then
    have to take back. *)
Lemma processGroup_keeps_no_candidate config g g' st :
  NoDup (name <$> groups config) → g ∈ groups config → name g ≠ "" →
  (priority g < priority g')%Z →
  NoDup (tab_id <$> tabs (st_world st)) →
  no_candidate config g (st_world st) →
  no_candidate config g (st_world (processGroup config st g')).
Proof.
  intros Hnames Hg Hne Hlt Hnd Hno. unfold processGroup. cbv zeta.
  set (w0 := emit [Processing (name g')] (st_world st)).
  destruct (findWindowForGroup (name g') w0) as [target w1] eqn:E.
  pose proof (findWindowForGroup_frame _ _ _ _ E) as (Hw1 & Ht1 & _ & Hshrink).
  change (windows w0) with (windows (st_world st)) in Hw1.
  change (tabs w0) with (tabs (st_world st)) in Ht1.
  assert (only_stale_dropped (st_world st) w1) as Hs.
  { intros j. destruct (Hshrink j) as [?|[? Hdead]]; [by left|by right]. }
  set (items := collectTabsToMove config g' (windows_getAll w0) (getWindowBindings w0)).
  apply (moveCandidates_keep_no_candidate config g g'
           ((λ item : Tab * N, tab_id item.1) <$> items)); simpl.
  - intros item Hin. apply list_elem_of_fmap. by exists item.
  - intros window tab Hwin Htab Hid Hty. simpl in Hwin, Htab.
    rewrite Hw1 in Hwin. rewrite Ht1 in Htab.
    erewrite isCandidate_ext; [by apply Hno|].
    exact (only_stale_dropped_live _ _ _ Hs Hwin).
  - intros T HT Hin. simpl in HT. rewrite Ht1 in HT.
    apply list_elem_of_fmap in Hin as ([tab k] & Hid & Hin). simpl in Hid.
    apply collectTabsToMove_elem in Hin
      as (window & wtabs & Hwin & Htab & _ & Hty & Hc).
    apply (windows_getAll_elem _ _ _ _ Hwin) in Htab as (Hwin' & Htab & Hwid).
    assert (T = tab) as -> by (by eapply NoDup_fmap_elem_inj).
    apply (later_candidate_skips config g g' (getWindowBindings w0) window);
      try done.
    by apply Hno.
Qed.

Lemma processGroups_keep_served config g gs st :
  NoDup (name <$> groups config) → g ∈ groups config → name g ≠ "" →
  (∀ g', g' ∈ gs → g' ∈ groups config ∧ (priority g < priority g')%Z) →
  NoDup (tab_id <$> tabs (st_world st)) →
  served config g (st_world st) →
  served config g (st_world (foldl (processGroup config) st gs)).
Proof.
  intros Hnames Hg Hne. revert st.
  induction gs as [|g' gs IH]; intros st Hgs Hnd Hserved; simpl; [done|].
  destruct (Hgs g') as [Hg' Hlt]; [by left|].
  destruct (processGroup_rearranges config g' st Hg') as (_ & Hs & Hnd').
  apply IH.
  - intros g'' Hin. apply Hgs. by right.
  - by apply Hnd'.
  - destruct Hserved as [Hu|Hno]; [left|right].
    + by apply (unbound_down _ _ _ Hs).
    + by apply processGroup_keeps_no_candidate.
Qed.

Lemma processGroups_serve config gs st :
  NoDup (name <$> groups config) →
  (∀ g, g ∈ groups config → name g ≠ "") →
  (∀ g, g ∈ gs → g ∈ groups config) →
  StronglySorted (λ a b, (priority a < priority b)%Z) gs →
  positive_ids (st_world st) →
  NoDup (tab_id <$> tabs (st_world st)) →
  ∀ g, g ∈ gs → served config g (st_world (foldl (processGroup config) st gs)).
Proof.
  intros Hnames Hne. revert st.
  induction gs as [|g0 gs IH]; intros st Hgs Hsorted Hpos Hnd g Hin; simpl;
    [by apply elem_of_nil in Hin|].
  apply StronglySorted_inv in Hsorted as [Hsorted Hfirst].
  assert (g0 ∈ groups config) as Hg0 by (apply Hgs; by left).
  destruct (processGroup_rearranges config g0 st Hg0) as (Hw & _ & Hnd').
  apply elem_of_cons in Hin as [->|Hin].
  - apply processGroups_keep_served; try done.
    + by apply Hne.
    + intros g' Hg'. split; [apply Hgs; by right|].
      by apply (proj1 (Forall_forall _ _) Hfirst).
    + by apply Hnd'.
    + by apply processGroup_serves.
  - apply IH; try done.
    + intros g' Hg'. apply Hgs. by right.
    + intros window Hwin. simpl in Hw. rewrite Hw in Hwin. by apply Hpos.
    + by apply Hnd'.
Qed.

(** X27. Sorting twice moves nothing the second time.  With distinct,
    non-empty group names and distinct priorities, distinct tab identifiers
    and no window numbered 0, a pass of [sortAllTabs] over what a first pass
    has left moves no tab, reports [moved = 0] and no error. *)
Theorem sortAllTabs_second_pass_moves_nothing (config : Config) (w : World) :
  valid_groups config →
  NoDup (tab_id <$> tabs w) →
  positive_ids w →
  let first := sortAllTabs config w in
  let second := sortAllTabs config (st_world first) in
  movedCount second = 0%nat ∧ st_errors second = [] ∧
  tabs (st_world second) = tabs (st_world first) ∧
  ∃ es, trace (st_world second) = trace (st_world first) ++ es ∧ moved_tabs es = [].
Proof.
  intros (Hnames & Hne & Hprio) Hnd Hpos. cbv zeta.
  destruct (negb (enabled config) || bool_decide (length (groups config) = 0%nat))
    eqn:Hoff.
  { unfold sortAllTabs. rewrite Hoff. simpl.
    split_and!; try done. exists []. by rewrite app_nil_r. }
  apply sortAllTabs_quiet. intros g Hg.
  assert (served config g (st_world (sortAllTabs config w))) as [Hu|Hno].
  { unfold sortAllTabs. rewrite Hoff.
    apply processGroups_serve; try done.
    - intros g' Hg'. by rewrite <- (sortedGroups_Permutation config).
    - apply StronglySorted_priority_strict; [apply sortedGroups_ascending|].
      by rewrite (sortedGroups_Permutation config).
    - by rewrite (sortedGroups_Permutation config). }
  - by right.
  - left. intros window wtabs tab Hwin Htab Hty.
    apply (windows_getAll_elem _ _ _ _ Hwin) in Htab as (Hwin' & Htab & Hid).
    by apply Hno.
Qed.

End SecondPass.

(** The first pass over [by_name_world] moves its tab, the second moves
    nothing. *)
Lemma sortAllTabs_second_pass_moves_nothing_witness :
  movedCount (@sortAllTabs sample_host by_name_config by_name_world) = 1%nat ∧
  movedCount
    (@sortAllTabs sample_host by_name_config
       (st_world (@sortAllTabs sample_host by_name_config by_name_world))) = 0%nat.
Proof.
  split; [by vm_compute|].
  apply (@sortAllTabs_second_pass_moves_nothing sample_host by_name_config
           by_name_world).
  - unfold valid_groups. split_and!; [compute_done| |compute_done].
    intros g Hg. by_cases_on_list Hg; by subst.
  - compute_done.
  - intros window Hwin. by_cases_on_list Hwin; by subst.
Defined.

(** ** Nothing configured *)

(** X28. Until something is configured nothing moves.  With no stored
    configuration [getConfig] gives the default one, without groups; under
    it, as under any disabled configuration, a navigation and the two tab
    listeners leave the world as it is, and [sortAllTabs] returns at once
    with [moved = 0]. *)
Theorem nothing_moves_when_off_or_unconfigured {host : Host} (w : World) :
  ∀ config : Config,
    config = getConfig None ∨ enabled config = false →
    (∀ tabId url title currentWindowId,
       handleTabNavigation config tabId url title currentWindowId w = w) ∧
    (∀ tabId changeInfo tab, onUpdated config tabId changeInfo tab w = w) ∧
    (∀ tab pendingUrl, onCreated config tab pendingUrl w = w) ∧
    sortAllTabs config w = {| st_world := w; movedCount := 0; st_errors := [] |}.
Proof.
  intros config Hoff.
  assert (∀ tabId url title currentWindowId,
            handleTabNavigation config tabId url title currentWindowId w = w) as Hnav.
  { intros tabId url title cur. unfold handleTabNavigation.
    destruct Hoff as [->|Hoff]; [|by rewrite Hoff].
    simpl. by destruct (isInternalUrl url). }
  split; [done|]. split; [|split].
  - intros tabId changeInfo tab. unfold onUpdated. by case_match.
  - intros tab pendingUrl. unfold onCreated. by case_match.
  - unfold sortAllTabs. destruct Hoff as [->|Hoff]; [done|by rewrite Hoff].
Qed.

Lemma nothing_moves_when_off_or_unconfigured_witness :
  @sortAllTabs sample_host (getConfig None) by_name_world
  = {| st_world := by_name_world; movedCount := 0; st_errors := [] |}.
Proof.
  apply (@nothing_moves_when_off_or_unconfigured sample_host by_name_world
           (getConfig None)).
  by left.
Defined.
